(** * eKoNLPy sentiment dictionaries: [ekonlpy/sentiment/base.py] and
    [ekonlpy/sentiment/mpko.py]

    A shallow embedding of [BaseDict] (term lookup and score aggregation)
    and of [MPKO.init_dict] (the lexicon loader), followed by the
    properties of the scoring model.

    Python values are modelled as the interpreter has them:
    - [str] is a sequence of Unicode code points ([list N]), so that [len]
      counts characters and not bytes (the lexicon is Korean text);
    - [int] is [Z]; [float] is IEEE 754 binary64, given by the standard
      library's executable specification [SpecFloat] at precision 53 and
      maximal exponent 1024;
    - [dict] is a finite map ([gmap]);
    - an exception is the [Raise] branch of [result]. *)

From Stdlib Require Import ZArith Reals Lra Lia.
From Stdlib Require Import Floats.SpecFloat.
From stdpp Require Import gmap strings list.

Open Scope Z_scope.

(** ** Exceptions *)

Inductive exn :=
  | FileNotFoundError
  | OSError
  | UnicodeDecodeError
  | KeyError
  | IndexError
  | ValueError
  | AssertionError
  | OverflowError
  | ZeroDivisionError
  | TokenizerError.

Inductive result (A : Type) :=
  | Ok (a : A)
  | Raise (e : exn).
Arguments Ok {A} a.
Arguments Raise {A} e.

Global Instance result_ret : MRet result := fun A a => Ok a.
Global Instance result_bind : MBind result := fun A B k r =>
  match r with
  | Ok a => k a
  | Raise e => Raise e
  end.

Definition of_option {A} (e : exn) (o : option A) : result A :=
  match o with
  | Some a => Ok a
  | None => Raise e
  end.

(** ** Strings *)

Abbreviation pystr := (list N).

(** An ASCII literal as a Python string. *)
Definition str (s : string) : pystr :=
  map (fun c => N.of_nat (Ascii.nat_of_ascii c)) (String.list_ascii_of_string s).

Definition comma : N := 44%N.

(** [s.split(sep)] for a one-character separator: always at least one
    field. *)
Fixpoint split (sep : N) (s : pystr) : list pystr :=
  match s with
  | [] => [[]]
  | c :: s' =>
      if N.eqb c sep then [] :: split sep s'
      else match split sep s' with
           | [] => [[c]]
           | w :: ws => (c :: w) :: ws
           end
  end.

(** The characters [str.strip()] removes: those for which [str.isspace]
    holds. *)
Definition isspace (c : N) : bool :=
  ((9 <=? c) && (c <=? 13) || (28 <=? c) && (c <=? 32)
   || (c =? 133) || (c =? 160) || (c =? 5760)
   || (8192 <=? c) && (c <=? 8202)
   || (c =? 8232) || (c =? 8233) || (c =? 8239) || (c =? 8287)
   || (c =? 12288))%N.

Fixpoint lstrip (s : pystr) : pystr :=
  match s with
  | [] => []
  | c :: s' => if isspace c then lstrip s' else s
  end.

Definition strip (s : pystr) : pystr := rev (lstrip (rev (lstrip s))).

(** [l[i]] *)
Definition index {A} (l : list A) (i : nat) : result A :=
  of_option IndexError (l !! i).

(** ** Numbers *)

Abbreviation float := spec_float.

Definition prec : Z := 53.
Definition emax : Z := 1024.

Abbreviation fadd := (SFadd prec emax).
Abbreviation fsub := (SFsub prec emax).
Abbreviation fmul := (SFmul prec emax).
Abbreviation fdiv := (SFdiv prec emax).

Inductive num :=
  | PyInt (z : Z)
  | PyFloat (f : float).

Definition fzero : float := S754_zero false.
Definition fone : float := S754_finite false 4503599627370496 (-52).

(** [float(z)] for an [int]: correctly rounded, [OverflowError] when the
    integer is too large for a double. *)
Definition float_of_int (z : Z) : result float :=
  match binary_normalize prec emax z 0 false with
  | S754_infinity _ => Raise OverflowError
  | f => Ok f
  end.

Definition to_float (a : num) : result float :=
  match a with
  | PyInt z => float_of_int z
  | PyFloat f => Ok f
  end.

Definition py_add (a b : num) : result num :=
  match a, b with
  | PyInt x, PyInt y => Ok (PyInt (x + y))
  | _, _ => x ← to_float a; y ← to_float b; Ok (PyFloat (fadd x y))
  end.

Definition py_sub (a b : num) : result num :=
  match a, b with
  | PyInt x, PyInt y => Ok (PyInt (x - y))
  | _, _ => x ← to_float a; y ← to_float b; Ok (PyFloat (fsub x y))
  end.

Definition py_mul (a b : num) : result num :=
  match a, b with
  | PyInt x, PyInt y => Ok (PyInt (x * y))
  | _, _ => x ← to_float a; y ← to_float b; Ok (PyFloat (fmul x y))
  end.

Definition is_zero (f : float) : bool :=
  match f with
  | S754_zero _ => true
  | _ => false
  end.

(** [a / b] on two integers: the correctly rounded quotient. *)
Definition int_truediv (a b : Z) : result float :=
  if b =? 0 then Raise ZeroDivisionError
  else if a =? 0 then Ok (S754_zero (b <? 0))
  else
    let '(q, e, l) := SFdiv_core_binary prec emax (Z.abs a) 0 (Z.abs b) 0 in
    match binary_round_aux prec emax (xorb (a <? 0) (b <? 0)) q e l with
    | S754_infinity _ => Raise OverflowError
    | f => Ok f
    end.

Definition py_truediv (a b : num) : result num :=
  match a, b with
  | PyInt x, PyInt y => f ← int_truediv x y; Ok (PyFloat f)
  | _, _ =>
      x ← to_float a; y ← to_float b;
      if is_zero y then Raise ZeroDivisionError else Ok (PyFloat (fdiv x y))
  end.

(** [s > 0], [s < 0] and [s != 0]; a NaN compares false with everything
    and is different from everything. *)
Definition py_gt0 (s : num) : bool :=
  match s with
  | PyInt z => 0 <? z
  | PyFloat f => SFltb fzero f
  end.

Definition py_lt0 (s : num) : bool :=
  match s with
  | PyInt z => z <? 0
  | PyFloat f => SFltb f fzero
  end.

Definition py_ne0 (s : num) : bool :=
  match s with
  | PyInt z => negb (z =? 0)
  | PyFloat f => negb (SFeqb f fzero)
  end.

(** [sum(l)]: starts from the integer [0] and adds from left to right. *)
Fixpoint sum_from (acc : num) (l : list num) : result num :=
  match l with
  | [] => Ok acc
  | x :: l' => acc' ← py_add acc x; sum_from acc' l'
  end.

Definition sum (l : list num) : result num := sum_from (PyInt 0) l.

Definition len {A} (l : list A) : num := PyInt (Z.of_nat (length l)).

(** ** [BaseDict] *)

(** The three tables of a dictionary object. *)
Record tables := {
  _posdict : gmap pystr Z;
  _negdict : gmap pystr Z;
  _poldict : gmap pystr float
}.

Definition empty_tables : tables :=
  {| _posdict := ∅; _negdict := ∅; _poldict := ∅ |}.

(** [EPSILON = 1e-6], the double nearest to one millionth. *)
Definition EPSILON : float := S754_finite false 4722366482869645 (-72).

Record score := {
  Positive : num;
  Negative : num;
  Polarity : num;
  Subjectivity : num
}.

Definition _get_score (self : tables) (term : pystr) (by_count : bool) : num :=
  if by_count then
    match _posdict self !! term with
    | Some v => PyInt v
    | None =>
        match _negdict self !! term with
        | Some v => PyInt v
        | None => PyInt 0
        end
    end
  else
    match _poldict self !! term with
    | Some v => PyFloat v
    | None => PyInt 0
    end.

Definition get_score (self : tables) (terms : list pystr) (by_count : bool)
  : result score :=
  let score_li := (fun t => _get_score self t by_count) <$> terms in
  let pos_score_li := filter (fun s => py_gt0 s = true) score_li in
  let neg_score_li := filter (fun s => py_lt0 s = true) score_li in
  s_pos ← sum pos_score_li;
  s_neg ← sum neg_score_li;
  pn ← py_add s_pos s_neg;
  num_pol ← py_mul pn (PyFloat fone);
  d ← (if by_count then py_sub s_pos s_neg else Ok (len score_li));
  den_pol ← py_add d (PyFloat EPSILON);
  s_pol ← py_truediv num_pol den_pol;
  cnt ← py_add (len pos_score_li) (len neg_score_li);
  num_sub ← py_mul cnt (PyFloat fone);
  den_sub ← py_add (len score_li) (PyFloat EPSILON);
  s_sub ← py_truediv num_sub den_sub;
  Ok {| Positive := s_pos; Negative := s_neg;
        Polarity := s_pol; Subjectivity := s_sub |}.

(** ** Text files

    What iterating over a file opened in text mode gives: the lines that
    the iteration yields, each with its line end, and the exception, if
    any, that ends the iteration before the end of the file
    ([UnicodeDecodeError] for bytes that are not UTF-8, an [OSError] for a
    failed read). *)
Record text_file := {
  file_lines : list pystr;
  file_error : option exn
}.

(** ** [MPKO]: the lexicon loader and the constructor *)

Section Loader.

(** [ekonlpy.utils.installpath], from which [LEXICON_PATH] is built. *)
Variable installpath : pystr.

(** The built-in [float(s)] on a string: [None] is [ValueError]. *)
Variable pyfloat : pystr -> option float.

(** [ekonlpy.sentiment.utils.MPTokenizer(kind, poldict)]. *)
Variable tokenizer : Type.
Variable MPTokenizer : option Z -> gmap pystr float -> result tokenizer.

(** The interpreter's [__debug__]: [False] when Python runs with [-O] or
    [PYTHONOPTIMIZE], and then no [assert] statement is executed. *)
Variable __debug__ : bool.

Definition LEXICON_PATH : pystr := installpath ++ str "/data/lexicon".

Definition KINDS : gmap Z pystr :=
  <[0 := str "mp_polarity_lexicon_mkt.csv"]>
  (<[1 := str "mp_polarity_lexicon_lex.csv"]>
  (<[3 := str "mp_uncertainty_lexicon.csv"]> ∅)).

(** One iteration of the loop over the lines of the file. *)
Definition load_line (line : pystr) (self : tables) : result tables :=
  let word := split comma line in
  w ← index word 0;
  if decide (w = str "word") then Ok self
  else
    f1 ← index word 1;
    p ← of_option ValueError (pyfloat (strip f1));
    f2 ← index word 2;
    s ← of_option ValueError (pyfloat (strip f2));
    if (1 <? length w)%nat then
      let self := {| _posdict := _posdict self;
                     _negdict := _negdict self;
                     _poldict := <[w := s]> (_poldict self) |} in
      if py_gt0 (PyFloat p) then
        Ok {| _posdict := <[w := 1]> (_posdict self);
              _negdict := _negdict self;
              _poldict := _poldict self |}
      else if py_lt0 (PyFloat p) then
        Ok {| _posdict := _posdict self;
              _negdict := <[w := -1]> (_negdict self);
              _poldict := _poldict self |}
      else Ok self
    else Ok self.

Fixpoint load_lines (f : list pystr) (self : tables) : result tables :=
  match f with
  | [] => Ok self
  | line :: f' => self' ← load_line line self; load_lines f' self'
  end.

(** The file system gives, for a path, what [open(path, encoding='utf-8')]
    does: it raises ([FileNotFoundError] for a missing file, another
    [OSError] for one that cannot be opened), or it returns a text file
    (see [text_file]). The model takes every list of lines for a file,
    also those that no text file yields. *)
Definition init_dict (fs : pystr -> result text_file) (kind : option Z)
    (self : tables) : result tables :=
  let kind :=
    match kind with
    | Some k => if decide (is_Some (KINDS !! k)) then k else 0
    | None => 0
    end in
  name ← of_option KeyError (KINDS !! kind);
  let path := LEXICON_PATH ++ str "/mpko/" ++ name in
  f ← fs path;
  self ← load_lines (file_lines f) self;
  match file_error f with
  | None => Ok self
  | Some e => Raise e
  end.

Definition init_tokenizer (kind : option Z) (self : tables) : result tokenizer :=
  MPTokenizer kind (_poldict self).

Record dictionary := {
  _tables : tables;
  _tokenizer : tokenizer
}.

(** [assert cond]. *)
Definition py_assert (cond : bool) : result unit :=
  if __debug__ then (if cond then Ok tt else Raise AssertionError) else Ok tt.

Definition __init__ (fs : pystr -> result text_file)
    (tok : option tokenizer) (kind : option Z) : result dictionary :=
  self ← init_dict fs kind empty_tables;
  tk ← match tok with
       | None => init_tokenizer kind self
       | Some tk => Ok tk
       end;
  _ ← py_assert ((0 <? size (_posdict self))%nat && (0 <? size (_negdict self))%nat);
  Ok {| _tables := self; _tokenizer := tk |}.

End Loader.

Arguments _tables {tokenizer} _.
Arguments _tokenizer {tokenizer} _.

(** ** A reader for [float]

    [float_of_str] reads a string as [float()] does. Whitespace other than
    ASCII becomes a space and a decimal digit of any script its ASCII
    digit; ASCII whitespace is removed at both ends; an underscore may
    stand between two digits. What is left is an optional sign, then
    [inf], [infinity] or [nan] in any case, or a decimal number with an
    optional exponent; the value is rounded to the nearest double, ties to
    even. *)

(** The code points of the digit zero of the decimal digits of Unicode
    14.0; the nine code points after each are its digits one to nine. *)
Definition decimal_zeros : list N :=
  [48; 1632; 1776; 1984; 2406; 2534; 2662; 2790; 2918; 3046; 3174; 3302;
   3430; 3558; 3664; 3792; 3872; 4160; 4240; 6112; 6160; 6470; 6608;
   6784; 6800; 6992; 7088; 7232; 7248; 42528; 43216; 43264; 43472;
   43504; 43600; 44016; 65296; 66720; 68912; 69734; 69872; 69942; 70096;
   70384; 70736; 70864; 71248; 71360; 71472; 71904; 72016; 72784; 73040;
   73120; 92768; 92864; 93008; 120782; 120792; 120802; 120812; 120822;
   123200; 123632; 125264; 130032]%N.

Definition to_decimal (c : N) : option N :=
  match List.find (fun z => ((z <=? c) && (c <=? z + 9))%N) decimal_zeros with
  | Some z => Some (c - z)%N
  | None => None
  end.

(** A character that is neither ASCII, nor whitespace, nor a decimal digit
    becomes a question mark, which no number contains. *)
Definition to_ascii (c : N) : N :=
  if (c <? 127)%N then c
  else if isspace c then 32%N
  else match to_decimal c with
       | Some d => (48 + d)%N
       | None => 63%N
       end.

(** The whitespace of ASCII that [float()] removes: not the separators
    28 to 31, which [str.strip] removes. *)
Definition isspace_ascii (c : N) : bool :=
  ((9 <=? c) && (c <=? 13) || (c =? 32))%N.

Fixpoint lstrip_ascii (s : pystr) : pystr :=
  match s with
  | [] => []
  | c :: s' => if isspace_ascii c then lstrip_ascii s' else s
  end.

Definition strip_ascii (s : pystr) : pystr :=
  rev (lstrip_ascii (rev (lstrip_ascii s))).

Definition digit (c : N) : option Z :=
  if ((48 <=? c) && (c <=? 57))%N then Some (Z.of_N c - 48) else None.

(** Removes the underscores, each of which must follow a digit and come
    before a digit; [prev] is the character before [s]. *)
Fixpoint remove_underscores (prev : N) (s : pystr) : option pystr :=
  match s with
  | [] => if (prev =? 95)%N then None else Some []
  | c :: s' =>
      if (c =? 95)%N then
        match digit prev with
        | Some _ => remove_underscores c s'
        | None => None
        end
      else
        match (prev =? 95)%N, digit c with
        | true, None => None
        | _, _ =>
            match remove_underscores c s' with
            | Some r => Some (c :: r)
            | None => None
            end
        end
  end.

(** Reads a run of digits: the accumulated value, how many digits were
    read, and the rest of the string. *)
Fixpoint digits_acc (acc : Z) (n : Z) (s : pystr) : Z * Z * pystr :=
  match s with
  | [] => (acc, n, [])
  | c :: s' =>
      match digit c with
      | Some d => digits_acc (10 * acc + d) (n + 1) s'
      | None => (acc, n, s)
      end
  end.

Definition lower (c : N) : N :=
  if ((65 <=? c) && (c <=? 90))%N then (c + 32)%N else c.

Definition read_sign (s : pystr) : bool * pystr :=
  match s with
  | 45%N :: s' => (true, s')
  | 43%N :: s' => (false, s')
  | _ => (false, s)
  end.

(** The double nearest to [m * 10 ^ e], for [0 <= m]. *)
Definition float_of_decimal (neg : bool) (m e : Z) : float :=
  if m =? 0 then S754_zero neg
  else if 0 <=? e then binary_normalize prec emax (cond_Zopp neg (m * 10 ^ e)) 0 false
  else
    let '(q, e', l) := SFdiv_core_binary prec emax m 0 (10 ^ (- e)) 0 in
    binary_round_aux prec emax neg q e' l.

Definition read_exponent (s : pystr) : option Z :=
  match s with
  | [] => Some 0
  | c :: s' =>
      if (lower c =? 101)%N then
        let '(neg, s'') := read_sign s' in
        match digits_acc 0 0 s'' with
        | (x, n, []) => if 0 <? n then Some (cond_Zopp neg x) else None
        | _ => None
        end
      else None
  end.

(** A string of ASCII without underscores or whitespace around it. *)
Definition float_of_ascii (s : pystr) : option float :=
  let '(neg, s) := read_sign s in
  let l := map lower s in
  if decide (l = str "inf" \/ l = str "infinity") then Some (S754_infinity neg)
  else if decide (l = str "nan") then Some S754_nan
  else
    let '(m, ni, s1) := digits_acc 0 0 s in
    let '(m, nf, s2) :=
      match s1 with
      | 46%N :: s1' => digits_acc m 0 s1'
      | _ => (m, 0, s1)
      end in
    if 0 <? ni + nf then
      x ← read_exponent s2; Some (float_of_decimal neg m (x - nf))
    else None.

Definition float_of_str (s : pystr) : option float :=
  s ← remove_underscores 0%N (strip_ascii (map to_ascii s));
  float_of_ascii s.

(** * Definitions of the statements *)

(** ** Real values of doubles and rounding *)

Definition bpow (e : Z) : R := powerRZ 2 e.

Definition F2R (m e : Z) : R := (IZR m * bpow e)%R.

Definition SF2R (x : float) : R :=
  match x with
  | S754_finite s m e => F2R (cond_Zopp s (Zpos m)) e
  | _ => 0%R
  end.

Definition is_finite (x : float) : bool :=
  match x with
  | S754_zero _ | S754_finite _ _ _ => true
  | _ => false
  end.

Definition valid (x : float) : Prop := valid_binary prec emax x = true.

Abbreviation fexp := (SpecFloat.fexp prec emax).

(** [loc_ok m l x]: the real [x] lies in [[m, m + 1)], and [l] says where:
    at [m], below, at or above the middle. *)
Definition loc_ok (m : Z) (l : location) (x : R) : Prop :=
  match l with
  | loc_Exact => x = IZR m
  | loc_Inexact Lt => (IZR m < x < IZR m + / 2)%R
  | loc_Inexact Eq => x = (IZR m + / 2)%R
  | loc_Inexact Gt => (IZR m + / 2 < x < IZR m + 1)%R
  end.

Definition rec_ok (r : shr_record) (x : R) : Prop :=
  loc_ok (shr_m r) (loc_of_shr_record r) x.

Abbreviation RNE := round_nearest_even.

(** The outcome of [binary_round_aux] on a located real: truncation to
    the target exponent [et], rounding of the last place to [m1], then one
    renormalisation step when [m1] reaches [2 ^ 53]. *)
Definition bra_result (sx : bool) (m1 et : Z) : float :=
  if m1 =? 0 then S754_zero sx
  else if m1 <? 2 ^ 53 then
    if et <=? 971 then S754_finite sx (Z.to_pos m1) et else S754_infinity sx
  else
    if et + 1 <=? 971 then S754_finite sx 4503599627370496 (et + 1)
    else S754_infinity sx.

Definition mag (x : float) : R :=
  match x with
  | S754_finite _ m e => F2R (Zpos m) e
  | _ => 0%R
  end.

Definition sign (x : float) : bool :=
  match x with
  | S754_zero s | S754_infinity s | S754_finite s _ _ => s
  | S754_nan => false
  end.

Definition srounds (r : float) (x : R) : Prop :=
  valid r /\
  forall lo hi, valid lo -> valid hi -> is_finite lo = true -> is_finite hi = true ->
    (SF2R lo <= x <= SF2R hi)%R ->
    is_finite r = true /\ (SF2R lo <= SF2R r <= SF2R hi)%R.

(** The canonical double of an integer of at most 53 bits. *)
Definition small_int (z : Z) : float :=
  if z =? 0 then S754_zero false
  else if Z.abs z <? 2 ^ 53 then
    S754_finite (z <? 0) (Z.to_pos (Z.abs z * 2 ^ (53 - Zdigits2 (Z.abs z))))
      (Zdigits2 (Z.abs z) - 53)
  else S754_finite (z <? 0) 4503599627370496 1.

(** ** Records of a lexicon file *)

(** [record line w p s]: the line is not the header, and its first three
    fields are the word [w] and two numbers that [float] reads as [p] and
    [s]. *)
Definition record (pyfloat : pystr -> option float)
    (line w : pystr) (p s : float) : Prop :=
  exists f1 f2,
    split comma line !! 0%nat = Some w /\ w <> str "word" /\
    split comma line !! 1%nat = Some f1 /\ pyfloat (strip f1) = Some p /\
    split comma line !! 2%nat = Some f2 /\ pyfloat (strip f2) = Some s.

(** A record is retained when its word has more than one character. *)
Definition retained (pyfloat : pystr -> option float)
    (line w : pystr) (p s : float) : Prop :=
  record pyfloat line w p s /\ (1 < length w)%nat.

(** What the loop body stores for a record. *)
Definition store (w : pystr) (p s : float) (self : tables) : tables :=
  if (1 <? length w)%nat then
    {| _posdict := if py_gt0 (PyFloat p) then <[w := 1]> (_posdict self)
                   else _posdict self;
       _negdict := if py_gt0 (PyFloat p) then _negdict self
                   else if py_lt0 (PyFloat p) then <[w := -1]> (_negdict self)
                   else _negdict self;
       _poldict := <[w := s]> (_poldict self) |}
  else self.

(** The path of the lexicon file of a [kind]: that of kind [0] for a
    [kind] that is no key of [KINDS], and for no [kind]. *)
Definition lexicon_path (installpath : pystr) (kind : option Z) : pystr :=
  installpath ++ str "/data/lexicon/mpko/" ++
  match kind with
  | Some 1 => str "mp_polarity_lexicon_lex.csv"
  | Some 3 => str "mp_uncertainty_lexicon.csv"
  | _ => str "mp_polarity_lexicon_mkt.csv"
  end.

(** The lines of the lexicon file that [init_dict] reads for [kind], when
    the file opens and the iteration over it reaches its end without an
    exception. *)
Definition lexicon (installpath : pystr) (fs : pystr -> result text_file)
    (kind : option Z) : option (list pystr) :=
  match fs (lexicon_path installpath kind) with
  | Ok {| file_lines := f; file_error := None |} => Some f
  | _ => None
  end.

(** A line that is not the header and whose second field, or whose third
    field after a well-formed second one, is not a number. *)
Definition malformed (pyfloat : pystr -> option float) (line : pystr) : Prop :=
  exists w x1,
    split comma line !! 0%nat = Some w /\ w <> str "word" /\
    split comma line !! 1%nat = Some x1 /\
    (pyfloat (strip x1) = None \/
     exists p x2, pyfloat (strip x1) = Some p /\
                  split comma line !! 2%nat = Some x2 /\
                  pyfloat (strip x2) = None).

(** ** The scoring formula as the specification states it *)

Definition fneg_one : float := S754_finite true 4503599627370496 (-52).

Definition scores (self : tables) (terms : list pystr) (by_count : bool) : list num :=
  (fun t => _get_score self t by_count) <$> terms.

(** Tokens with a nonzero score, and tokens with a strictly positive or
    strictly negative score. *)
Definition count_nonzero (l : list num) : Z :=
  Z.of_nat (length (filter (fun s => py_ne0 s = true) l)).

Definition count_signed (l : list num) : Z :=
  Z.of_nat (length (filter (fun s => py_gt0 s || py_lt0 s = true) l)).

(** Positive and Negative are the sums of the strictly positive and of the
    strictly negative scores, Polarity is [(Positive + Negative) / (D + 1e-6)]
    and Subjectivity is [count / (number of tokens + 1e-6)]. *)
Definition formula (count : list num -> Z) (self : tables)
    (terms : list pystr) (by_count : bool) : result score :=
  let l := scores self terms by_count in
  P ← sum (filter (fun s => py_gt0 s = true) l);
  N ← sum (filter (fun s => py_lt0 s = true) l);
  D ← (if by_count then py_sub P N else Ok (len terms));
  PN ← py_add P N;
  den ← py_add D (PyFloat EPSILON);
  pol ← py_truediv PN den;
  den' ← py_add (len terms) (PyFloat EPSILON);
  sub ← py_truediv (PyInt (count l)) den';
  Ok {| Positive := P; Negative := N; Polarity := pol; Subjectivity := sub |}.

Definition claimed_score := formula count_nonzero.

Definition signed_score := formula count_signed.

(** Tables as [MPKO.init_dict] builds them: [+1] and [-1] in the count
    tables, doubles in the polarity table. *)
Definition wf_tables (self : tables) : Prop :=
  map_Forall (fun _ v => v = 1) (_posdict self) /\
  map_Forall (fun _ v => v = -1) (_negdict self) /\
  map_Forall (fun _ v => valid v) (_poldict self).

(** [float(z)] when it does not overflow. *)
Definition fl (z : Z) : float := binary_normalize prec emax z 0 false.

Definition b63 : float := S754_finite false 4503599627370496 11.

Definition b64 : float := S754_finite false 4503599627370496 12.

(** The score record that [get_score] evaluates to, given the two sums
    [P] and [N], the numerator [nf] of Polarity as a double and the integer
    [dz] of its denominator. *)
Definition evaluated (self : tables) (terms : list pystr) (by_count : bool)
    (P N : num) (nf : float) (dz : Z) : score :=
  let l := scores self terms by_count in
  let c := Z.of_nat (length (filter (fun s => py_gt0 s = true) l)) +
           Z.of_nat (length (filter (fun s => py_lt0 s = true) l)) in
  {| Positive := P; Negative := N;
     Polarity := PyFloat (fdiv nf (fadd (fl dz) EPSILON));
     Subjectivity :=
       PyFloat (fdiv (fl c) (fadd (fl (Z.of_nat (length terms))) EPSILON)) |}.

(** A score of the polarity mode, or a sum of such scores: the integer [0]
    or a double. *)
Definition okp (a : num) : Prop :=
  a = PyInt 0 \/ exists f, a = PyFloat f /\ valid f.

(** [between a lo hi]: the number [a] is a sum of polarity scores whose
    value lies between the integers [lo] and [hi]. *)
Definition between (a : num) (lo hi : Z) : Prop :=
  okp a /\
  exists f, to_float a = Ok f /\ is_finite f = true /\
            (IZR lo <= SF2R f <= IZR hi)%R.

(** Every polarity score of a token lies in [[-1, 1]]. *)
Definition bounded_values (self : tables) (terms : list pystr) : Prop :=
  forall t v, t ∈ terms -> _poldict self !! t = Some v ->
    SFleb fneg_one v = true /\ SFleb v fone = true.

(** ** Sample lexicons *)

(** The lines of a text file, each ended by a newline. *)
Definition lines (ls : list string) : list pystr :=
  (fun s => str s ++ [10%N]) <$> ls.

Definition sample_installpath : pystr := str "/opt/ekonlpy".

Definition mkt_path : pystr :=
  str "/opt/ekonlpy/data/lexicon/mpko/mp_polarity_lexicon_mkt.csv".

(** A file system with the market lexicon alone, read without an error,
    and one without it. *)
Definition one_file (f : list pystr) : pystr -> result text_file :=
  fun path =>
    if decide (path = mkt_path)
    then Ok {| file_lines := f; file_error := None |}
    else Raise FileNotFoundError.

Definition no_file : pystr -> result text_file := fun _ => Raise FileNotFoundError.

Definition sample_lexicon : list pystr :=
  lines ["word,polarity,score"; "hike,1,0.8"; "cut,-1,-0.6"; "hold,0,0.1";
         "x,1,0.5"]%string.

Definition overlap_lexicon : list pystr := lines ["ab,1,0.5"; "ab,-1,0.25"]%string.

Definition nan_lexicon : list pystr := lines ["ab,0,nan"]%string.

Definition large_lexicon : list pystr := lines ["hike,1,5.0"]%string.

Definition short_lexicon : list pystr := lines ["x,abc,0.5"]%string.


(** The tables that construction builds from a lexicon file. *)
Definition load (f : list pystr) : result tables :=
  init_dict sample_installpath float_of_str (one_file f) None empty_tables.

Definition tables_of (f : list pystr) : tables :=
  match load f with
  | Ok self => self
  | Raise _ => empty_tables
  end.

Definition hike : pystr := str "hike".

Definition cut : pystr := str "cut".

Definition ab : pystr := str "ab".

(** ** Lines of a lexicon file *)

(** A header line: its first field is the string [word]. *)
Definition header (line : pystr) : Prop :=
  split comma line !! 0%nat = Some (str "word").

(** A line that the loop body reads without raising: a header line, or a
    line with a word and two numeric fields. *)
Definition well_formed (pyfloat : pystr -> option float) (line : pystr) : Prop :=
  header line \/ exists w p s, record pyfloat line w p s.

(** ** [BaseDict.tokenize] *)

Section Tokenize.
Variable tokenizer : Type.

(** The [tokenize] method of the tokenizer object. *)
Variable tokenizer_tokenize : tokenizer -> pystr -> result (list pystr).

Definition tokenize (self : dictionary tokenizer) (text : pystr)
  : result (list pystr) :=
  tokenizer_tokenize (_tokenizer self) text.

End Tokenize.

(** ** Sums of scores and signs of doubles *)

(** The sum of the integers of a list of scores. *)
Fixpoint zsum (l : list num) : Z :=
  match l with
  | [] => 0
  | PyInt z :: l' => z + zsum l'
  | PyFloat _ :: l' => zsum l'
  end.

Definition is_int (s : num) : Prop :=
  match s with
  | PyInt _ => True
  | PyFloat _ => False
  end.

(** The doubles [2 ^ -54] and [- 2 ^ -54]. *)
Definition ftiny : float := S754_finite false 4503599627370496 (-106).

Definition fneg_tiny : float := S754_finite true 4503599627370496 (-106).

(** A double above zero, [+inf] included, and a double below zero. *)
Definition fpos (f : float) : Prop := SFltb fzero f = true.

Definition fneg (f : float) : Prop := SFltb f fzero = true.

(** * Binary64 arithmetic *)

Lemma fexp_eq e : fexp e = Z.max (e - 53) (-1074).
Proof. reflexivity. Qed.

Lemma fexp_mono a b : a <= b -> fexp a <= fexp b.
Proof. rewrite !fexp_eq. lia. Qed.

Lemma bpow_gt_0 e : (0 < bpow e)%R.
Proof. apply powerRZ_lt. lra. Qed.

Lemma bpow_add a b : bpow (a + b) = (bpow a * bpow b)%R.
Proof. apply powerRZ_add. lra. Qed.

Lemma bpow_0 : bpow 0 = 1%R.
Proof. reflexivity. Qed.

Lemma bpow_IZR e : 0 <= e -> bpow e = IZR (2 ^ e).
Proof.
  intros H. unfold bpow. destruct e as [| p | p]; [done | | lia].
  rewrite <- Zpower_pos_powerRZ. done.
Qed.

Lemma bpow_opp e : bpow (- e) = (/ bpow e)%R.
Proof.
  assert (H := bpow_add e (- e)). rewrite Z.add_opp_diag_r, bpow_0 in H.
  assert (H0 := bpow_gt_0 e).
  apply (Rmult_eq_reg_l (bpow e)); [| lra].
  rewrite <- H. field. lra.
Qed.

Lemma bpow_le a b : a <= b -> (bpow a <= bpow b)%R.
Proof.
  intros H. replace b with (a + (b - a)) by lia. rewrite bpow_add.
  rewrite (bpow_IZR (b - a)) by lia.
  assert (1 <= 2 ^ (b - a)) by (apply Z.lt_succ_r, Z.lt_pred_lt_succ; simpl; apply Z.pow_pos_nonneg; lia).
  apply IZR_le in H0. assert (H1 := bpow_gt_0 a). nra.
Qed.

Lemma bpow_lt a b : a < b -> (bpow a < bpow b)%R.
Proof.
  intros H. replace b with (a + (b - a)) by lia. rewrite bpow_add.
  rewrite (bpow_IZR (b - a)) by lia.
  assert (2 ^ 1 <= 2 ^ (b - a)) by (apply Z.pow_le_mono_r; lia).
  apply IZR_le in H0. change (2 ^ 1) with 2 in H0.
  assert (H1 := bpow_gt_0 a). nra.
Qed.

Lemma bpow_lt_inv a b : (bpow a < bpow b)%R -> a < b.
Proof.
  intros H. destruct (Z_lt_le_dec a b) as [| Hle]; [done |].
  apply bpow_le in Hle. lra.
Qed.

Lemma unscale x e : (x * bpow (- e) * bpow e = x)%R.
Proof.
  rewrite Rmult_assoc, <- bpow_add, Z.add_opp_diag_l, bpow_0. ring.
Qed.

Lemma scale_le a x e : (a <= x * bpow (- e))%R -> (a * bpow e <= x)%R.
Proof.
  intros H. apply Rmult_le_compat_r with (r := bpow e) in H;
    [| left; apply bpow_gt_0]. by rewrite unscale in H.
Qed.

Lemma le_scale a x e : (x <= a * bpow e)%R -> (x * bpow (- e) <= a)%R.
Proof.
  intros H. apply Rmult_le_compat_r with (r := bpow (- e)) in H;
    [| left; apply bpow_gt_0].
  rewrite <- (unscale a (- e)). by rewrite Z.opp_involutive.
Qed.

Lemma scale_ge a x e : (x * bpow (- e) <= a)%R -> (x <= a * bpow e)%R.
Proof.
  intros H. apply Rmult_le_compat_r with (r := bpow e) in H;
    [| left; apply bpow_gt_0]. by rewrite unscale in H.
Qed.

Lemma ge_scale a x e : (a * bpow e <= x)%R -> (a <= x * bpow (- e))%R.
Proof.
  intros H. apply Rmult_le_compat_r with (r := bpow (- e)) in H;
    [| left; apply bpow_gt_0].
  rewrite <- (unscale a (- e)). by rewrite Z.opp_involutive.
Qed.

Lemma F2R_shift m e k : 0 <= k -> F2R (m * 2 ^ k) e = F2R m (e + k).
Proof.
  intros H. unfold F2R. rewrite mult_IZR, bpow_add, (bpow_IZR k) by done. ring.
Qed.

(** ** Number of binary digits *)

Lemma digits2_size p : digits2_pos p = Pos.size p.
Proof. induction p; simpl; congruence. Qed.

Lemma Zdigits2_log2 m : 0 < m -> Zdigits2 m = Z.log2 m + 1.
Proof.
  destruct m as [| p | p]; try lia. intros _. simpl. rewrite digits2_size.
  destruct p; simpl; lia.
Qed.

Lemma Zdigits2_bounds m : 0 < m -> 2 ^ (Zdigits2 m - 1) <= m < 2 ^ Zdigits2 m.
Proof.
  intros H. rewrite Zdigits2_log2 by done.
  replace (Z.log2 m + 1 - 1) with (Z.log2 m) by lia.
  apply Z.log2_spec. done.
Qed.

Lemma Zdigits2_pos m : 0 < m -> 0 < Zdigits2 m.
Proof. intros H. rewrite Zdigits2_log2 by done. pose proof (Z.log2_nonneg m). lia. Qed.

Lemma Zdigits2_unique m k : 2 ^ (k - 1) <= m < 2 ^ k -> 0 < k -> Zdigits2 m = k.
Proof.
  intros H Hk. assert (0 < m) by (pose proof (Z.pow_pos_nonneg 2 (k - 1)); lia).
  rewrite Zdigits2_log2 by done.
  rewrite (Z.log2_unique m (k - 1)); [lia | lia |].
  replace (Z.succ (k - 1)) with k by lia. done.
Qed.

Lemma Zdigits2_le_pow m k : 0 <= k -> 0 <= m < 2 ^ k -> Zdigits2 m <= k.
Proof.
  intros Hk [H0 H]. destruct (Z.eq_dec m 0) as [-> | Hm]; [simpl; lia |].
  destruct (Z_le_gt_dec (Zdigits2 m) k) as [| Hgt]; [done |].
  pose proof (Zdigits2_bounds m ltac:(lia)) as [Hl _].
  assert (2 ^ k <= 2 ^ (Zdigits2 m - 1)) by (apply Z.pow_le_mono_r; lia). lia.
Qed.

Lemma Zdigits2_ge_pow m k : 0 <= k -> 2 ^ k <= m -> k < Zdigits2 m.
Proof.
  intros Hk H. assert (0 < m) by (pose proof (Z.pow_pos_nonneg 2 k); lia).
  destruct (Z_lt_le_dec k (Zdigits2 m)) as [| Hle]; [done |].
  pose proof (Zdigits2_bounds m ltac:(lia)) as [_ Hu].
  assert (2 ^ Zdigits2 m <= 2 ^ k) by (apply Z.pow_le_mono_r; lia). lia.
Qed.

Lemma Zdigits2_mono a b : 0 <= a <= b -> Zdigits2 a <= Zdigits2 b.
Proof.
  intros [Ha Hab]. destruct (Z.eq_dec a 0) as [-> | Hn].
  - simpl. destruct b; simpl; lia.
  - rewrite !Zdigits2_log2 by lia. pose proof (Z.log2_le_mono a b Hab). lia.
Qed.

(** ** Truncation with a location *)

Lemma rec_of_loc m l : loc_of_shr_record (shr_record_of_loc m l) = l
                       /\ shr_m (shr_record_of_loc m l) = m.
Proof. destruct l as [| []]; done. Qed.

Lemma loc_ok_bounds m l x : loc_ok m l x -> (IZR m <= x < IZR m + 1)%R.
Proof. destruct l as [| []]; simpl; lra. Qed.

Lemma loc_ok_exact m l x : loc_ok m l x -> x = IZR m -> l = loc_Exact.
Proof. destruct l as [| []]; simpl; intros; [done | lra ..]. Qed.

Lemma shr_1_ok r x :
  0 <= shr_m r -> rec_ok r x ->
  rec_ok (shr_1 r) (x / 2) /\ shr_m (shr_1 r) = shr_m r / 2.
Proof.
  destruct r as [m rb sb]. unfold rec_ok. simpl. intros Hm H.
  destruct m as [| [p | p |] |]; try lia.
  - split; [| done]. destruct rb, sb; simpl in *; lra.
  - assert (E : IZR (Z.pos p~1) = (2 * IZR (Z.pos p) + 1)%R)
      by (rewrite Pos2Z.inj_xI, plus_IZR, mult_IZR; done).
    split; [| simpl; rewrite Pos2Z.inj_xI; apply Z.div_unique with 1; lia].
    destruct rb, sb; simpl in *; lra.
  - assert (E : IZR (Z.pos p~0) = (2 * IZR (Z.pos p))%R)
      by (rewrite Pos2Z.inj_xO, mult_IZR; done).
    split; [| simpl; rewrite Pos2Z.inj_xO; apply Z.div_unique with 0; lia].
    destruct rb, sb; simpl in *; lra.
  - split; [| done]. destruct rb, sb; simpl in *; lra.
Qed.

Lemma iter_pos_nat {A} (f : A -> A) p x :
  SpecFloat.iter_pos f p x = Nat.iter (Pos.to_nat p) f x.
Proof.
  revert x. induction p as [p IH | p IH |]; intros x; cbn [SpecFloat.iter_pos].
  - rewrite !IH, Pos2Nat.inj_xI, Nat.iter_succ_r.
    replace (2 * Pos.to_nat p)%nat with (Pos.to_nat p + Pos.to_nat p)%nat by lia.
    rewrite Nat.iter_add. done.
  - rewrite !IH, Pos2Nat.inj_xO.
    replace (2 * Pos.to_nat p)%nat with (Pos.to_nat p + Pos.to_nat p)%nat by lia.
    rewrite Nat.iter_add. done.
  - done.
Qed.

Lemma shr_iter_ok n : forall r x,
  0 <= shr_m r -> rec_ok r x ->
  rec_ok (Nat.iter n shr_1 r) (x * bpow (- Z.of_nat n)) /\
  shr_m (Nat.iter n shr_1 r) = shr_m r / 2 ^ Z.of_nat n.
Proof.
  induction n as [| n IH]; intros r x Hm H.
  - simpl. rewrite Rmult_1_r, Z.div_1_r. done.
  - rewrite Nat.iter_succ_r.
    destruct (shr_1_ok r x Hm H) as [H1 E1].
    destruct (IH (shr_1 r) (x / 2)%R) as [H2 E2].
    { rewrite E1. apply Z.div_pos; lia. }
    { done. }
    split.
    + replace (x * bpow (- Z.of_nat (S n)))%R
        with (x / 2 * bpow (- Z.of_nat n))%R; [done |].
      replace (- Z.of_nat (S n)) with (- Z.of_nat n + -1) by lia.
      rewrite bpow_add. replace (bpow (-1)) with (/ 2)%R by (unfold bpow; simpl; field). field.
    + rewrite E2, E1. rewrite Z.div_div by lia.
      replace (Z.of_nat (S n)) with (1 + Z.of_nat n) by lia.
      rewrite Z.pow_add_r by lia. done.
Qed.

Lemma shr_ok r e n x :
  0 <= shr_m r -> rec_ok r x -> 0 <= n ->
  snd (shr r e n) = e + n /\
  rec_ok (fst (shr r e n)) (x * bpow (- n)) /\
  shr_m (fst (shr r e n)) = shr_m r / 2 ^ n.
Proof.
  intros Hm H Hn. destruct n as [| p | p]; [| | lia].
  - simpl. rewrite Rmult_1_r, Z.div_1_r, Z.add_0_r. done.
  - unfold shr. cbn [fst snd]. rewrite iter_pos_nat.
    destruct (shr_iter_ok (Pos.to_nat p) r x Hm H) as [H1 H2].
    rewrite positive_nat_Z in H1, H2. done.
Qed.

(** ** Rounding to nearest, ties to even *)

Lemma RNE_cases m l : RNE m l = m \/ RNE m l = m + 1.
Proof. destruct l as [| []]; simpl; auto. destruct (Z.even m); auto. Qed.

Lemma RNE_hi m l y k : loc_ok m l y -> (y <= IZR k)%R -> RNE m l <= k.
Proof.
  intros H Hy. destruct l as [| c].
  - simpl in *. subst. by apply le_IZR.
  - assert (IZR m < IZR k)%R by (destruct c; simpl in H; lra).
    apply lt_IZR in H0. destruct (RNE_cases m (loc_Inexact c)); lia.
Qed.

Lemma RNE_lo m l y k : loc_ok m l y -> (IZR k <= y)%R -> k <= RNE m l.
Proof.
  intros H Hy. apply loc_ok_bounds in H.
  assert (IZR k < IZR (m + 1))%R by (rewrite plus_IZR; lra).
  apply lt_IZR in H0. destruct (RNE_cases m l); lia.
Qed.

Lemma shr_nonpos r e n : n <= 0 -> shr r e n = (r, e).
Proof. destruct n; [done | lia | done]. Qed.

Lemma emin_eq : emin prec emax = -1074.
Proof. reflexivity. Qed.

Lemma fexp_ge_emin e : -1074 <= fexp e.
Proof. rewrite fexp_eq. lia. Qed.

Lemma trunc_bounds mx ex :
  0 <= mx -> ex <= fexp (Zdigits2 mx + ex) ->
  0 <= mx / 2 ^ (fexp (Zdigits2 mx + ex) - ex) /\
  (fexp (Zdigits2 mx + ex) = -1074 /\
     mx / 2 ^ (fexp (Zdigits2 mx + ex) - ex) < 2 ^ 52 \/
   2 ^ 52 <= mx / 2 ^ (fexp (Zdigits2 mx + ex) - ex) < 2 ^ 53).
Proof.
  intros Hm HP.
  assert (Hp2 : 0 < 2 ^ (fexp (Zdigits2 mx + ex) - ex))
    by (apply Z.pow_pos_nonneg; lia).
  split; [apply Z.div_pos; lia |].
  destruct (Z.eq_dec mx 0) as [E0 | Hne].
  - left. subst mx. rewrite Z.div_0_l by lia.
    split; [| done]. simpl Zdigits2 in *.
    rewrite fexp_eq in *. lia.
  - pose proof (Zdigits2_bounds mx ltac:(lia)) as [Hlo Hhi].
    pose proof (Zdigits2_pos mx ltac:(lia)) as Hd.
    rewrite fexp_eq in *.
    destruct (Z_le_gt_dec (-1074) (Zdigits2 mx + ex - 53)) as [Hc | Hc].
    + right. rewrite Z.max_l in * by lia.
      replace (Zdigits2 mx + ex - 53 - ex) with (Zdigits2 mx - 53) in * by lia.
      split.
      * apply Z.div_le_lower_bound; [lia |].
        rewrite Z.mul_comm, <- Z.pow_add_r by lia.
        replace (52 + (Zdigits2 mx - 53)) with (Zdigits2 mx - 1) by lia. done.
      * apply Z.div_lt_upper_bound; [lia |].
        rewrite <- Z.pow_add_r by lia.
        replace (Zdigits2 mx - 53 + 53) with (Zdigits2 mx) by lia. done.
    + left. rewrite Z.max_r in * by lia. split; [done |].
      apply Z.div_lt_upper_bound; [lia |].
      rewrite <- Z.pow_add_r by lia.
      assert (2 ^ Zdigits2 mx <= 2 ^ (-1074 - ex + 52))
        by (apply Z.pow_le_mono_r; lia). lia.
Qed.

Lemma bra_structure sx mx ex lx x :
  0 <= mx -> ex <= fexp (Zdigits2 mx + ex) ->
  loc_ok mx lx (x * bpow (- ex)) ->
  let et := fexp (Zdigits2 mx + ex) in
  exists l',
    loc_ok (mx / 2 ^ (et - ex)) l' (x * bpow (- et)) /\
    let m1 := RNE (mx / 2 ^ (et - ex)) l' in
    binary_round_aux prec emax sx mx ex lx = bra_result sx m1 et /\
    0 <= m1 <= 2 ^ 53 /\
    (et = -1074 /\ m1 <= 2 ^ 52 \/ 2 ^ 52 <= m1).
Proof.
  intros Hm HP Hl et.
  unfold binary_round_aux, shr_fexp. fold et.
  destruct (rec_of_loc mx lx) as [El Em].
  destruct (shr_ok (shr_record_of_loc mx lx) ex (et - ex) (x * bpow (- ex)))
    as (He & Hr & Hsm).
  { by rewrite Em. } { unfold rec_ok. by rewrite El, Em. } { lia. }
  destruct (shr (shr_record_of_loc mx lx) ex (et - ex)) as [r' e'].
  cbn [fst snd] in *. rewrite Em in Hsm.
  replace e' with et by lia. clear He e'.
  set (l' := loc_of_shr_record r') in *.
  exists l'. unfold rec_ok in Hr. rewrite Hsm in *. fold l' in Hr.
  assert (Hx : (x * bpow (- ex) * bpow (- (et - ex)) = x * bpow (- et))%R).
  { rewrite Rmult_assoc, <- bpow_add. f_equal. f_equal. lia. }
  rewrite Hx in Hr. split; [done |].
  set (m' := mx / 2 ^ (et - ex)) in *.
  set (m1 := RNE m' l'). cbv zeta.
  assert (Hn : 0 <= et - ex) by lia.
  assert (Hp2 : 0 < 2 ^ (et - ex)) by (apply Z.pow_pos_nonneg; lia).
  pose proof (trunc_bounds mx ex Hm HP) as Hm'. fold et in Hm'. fold m' in Hm'.
  destruct Hm' as [Hm0 Hm'].
  assert (Hm1 : m1 = m' \/ m1 = m' + 1) by apply RNE_cases.
  assert (Het : -1074 <= et) by apply fexp_ge_emin.
  assert (P52 : 2 ^ 52 = 4503599627370496) by reflexivity.
  assert (P53 : 2 ^ 53 = 9007199254740992) by reflexivity.
  clearbody et m1.
  split; [| split; [lia | lia]].
  pose proof (rec_of_loc m1 loc_Exact) as [_ Em1].
  unfold bra_result.
  destruct (Z.eqb_spec m1 0) as [E0 | Hne0].
  { (* rounded to zero *)
    rewrite E0. simpl Zdigits2. rewrite Z.add_0_l.
    rewrite shr_nonpos by (rewrite fexp_eq; lia). done. }
  destruct (Z.ltb_spec m1 (2 ^ 53)) as [Hlt | Hge].
  { (* no carry out of the mantissa *)
    assert (Zdigits2 m1 <= 53) by (apply Zdigits2_le_pow; lia).
    rewrite shr_nonpos by (rewrite fexp_eq; lia).
    rewrite Em1. destruct m1 as [| p | p]; [lia | | lia].
    change (emax - prec) with 971. simpl Z.to_pos. done. }
  (* carry: the mantissa is [2 ^ 53] *)
  assert (E : m1 = 2 ^ 53) by lia. rewrite E.
  change (Zdigits2 (2 ^ 53)) with 54.
  replace (fexp (54 + et) - et) with 1 by (rewrite fexp_eq; lia).
  change (emax - prec) with 971. done.
Qed.

Lemma SF2R_mag x : SF2R x = if sign x then (- mag x)%R else mag x.
Proof.
  destruct x as [[]|[]| |[] m e]; simpl; try lra; unfold F2R.
  rewrite opp_IZR. ring.
Qed.

Lemma mag_nonneg x : (0 <= mag x)%R.
Proof.
  destruct x as [| | | s m e]; simpl; try lra. unfold F2R.
  pose proof (bpow_gt_0 e). assert (0 < IZR (Zpos m))%R by (apply IZR_lt; lia). nra.
Qed.

Lemma F2R_le m1 m2 e : m1 <= m2 -> (F2R m1 e <= F2R m2 e)%R.
Proof.
  intros H. unfold F2R. apply IZR_le in H. pose proof (bpow_gt_0 e). nra.
Qed.

Lemma F2R_bpow k e : 0 <= k -> F2R (2 ^ k) e = bpow (k + e).
Proof. intros H. unfold F2R. rewrite bpow_add, (bpow_IZR k) by done. done. Qed.

Lemma F2R_digits m e :
  0 < m -> (bpow (Zdigits2 m - 1 + e) <= F2R m e < bpow (Zdigits2 m + e))%R.
Proof.
  intros H. pose proof (Zdigits2_bounds m H) as [Hl Hu].
  pose proof (Zdigits2_pos m H).
  rewrite <- !F2R_bpow by lia. split.
  - by apply F2R_le.
  - unfold F2R. apply IZR_lt in Hu. pose proof (bpow_gt_0 e). nra.
Qed.

Lemma valid_finite s m e :
  valid (S754_finite s m e) ->
  fexp (Zdigits2 (Zpos m) + e) = e /\ e <= 971.
Proof.
  unfold valid. simpl. unfold bounded, canonical_mantissa.
  intros H. apply andb_prop in H as [H1 H2].
  apply Z.eqb_eq in H1. apply Z.leb_le in H2. done.
Qed.

Lemma bra_result_valid sx m1 et :
  0 <= m1 <= 2 ^ 53 -> -1074 <= et ->
  (et = -1074 /\ m1 <= 2 ^ 52 \/ 2 ^ 52 <= m1) ->
  valid (bra_result sx m1 et).
Proof.
  intros Hm Het Hc. unfold bra_result, valid.
  assert (P52 : 2 ^ 52 = 4503599627370496) by reflexivity.
  assert (P53 : 2 ^ 53 = 9007199254740992) by reflexivity.
  destruct (Z.eqb_spec m1 0); [done |].
  destruct (Z.ltb_spec m1 (2 ^ 53)).
  - destruct (Z.leb_spec et 971); [| done].
    simpl. unfold bounded, canonical_mantissa.
    apply andb_true_intro. split; [| by apply Z.leb_le].
    apply Z.eqb_eq. change (Z.pos (digits2_pos (Z.to_pos m1))) with (Zdigits2 (Z.pos (Z.to_pos m1))).
    rewrite Z2Pos.id by lia. rewrite fexp_eq.
    assert (Zdigits2 m1 <= 53) by (apply Zdigits2_le_pow; lia).
    destruct Hc as [[-> _] | Hc]; [lia |].
    assert (52 < Zdigits2 m1) by (apply Zdigits2_ge_pow; lia). lia.
  - destruct (Z.leb_spec (et + 1) 971); [| done].
    simpl. unfold bounded, canonical_mantissa.
    apply andb_true_intro. split; [| by apply Z.leb_le].
    apply Z.eqb_eq. change (Z.pos (digits2_pos 4503599627370496)) with 53.
    rewrite fexp_eq. lia.
Qed.

Lemma bra_result_cases sx m1 et :
  bra_result sx m1 et = S754_infinity sx \/
  is_finite (bra_result sx m1 et) = true /\ sign (bra_result sx m1 et) = sx.
Proof.
  unfold bra_result.
  destruct (m1 =? 0); [by right |].
  destruct (m1 <? 2 ^ 53).
  - destruct (et <=? 971); [by right | by left].
  - destruct (et + 1 <=? 971); [by right | by left].
Qed.

Lemma bra_result_mag sx m1 et :
  0 <= m1 <= 2 ^ 53 -> is_finite (bra_result sx m1 et) = true ->
  mag (bra_result sx m1 et) = F2R m1 et.
Proof.
  intros Hm. unfold bra_result.
  destruct (Z.eqb_spec m1 0) as [-> | Hne]; [intros _; unfold F2R; simpl; lra |].
  destruct (Z.ltb_spec m1 (2 ^ 53)).
  - destruct (et <=? 971); [| done]. intros _. simpl. rewrite Z2Pos.id by lia. done.
  - destruct (et + 1 <=? 971); [| done]. intros _. simpl.
    assert (m1 = 2 ^ 52 * 2 ^ 1) by (change (2 ^ 52 * 2 ^ 1) with (2 ^ 53); lia).
    subst m1. rewrite F2R_shift by lia. done.
Qed.

(** ** Correctness of [binary_round_aux]

    For a located non-negative real [x], given with enough digits
    ([ex <= fexp (Zdigits2 mx + ex)]), the result is a valid double of
    the requested sign that no representable bound separates from [x]. *)

Section RoundAux.
Variables (sx : bool) (mx ex : Z) (lx : location) (x : R).
Hypothesis Hmx : 0 <= mx.
Hypothesis Hex : ex <= fexp (Zdigits2 mx + ex).
Hypothesis Hlx : loc_ok mx lx (x * bpow (- ex)).

Local Abbreviation r := (binary_round_aux prec emax sx mx ex lx).

Lemma bra_valid : valid r.
Proof.
  destruct (bra_structure sx mx ex lx x Hmx Hex Hlx) as (l' & _ & E & H1 & H2).
  rewrite E. apply bra_result_valid; [done | apply fexp_ge_emin | done].
Qed.

Lemma bra_cases : r = S754_infinity sx \/ is_finite r = true /\ sign r = sx.
Proof.
  destruct (bra_structure sx mx ex lx x Hmx Hex Hlx) as (l' & _ & E & _).
  rewrite E. apply bra_result_cases.
Qed.

Lemma x_ge_mx : (F2R mx ex <= x)%R.
Proof.
  apply loc_ok_bounds in Hlx as [H _]. unfold F2R. by apply scale_le.
Qed.

Lemma bra_hi b :
  valid b -> is_finite b = true -> (x <= mag b)%R ->
  is_finite r = true /\ (mag r <= mag b)%R.
Proof.
  intros Hv Hf Hxb.
  destruct (bra_structure sx mx ex lx x Hmx Hex Hlx) as (l' & Hl' & E & Hm1 & Hc).
  set (et := fexp (Zdigits2 mx + ex)) in *.
  set (m1 := RNE (mx / 2 ^ (et - ex)) l') in *.
  assert (P53 : 2 ^ 53 = 9007199254740992) by reflexivity.
  assert (Hk : forall k, (mag b = F2R k et)%R -> is_finite r = true -> m1 <= k /\ (mag r <= mag b)%R).
  { intros k Ek Hfr. assert (m1 <= k).
    { apply (RNE_hi _ _ _ _ Hl'). unfold F2R in Ek.
      apply le_scale. lra. }
    split; [done |]. rewrite E in *. rewrite bra_result_mag by done.
    rewrite Ek. by apply F2R_le. }
  destruct b as [s | s | | s mb eb]; try done.
  - (* the bound is zero *)
    assert (Hfr : m1 <= 0 -> is_finite r = true).
    { intros. rewrite E. unfold bra_result.
      replace m1 with 0 by lia. done. }
    assert (m1 <= 0).
    { apply (RNE_hi _ _ _ _ Hl'). simpl in Hxb. apply le_scale. lra. }
    split; [auto |]. apply (Hk 0); [unfold F2R; simpl; lra | auto].
  - destruct (valid_finite _ _ _ Hv) as [Hcan He].
    pose proof (F2R_digits (Zpos mb) eb ltac:(lia)) as [_ Hub].
    assert (Het : et <= eb).
    { destruct (Z.eq_dec mx 0) as [E0 | Hne].
      - unfold et in *. rewrite E0 in *. simpl Zdigits2 in *.
        rewrite <- Hcan. rewrite !fexp_eq in *. lia.
      - pose proof (F2R_digits mx ex ltac:(lia)) as [Hlb _].
        pose proof x_ge_mx. simpl in Hxb.
        assert (Zdigits2 mx - 1 + ex < Zdigits2 (Zpos mb) + eb) by (apply bpow_lt_inv; lra).
        unfold et. rewrite <- Hcan. apply fexp_mono. lia. }
    assert (Ek : mag (S754_finite s mb eb) = F2R (Zpos mb * 2 ^ (eb - et)) et).
    { simpl. rewrite F2R_shift by lia. f_equal. lia. }
    assert (Hfr : is_finite r = true).
    { assert (Hy : m1 <= Zpos mb * 2 ^ (eb - et)).
      { apply (RNE_hi _ _ _ _ Hl'). rewrite Ek in Hxb. unfold F2R in Hxb.
        by apply le_scale. }
      rewrite E. unfold bra_result.
      destruct (Z.eqb_spec m1 0); [done |].
      destruct (Z.ltb_spec m1 (2 ^ 53)).
      - destruct (Z.leb_spec et 971); [done | lia].
      - destruct (Z.leb_spec (et + 1) 971); [done |].
        exfalso.
        assert (Zdigits2 (Zpos mb) <= 53) by (rewrite fexp_eq in Hcan; lia).
        pose proof (Zdigits2_bounds (Zpos mb) ltac:(lia)) as [_ Hmb].
        assert (2 ^ Zdigits2 (Z.pos mb) <= 2 ^ 53) by (apply Z.pow_le_mono_r; lia).
        assert (eb = et) by lia.
        replace (eb - et) with 0 in Hy by lia. simpl in Hy. lia. }
    split; [done |]. by apply (Hk _ Ek).
Qed.

Lemma bra_lo b :
  valid b -> is_finite b = true -> (mag b <= x)%R -> is_finite r = true ->
  (mag b <= mag r)%R.
Proof.
  intros Hv Hf Hxb Hfr.
  destruct (bra_structure sx mx ex lx x Hmx Hex Hlx) as (l' & Hl' & E & Hm1 & Hc).
  rewrite E in *. rewrite bra_result_mag by done.
  pose proof (trunc_bounds mx ex Hmx Hex) as [_ Htb].
  set (et := fexp (Zdigits2 mx + ex)) in *.
  set (m1 := RNE (mx / 2 ^ (et - ex)) l') in *.
  assert (P52 : 2 ^ 52 = 4503599627370496) by reflexivity.
  destruct b as [s | s | | s mb eb]; try done.
  - simpl. unfold F2R. pose proof (bpow_gt_0 et).
    assert (0 <= IZR m1)%R by (apply IZR_le; lia). nra.
  - destruct (valid_finite _ _ _ Hv) as [Hcan He].
    destruct (Z_le_gt_dec et eb) as [Hle | Hgt].
    + assert (Ek : mag (S754_finite s mb eb) = F2R (Zpos mb * 2 ^ (eb - et)) et).
      { simpl. rewrite F2R_shift by lia. f_equal. lia. }
      rewrite Ek. apply F2R_le.
      apply (RNE_lo _ _ _ _ Hl'). rewrite Ek in Hxb. unfold F2R in Hxb.
      by apply ge_scale.
    + pose proof (fexp_ge_emin (Zdigits2 (Z.pos mb) + eb)).
      assert (H52 : 2 ^ 52 <= m1).
      { destruct Htb as [[? _] | [? _]]; [lia |].
        pose proof (RNE_lo _ _ _ (mx / 2 ^ (et - ex)) Hl') as Hlo.
        fold m1 in Hlo. apply loc_ok_bounds in Hl'.
        assert (mx / 2 ^ (et - ex) <= m1) by (apply Hlo; lra). lia. }
      pose proof (F2R_digits (Zpos mb) eb ltac:(lia)) as [_ Hub].
      simpl. apply Rlt_le. eapply Rlt_le_trans; [apply Hub |].
      apply Rle_trans with (F2R (2 ^ 52) et); [| by apply F2R_le].
      rewrite F2R_bpow by lia. apply bpow_le.
      unfold et in *. rewrite fexp_eq in *. lia.
Qed.

End RoundAux.

(** ** Signed rounding

    [srounds r x]: the double [r] is valid and no pair of representable
    bounds around the real [x] separates [r] from [x]. *)

Lemma SF2R_pos_mag b : (0 < SF2R b)%R -> SF2R b = mag b.
Proof.
  rewrite SF2R_mag. pose proof (mag_nonneg b). destruct (sign b); [lra | done].
Qed.

Lemma SF2R_neg_mag b : (SF2R b < 0)%R -> SF2R b = (- mag b)%R.
Proof.
  rewrite SF2R_mag. pose proof (mag_nonneg b). destruct (sign b); [done | lra].
Qed.

(** From the magnitude bounds of [binary_round_aux] to signed rounding. *)
Lemma bra_srounds sx mx ex lx x :
  0 <= mx -> ex <= fexp (Zdigits2 mx + ex) ->
  loc_ok mx lx (x * bpow (- ex)) ->
  srounds (binary_round_aux prec emax sx mx ex lx) (if sx then - x else x)%R.
Proof.
  intros Hm He Hl. split; [by eapply bra_valid |].
  intros lo hi Vlo Vhi Flo Fhi [Hlo Hhi].
  pose proof (x_ge_mx mx ex lx x Hl) as Hx0.
  assert (0 <= x)%R.
  { eapply Rle_trans; [| apply Hx0]. unfold F2R.
    pose proof (bpow_gt_0 ex). assert (0 <= IZR mx)%R by (by apply IZR_le). nra. }
  set (r := binary_round_aux prec emax sx mx ex lx).
  pose proof (bra_cases sx mx ex lx x Hm He Hl) as Hc. fold r in Hc.
  pose proof (mag_nonneg r) as Hr0.
  pose proof (mag_nonneg lo). pose proof (mag_nonneg hi).
  destruct sx.
  - (* a non-positive real *)
    assert (Hb : (x <= mag lo)%R).
    { destruct (Rle_lt_dec 0 (SF2R lo)); [lra |].
      rewrite SF2R_neg_mag in Hlo by done. lra. }
    destruct (bra_hi true mx ex lx x Hm He Hl lo Vlo Flo Hb) as [Hf Hmag].
    fold r in Hf, Hmag. split; [done |].
    destruct Hc as [Hc | [_ Hs]]; [rewrite Hc in Hf; done |].
    rewrite (SF2R_mag r), Hs. split.
    + destruct (Rle_lt_dec 0 (SF2R lo)) as [Hp | Hn].
      * pose proof (SF2R_mag lo) as El. destruct (sign lo); lra.
      * rewrite SF2R_neg_mag by done. lra.
    + destruct (Rle_lt_dec 0 (SF2R hi)) as [| Hn]; [lra |].
      pose proof (SF2R_neg_mag hi Hn).
      assert (Hb' : (mag hi <= x)%R) by lra.
      pose proof (bra_lo true mx ex lx x Hm He Hl hi Vhi Fhi Hb' Hf) as Hlo'. fold r in Hlo'. lra.
  - (* a non-negative real *)
    assert (Hb : (x <= mag hi)%R).
    { destruct (Rle_lt_dec (SF2R hi) 0); [| rewrite SF2R_pos_mag in Hhi by done; done].
      lra. }
    destruct (bra_hi false mx ex lx x Hm He Hl hi Vhi Fhi Hb) as [Hf Hmag].
    fold r in Hf, Hmag. split; [done |].
    destruct Hc as [Hc | [_ Hs]]; [rewrite Hc in Hf; done |].
    rewrite (SF2R_mag r), Hs. split.
    + destruct (Rle_lt_dec (SF2R lo) 0) as [| Hn]; [lra |].
      pose proof (SF2R_pos_mag lo Hn).
      assert (Hb' : (mag lo <= x)%R) by lra.
      pose proof (bra_lo false mx ex lx x Hm He Hl lo Vlo Flo Hb' Hf) as Hlo'. fold r in Hlo'. lra.
    + destruct (Rle_lt_dec (SF2R hi) 0) as [Hp | Hn].
      * pose proof (SF2R_mag hi) as El. destruct (sign hi); lra.
      * rewrite SF2R_pos_mag by done. lra.
Qed.

(** ** Rounding an exact dyadic number: [binary_round], [binary_normalize] *)

Lemma pos_iter_xO mx d : Zpos (Pos.iter xO mx d) = Zpos mx * 2 ^ Zpos d.
Proof.
  apply (Pos.iter_ind _ xO mx (fun p a => Zpos a = Zpos mx * 2 ^ Zpos p)).
  - rewrite Pos2Z.inj_xO. lia.
  - intros p a IH. rewrite Pos2Z.inj_xO, IH, Pos2Z.inj_succ, Z.pow_succ_r by lia. lia.
Qed.

Lemma Zdigits2_shift m k : 0 < m -> 0 <= k -> Zdigits2 (m * 2 ^ k) = Zdigits2 m + k.
Proof.
  intros Hm Hk. pose proof (Zdigits2_bounds m Hm) as [Hl Hu].
  pose proof (Zdigits2_pos m Hm).
  assert (0 < 2 ^ k) by (apply Z.pow_pos_nonneg; lia).
  apply Zdigits2_unique; [| lia].
  replace (Zdigits2 m + k - 1) with (Zdigits2 m - 1 + k) by lia.
  rewrite !Z.pow_add_r by lia. nia.
Qed.

Lemma srounds_zero s : srounds (S754_zero s) 0.
Proof. split; [done |]. intros. simpl. split; [done | lra]. Qed.

Lemma F2R_opp m e : F2R (- m) e = (- F2R m e)%R.
Proof. unfold F2R. rewrite opp_IZR. ring. Qed.

Lemma F2R_cond_Zopp sx m e :
  F2R (cond_Zopp sx m) e = if sx then (- F2R m e)%R else F2R m e.
Proof. destruct sx; simpl; [apply F2R_opp | done]. Qed.

Lemma binary_round_srounds sx mx ex :
  srounds (binary_round prec emax sx mx ex) (F2R (cond_Zopp sx (Zpos mx)) ex).
Proof.
  unfold binary_round.
  change (Z.pos (digits2_pos mx)) with (Zdigits2 (Zpos mx)).
  set (et := SpecFloat.fexp prec emax (Zdigits2 (Z.pos mx) + ex)).
  assert (H : exists mz ez, shl_align mx ex et = (mz, ez) /\
            F2R (Zpos mz) ez = F2R (Zpos mx) ex /\
            ez <= fexp (Zdigits2 (Zpos mz) + ez)).
  { unfold shl_align. destruct (et - ex) as [| p | p] eqn:E.
    - exists mx, ex. split_and!; [done | done | fold et; lia].
    - exists mx, ex. split_and!; [done | done | fold et; lia].
    - exists (Pos.iter xO mx p), et.
      assert (Es : Zpos (Pos.iter xO mx p) = Zpos mx * 2 ^ (ex - et))
        by (rewrite pos_iter_xO; f_equal; f_equal; lia).
      split_and!; [done | |].
      + rewrite Es, F2R_shift by lia. f_equal. lia.
      + rewrite Es, Zdigits2_shift by lia.
        replace (Zdigits2 (Z.pos mx) + (ex - et) + et) with (Zdigits2 (Z.pos mx) + ex) by lia.
        fold et. lia. }
  destruct H as (mz & ez & -> & Ev & Hp).
  rewrite F2R_cond_Zopp, <- Ev.
  apply bra_srounds; [lia | done |].
  simpl. unfold F2R. rewrite Rmult_assoc, <- bpow_add, Z.add_opp_diag_r, bpow_0. ring.
Qed.

Lemma binary_normalize_srounds m e sz :
  srounds (binary_normalize prec emax m e sz) (F2R m e).
Proof.
  destruct m as [| p | p]; simpl.
  - replace (F2R 0 e) with 0%R by (unfold F2R; simpl; ring). apply srounds_zero.
  - apply (binary_round_srounds false).
  - apply (binary_round_srounds true).
Qed.

(** A real that is itself a double rounds to that value. *)
Lemma srounds_exact r b :
  srounds r (SF2R b) -> valid b -> is_finite b = true ->
  is_finite r = true /\ SF2R r = SF2R b.
Proof.
  intros [_ H] Vb Fb. destruct (H b b Vb Vb Fb Fb ltac:(lra)) as [Hf Hr].
  split; [done | lra].
Qed.

Lemma srounds_self b : valid b -> is_finite b = true -> srounds b (SF2R b).
Proof. intros V F. split; [done |]. intros. split; [done | lra]. Qed.

(** ** Addition *)

Lemma shl_align_le mx ex ez :
  ez <= ex -> F2R (Zpos (fst (shl_align mx ex ez))) ez = F2R (Zpos mx) ex.
Proof.
  intros H. unfold shl_align. destruct (ez - ex) as [| p | p] eqn:E; simpl.
  - f_equal. lia.
  - lia.
  - rewrite pos_iter_xO.
    replace (Zpos p) with (ex - ez) by lia.
    rewrite F2R_shift by lia. f_equal. lia.
Qed.

Lemma F2R_add a b e : F2R (a + b) e = (F2R a e + F2R b e)%R.
Proof. unfold F2R. rewrite plus_IZR. ring. Qed.

Lemma SF2R_finite s m e : SF2R (S754_finite s m e) = F2R (cond_Zopp s (Zpos m)) e.
Proof. done. Qed.

Lemma fadd_srounds x y :
  valid x -> valid y -> is_finite x = true -> is_finite y = true ->
  srounds (fadd x y) (SF2R x + SF2R y).
Proof.
  intros Vx Vy Fx Fy.
  destruct x as [sx | sx | | sx mx ex], y as [sy | sy | | sy my ey]; try done.
  - replace (SF2R (S754_zero sx) + SF2R (S754_zero sy))%R with 0%R by (simpl; ring).
    simpl. destruct sx, sy; apply srounds_zero.
  - replace (SF2R (S754_zero sx) + SF2R (S754_finite sy my ey))%R
      with (SF2R (S754_finite sy my ey)) by (simpl; ring).
    by apply srounds_self.
  - replace (SF2R (S754_finite sx mx ex) + SF2R (S754_zero sy))%R
      with (SF2R (S754_finite sx mx ex)) by (simpl; ring).
    by apply srounds_self.
  - cbn [SFadd]. rewrite !SF2R_finite.
    rewrite !(F2R_cond_Zopp _ (Zpos _)).
    rewrite <- (shl_align_le mx ex (Z.min ex ey)) by lia.
    rewrite <- (shl_align_le my ey (Z.min ex ey)) by lia.
    rewrite <- !F2R_cond_Zopp, <- F2R_add.
    apply binary_normalize_srounds.
Qed.

Lemma srounds_valid r x : srounds r x -> valid r.
Proof. by intros [H _]. Qed.

Lemma fadd_valid x y : valid x -> valid y -> valid (fadd x y).
Proof.
  intros Vx Vy.
  destruct (is_finite x) eqn:Fx, (is_finite y) eqn:Fy.
  - eapply srounds_valid. by apply fadd_srounds.
  - destruct x as [| | |], y as [[] | [] | |]; done.
  - destruct x as [[] | [] | |], y as [[] | [] | | []]; done.
  - destruct x as [[] | [] | |], y as [[] | [] | |]; done.
Qed.

(** ** Integers as doubles *)

Lemma F2R_0 m : F2R m 0 = IZR m.
Proof. unfold F2R. rewrite bpow_0. ring. Qed.

Lemma float_of_int_srounds z : srounds (binary_normalize prec emax z 0 false) (IZR z).
Proof. rewrite <- F2R_0. apply binary_normalize_srounds. Qed.

Lemma small_int_ok z :
  Z.abs z <= 2 ^ 53 ->
  valid (small_int z) /\ is_finite (small_int z) = true /\
  SF2R (small_int z) = IZR z.
Proof.
  intros Hz. unfold small_int.
  assert (P53 : 2 ^ 53 = 9007199254740992) by reflexivity.
  destruct (Z.eqb_spec z 0) as [-> | Hne]; [done |].
  assert (Hs : cond_Zopp (z <? 0) (Z.abs z) = z).
  { destruct (Z.ltb_spec z 0); simpl; lia. }
  destruct (Z.ltb_spec (Z.abs z) (2 ^ 53)) as [Hlt | Hge].
  - set (a := Z.abs z) in *. assert (Ha : 0 < a) by lia.
    pose proof (Zdigits2_pos a Ha) as Hd.
    assert (Hd53 : Zdigits2 a <= 53) by (apply Zdigits2_le_pow; lia).
    assert (0 < 2 ^ (53 - Zdigits2 a)) by (apply Z.pow_pos_nonneg; lia).
    assert (Hpos : 0 < a * 2 ^ (53 - Zdigits2 a)) by nia.
    split_and!; [| done |].
    + unfold valid. simpl. unfold bounded, canonical_mantissa.
      apply andb_true_intro. split; [| apply Z.leb_le; change (emax - prec) with 971; lia].
      apply Z.eqb_eq.
      change (Z.pos (digits2_pos ?p)) with (Zdigits2 (Z.pos p)).
      rewrite Z2Pos.id by done. rewrite Zdigits2_shift by lia.
      rewrite fexp_eq. lia.
    + rewrite SF2R_finite, Z2Pos.id by done.
      rewrite F2R_cond_Zopp.
      rewrite F2R_shift by lia.
      replace (Zdigits2 a - 53 + (53 - Zdigits2 a)) with 0 by lia.
      rewrite F2R_0. unfold a.
      destruct (Z.ltb_spec z 0);
        [rewrite Z.abs_neq, opp_IZR by lia; lra | rewrite Z.abs_eq by lia; done].
  - assert (Ea : Z.abs z = 2 ^ 53) by lia.
    split_and!; [done | done |].
    rewrite SF2R_finite, F2R_cond_Zopp.
    assert (Ev : F2R 4503599627370496 1 = IZR (Z.abs z)).
    { rewrite Ea. change 1 with (0 + 1).
      rewrite <- (F2R_shift 4503599627370496 0 1), F2R_0 by lia. done. }
    rewrite Ev.
    destruct (Z.ltb_spec z 0);
      [rewrite Z.abs_neq, opp_IZR by lia; lra | rewrite Z.abs_eq by lia; done].
Qed.

Lemma float_of_int_finite z :
  is_finite (binary_normalize prec emax z 0 false) = true ->
  float_of_int z = Ok (binary_normalize prec emax z 0 false).
Proof. unfold float_of_int. by destruct (binary_normalize prec emax z 0 false). Qed.

Lemma float_of_int_Ok z f :
  float_of_int z = Ok f -> f = binary_normalize prec emax z 0 false.
Proof.
  unfold float_of_int. destruct (binary_normalize prec emax z 0 false); congruence.
Qed.

(** Between two representable bounds, [float(z)] is defined and within the
    bounds. *)
Lemma float_of_int_between z lo hi :
  valid lo -> valid hi -> is_finite lo = true -> is_finite hi = true ->
  (SF2R lo <= IZR z <= SF2R hi)%R ->
  exists f, float_of_int z = Ok f /\ valid f /\ is_finite f = true /\
            (SF2R lo <= SF2R f <= SF2R hi)%R.
Proof.
  intros Vlo Vhi Flo Fhi H.
  destruct (float_of_int_srounds z) as [V S].
  destruct (S lo hi Vlo Vhi Flo Fhi H) as [F B].
  eexists. split; [by apply float_of_int_finite | done].
Qed.

Lemma float_of_int_exact z :
  Z.abs z <= 2 ^ 53 ->
  exists f, float_of_int z = Ok f /\ valid f /\ is_finite f = true /\
            SF2R f = IZR z.
Proof.
  intros Hz. destruct (small_int_ok z Hz) as (V & F & E).
  destruct (float_of_int_between z (small_int z) (small_int z)) as (f & ? & ? & ? & ?);
    try done; [lra |].
  exists f. split_and!; try done. lra.
Qed.

(** ** Multiplication by [1.0] *)

Lemma fmul_one x : valid x -> fmul x fone = x.
Proof.
  intros V. destruct x as [[] | [] | | sx mx ex]; try done.
  destruct (valid_finite _ _ _ V) as [Hcan He].
  cbn [SFmul fone].
  assert (Em : Zpos (mx * 4503599627370496) = Zpos mx * 2 ^ 52) by done.
  rewrite Em.
  assert (Hd : Zdigits2 (Zpos mx * 2 ^ 52) = Zdigits2 (Zpos mx) + 52)
    by (apply Zdigits2_shift; lia).
  assert (Hf : fexp (Zdigits2 (Zpos mx * 2 ^ 52) + (ex + -52)) = ex).
  { rewrite Hd. rewrite <- Hcan at 2. f_equal. lia. }
  destruct (bra_structure (xorb sx false) (Zpos mx * 2 ^ 52) (ex + -52) loc_Exact
              (F2R (Zpos mx) ex)) as (l' & Hl' & E & Hm & _).
  { lia. } { lia. }
  { simpl. unfold F2R. rewrite mult_IZR, <- (bpow_IZR 52) by lia.
    rewrite Rmult_assoc, <- bpow_add. do 2 f_equal. lia. }
  rewrite Hf in *. rewrite E.
  replace (ex - (ex + -52)) with 52 in * by lia.
  rewrite Z.div_mul in * by lia.
  assert (l' = loc_Exact).
  { eapply loc_ok_exact; [apply Hl' |]. unfold F2R.
    rewrite Rmult_assoc, <- bpow_add, Z.add_opp_diag_r, bpow_0. ring. }
  subst l'. simpl RNE. unfold bra_result.
  assert (Zdigits2 (Zpos mx) <= 53) by (rewrite fexp_eq in Hcan; lia).
  pose proof (Zdigits2_bounds (Zpos mx) ltac:(lia)) as [_ Hu].
  assert (2 ^ Zdigits2 (Z.pos mx) <= 2 ^ 53) by (apply Z.pow_le_mono_r; lia).
  destruct (Z.eqb_spec (Zpos mx) 0); [lia |].
  destruct (Z.ltb_spec (Zpos mx) (2 ^ 53)); [| lia].
  destruct (Z.leb_spec ex 971); [| lia].
  by destruct sx.
Qed.

(** ** Division *)

Lemma new_location_ok n k q :
  0 < n -> 0 <= k < n ->
  loc_ok q (new_location n k) (IZR q + IZR k / IZR n).
Proof.
  intros Hn [Hk0 Hkn].
  assert (Hn' : (0 < IZR n)%R) by (by apply IZR_lt).
  set (t := (IZR k / IZR n)%R).
  assert (Et : (t * IZR n = IZR k)%R) by (unfold t; field; lra).
  assert (Hlt : 2 * k < n -> (t < / 2)%R).
  { intros H. apply IZR_lt in H. rewrite mult_IZR in H. nra. }
  assert (Hgt : n < 2 * k -> (/ 2 < t)%R).
  { intros H. apply IZR_lt in H. rewrite mult_IZR in H. nra. }
  assert (Heq : 2 * k = n -> (t = / 2)%R).
  { intros H. apply (f_equal IZR) in H. rewrite mult_IZR in H. nra. }
  assert (Ht1 : (t < 1)%R).
  { apply IZR_lt in Hkn. nra. }
  assert (Ht0 : 0 < k -> (0 < t)%R).
  { intros H. apply IZR_lt in H. nra. }
  unfold new_location, new_location_even, new_location_odd.
  destruct (Z.even n) eqn:Ev.
  - destruct (Z.eqb_spec k 0) as [-> | Hne].
    + simpl. unfold t. field. lra.
    + destruct (Z.compare_spec (2 * k) n) as [E | L | G]; simpl.
      * rewrite Heq by done. done.
      * split; [pose proof (Ht0 ltac:(lia)); lra | pose proof (Hlt L); lra].
      * split; [pose proof (Hgt G); lra | lra].
  - destruct (Z.eqb_spec k 0) as [-> | Hne].
    + simpl. unfold t. field. lra.
    + assert (Hodd : 2 * k <> n).
      { intros <-. rewrite Z.even_mul in Ev. done. }
      destruct (Z.compare_spec (2 * k + 1) n) as [E | L | G]; simpl.
      * split; [pose proof (Ht0 ltac:(lia)); lra | pose proof (Hlt ltac:(lia)); lra].
      * split; [pose proof (Ht0 ltac:(lia)); lra | pose proof (Hlt ltac:(lia)); lra].
      * split; [pose proof (Hgt ltac:(lia)); lra | lra].
Qed.

Lemma div_core_ok m1 e1 m2 e2 :
  0 < m1 -> 0 < m2 ->
  let '(q, e', l) := SFdiv_core_binary prec emax m1 e1 m2 e2 in
  0 <= q /\ e' <= fexp (Zdigits2 q + e') /\
  loc_ok q l (F2R m1 e1 / F2R m2 e2 * bpow (- e')).
Proof.
  intros H1 H2. unfold SFdiv_core_binary.
  set (d1 := Zdigits2 m1). set (d2 := Zdigits2 m2).
  set (e' := Z.min (SpecFloat.fexp prec emax (d1 + e1 - (d2 + e2))) (e1 - e2)).
  set (s := e1 - e2 - e').
  assert (Hs : 0 <= s) by (unfold s, e'; lia).
  set (m' := match s with Z.pos _ => Z.shiftl m1 s | 0 => m1 | Z.neg _ => 0 end).
  assert (Em' : m' = m1 * 2 ^ s).
  { unfold m'. destruct s as [| p | p]; [lia | | lia].
    by rewrite Z.shiftl_mul_pow2. }
  pose proof (Z_div_mod m' m2 ltac:(lia)) as Hdm.
  destruct (Z.div_eucl m' m2) as [q r]. destruct Hdm as [Eq Hr].
  assert (Hp : 0 < 2 ^ s) by (apply Z.pow_pos_nonneg; lia).
  assert (Hq : 0 <= q) by nia.
  split; [done |]. split.
  - (* enough digits for the rounding *)
    assert (Hd : d1 + s - d2 <= Zdigits2 q).
    { destruct (Z_le_gt_dec (d1 + s - d2) 0) as [Hle | Hgt].
      - destruct q; simpl; lia.
      - assert (d1 + s - d2 - 1 < Zdigits2 q); [| lia].
        apply Zdigits2_ge_pow; [lia |].
        pose proof (Zdigits2_bounds m1 H1) as [Hl1 _].
        pose proof (Zdigits2_bounds m2 H2) as [_ Hu2].
        pose proof (Zdigits2_pos m1 H1). pose proof (Zdigits2_pos m2 H2).
        fold d1 in Hl1, H. fold d2 in Hu2, H0.
        assert (E1 : 2 ^ (d1 + s - d2 - 1) * 2 ^ d2 = 2 ^ (d1 - 1) * 2 ^ s).
        { rewrite <- !Z.pow_add_r by lia. f_equal. lia. }
        assert (0 < 2 ^ (d1 + s - d2 - 1)) by (apply Z.pow_pos_nonneg; lia).
        nia. }
    eapply Z.le_trans; [apply Z.le_min_l |]. fold e'.
    apply fexp_mono. unfold s in Hd. lia.
  - replace (F2R m1 e1 / F2R m2 e2 * bpow (- e'))%R
      with (IZR q + IZR r / IZR m2)%R.
    { apply new_location_ok; lia. }
    assert (IZR m2 <> 0)%R by (apply not_0_IZR; lia).
    assert (bpow e2 <> 0)%R by (pose proof (bpow_gt_0 e2); lra).
    assert (Ev : (IZR m1 * bpow s = IZR m2 * IZR q + IZR r)%R).
    { rewrite bpow_IZR by done. rewrite <- !mult_IZR, <- plus_IZR. f_equal. lia. }
    unfold F2R.
    replace e1 with (s + e2 + e') by (unfold s; lia).
    rewrite !bpow_add, bpow_opp.
    pose proof (bpow_gt_0 e'). field_simplify; [| lra | lra].
    rewrite Ev. field. lra.
Qed.

Lemma F2R_pos m e : 0 < m -> (0 < F2R m e)%R.
Proof.
  intros H. unfold F2R. apply IZR_lt in H. pose proof (bpow_gt_0 e). nra.
Qed.

Lemma fdiv_srounds x sy my ey :
  is_finite x = true ->
  srounds (fdiv x (S754_finite sy my ey)) (SF2R x / SF2R (S754_finite sy my ey)).
Proof.
  intros Fx. destruct x as [sx | sx | | sx mx ex]; try done.
  - replace (SF2R (S754_zero sx) / _)%R with 0%R by (simpl; unfold Rdiv; ring).
    apply srounds_zero.
  - cbn [SFdiv].
    pose proof (div_core_ok (Zpos mx) ex (Zpos my) ey ltac:(lia) ltac:(lia)) as H.
    destruct (SFdiv_core_binary prec emax (Z.pos mx) ex (Z.pos my) ey) as [[mz ez] lz].
    destruct H as (Hq & He & Hl).
    pose proof (bra_srounds (xorb sx sy) mz ez lz _ Hq He Hl) as S.
    replace (SF2R (S754_finite sx mx ex) / SF2R (S754_finite sy my ey))%R
      with (if xorb sx sy then (- (F2R (Z.pos mx) ex / F2R (Z.pos my) ey))%R
            else (F2R (Z.pos mx) ex / F2R (Z.pos my) ey)%R); [done |].
    rewrite !SF2R_finite, !F2R_cond_Zopp.
    pose proof (F2R_pos (Zpos my) ey ltac:(lia)).
    destruct sx, sy; simpl; field; lra.
Qed.

(** ** Comparison *)

Lemma canonical_lt m1 e1 m2 e2 s1 s2 :
  valid (S754_finite s1 m1 e1) -> valid (S754_finite s2 m2 e2) ->
  e1 < e2 -> (F2R (Zpos m1) e1 < F2R (Zpos m2) e2)%R.
Proof.
  intros V1 V2 H.
  destruct (valid_finite _ _ _ V1) as [C1 _].
  destruct (valid_finite _ _ _ V2) as [C2 _].
  pose proof (F2R_digits (Zpos m1) e1 ltac:(lia)) as [_ Hu].
  pose proof (F2R_digits (Zpos m2) e2 ltac:(lia)) as [Hl _].
  eapply Rlt_le_trans; [apply Hu |]. eapply Rle_trans; [| apply Hl].
  apply bpow_le. rewrite fexp_eq in *. lia.
Qed.

Lemma F2R_lt m1 m2 e : m1 < m2 -> (F2R m1 e < F2R m2 e)%R.
Proof.
  intros H. unfold F2R. apply IZR_lt in H. pose proof (bpow_gt_0 e). nra.
Qed.

Lemma canonical_compare m1 e1 m2 e2 s1 s2 :
  valid (S754_finite s1 m1 e1) -> valid (S754_finite s2 m2 e2) ->
  match (match e1 ?= e2 with
         | Lt => Lt | Gt => Gt | Eq => Pos.compare_cont Eq m1 m2
         end) with
  | Lt => (F2R (Zpos m1) e1 < F2R (Zpos m2) e2)%R
  | Eq => F2R (Zpos m1) e1 = F2R (Zpos m2) e2
  | Gt => (F2R (Zpos m2) e2 < F2R (Zpos m1) e1)%R
  end.
Proof.
  intros V1 V2. destruct (Z.compare_spec e1 e2) as [-> | L | G].
  - change (Pos.compare_cont Eq m1 m2) with (Pos.compare m1 m2).
    destruct (Pos.compare_spec m1 m2) as [-> | L | G]; [done | |];
      apply F2R_lt; lia.
  - by eapply canonical_lt.
  - by eapply canonical_lt.
Qed.

(** On finite doubles [SFcompare] is the comparison of the values. *)
Lemma SFcompare_spec f1 f2 :
  valid f1 -> valid f2 -> is_finite f1 = true -> is_finite f2 = true ->
  match SFcompare f1 f2 with
  | Some Lt => (SF2R f1 < SF2R f2)%R
  | Some Eq => SF2R f1 = SF2R f2
  | Some Gt => (SF2R f2 < SF2R f1)%R
  | None => False
  end.
Proof.
  intros V1 V2 F1 F2.
  destruct f1 as [s1 | | | s1 m1 e1], f2 as [s2 | | | s2 m2 e2]; try done.
  - simpl. pose proof (F2R_pos (Zpos m2) e2 ltac:(lia)).
    destruct s2; simpl; [rewrite F2R_opp |]; lra.
  - simpl. pose proof (F2R_pos (Zpos m1) e1 ltac:(lia)).
    destruct s1; simpl; [rewrite F2R_opp |]; lra.
  - pose proof (canonical_compare m1 e1 m2 e2 s1 s2 V1 V2) as H.
    pose proof (F2R_pos (Zpos m1) e1 ltac:(lia)).
    pose proof (F2R_pos (Zpos m2) e2 ltac:(lia)).
    rewrite !SF2R_finite, !F2R_cond_Zopp. cbn [SFcompare].
    destruct s1, s2; try lra.
    + destruct (e1 ?= e2); [destruct (Pos.compare_cont Eq m1 m2) | |]; simpl; lra.
    + destruct (e1 ?= e2); [destruct (Pos.compare_cont Eq m1 m2) | |]; simpl; lra.
Qed.

Lemma SFleb_true f1 f2 :
  valid f1 -> valid f2 -> is_finite f1 = true -> is_finite f2 = true ->
  (SF2R f1 <= SF2R f2)%R -> SFleb f1 f2 = true.
Proof.
  intros V1 V2 F1 F2 H. pose proof (SFcompare_spec f1 f2 V1 V2 F1 F2) as S.
  unfold SFleb. destruct (SFcompare f1 f2) as [[] |]; try done. lra.
Qed.

Lemma SFleb_inv f1 f2 :
  valid f1 -> valid f2 -> is_finite f1 = true -> is_finite f2 = true ->
  SFleb f1 f2 = true -> (SF2R f1 <= SF2R f2)%R.
Proof.
  intros V1 V2 F1 F2 H. pose proof (SFcompare_spec f1 f2 V1 V2 F1 F2) as S.
  unfold SFleb in H. destruct (SFcompare f1 f2) as [[] |]; try done; lra.
Qed.

Lemma SFltb_inv f1 f2 :
  valid f1 -> valid f2 -> is_finite f1 = true -> is_finite f2 = true ->
  SFltb f1 f2 = true -> (SF2R f1 < SF2R f2)%R.
Proof.
  intros V1 V2 F1 F2 H. pose proof (SFcompare_spec f1 f2 V1 V2 F1 F2) as S.
  unfold SFltb in H. destruct (SFcompare f1 f2) as [[] |]; try done; lra.
Qed.

(** * The lexicon loader *)

Section LoaderFacts.
Variable pyfloat : pystr -> option float.

Lemma bind_Ok {A B} (r : result A) (k : A -> result B) b :
  r ≫= k = Ok b -> exists a, r = Ok a /\ k a = Ok b.
Proof. destruct r; simpl; [eauto | discriminate]. Qed.

Lemma of_option_Ok {A} e (o : option A) a : of_option e o = Ok a -> o = Some a.
Proof. destruct o; simpl; congruence. Qed.

Lemma load_line_header line self :
  split comma line !! 0%nat = Some (str "word") ->
  load_line pyfloat line self = Ok self.
Proof.
  intros H. unfold load_line, index. rewrite H. done.
Qed.

Lemma load_line_record line self w p s :
  record pyfloat line w p s ->
  load_line pyfloat line self = Ok (store w p s self).
Proof.
  intros (f1 & f2 & H0 & Hw & H1 & Hp & H2 & Hs).
  unfold load_line, index. rewrite H0. simpl.
  case_decide; [congruence |].
  rewrite H1. simpl. rewrite Hp. simpl. rewrite H2. simpl. rewrite Hs. simpl.
  unfold store. destruct (1 <? length w)%nat; [| done].
  simpl. destruct (SFltb fzero p); [done |]. destruct (SFltb p fzero); done.
Qed.

Lemma load_line_Ok line self self' :
  load_line pyfloat line self = Ok self' ->
  (split comma line !! 0%nat = Some (str "word") /\ self' = self) \/
  exists w p s, record pyfloat line w p s /\ self' = store w p s self.
Proof.
  intros H. pose proof H as H'. unfold load_line in H.
  apply bind_Ok in H as (w & H0 & H). apply of_option_Ok in H0.
  destruct (decide (w = str "word")) as [-> | Hw].
  - left. split; [done | congruence].
  - right.
    apply bind_Ok in H as (f1 & H1 & H). apply of_option_Ok in H1.
    apply bind_Ok in H as (p & Hp & H). apply of_option_Ok in Hp.
    apply bind_Ok in H as (f2 & H2 & H). apply of_option_Ok in H2.
    apply bind_Ok in H as (s & Hs & _). apply of_option_Ok in Hs.
    exists w, p, s.
    assert (Hr : record pyfloat line w p s) by (exists f1, f2; done).
    split; [done |].
    rewrite (load_line_record _ self _ _ _ Hr) in H'. congruence.
Qed.

Lemma record_fun line w p s w' p' s' :
  record pyfloat line w p s -> record pyfloat line w' p' s' ->
  w' = w /\ p' = p /\ s' = s.
Proof.
  intros (f1 & f2 & H0 & _ & H1 & Hp & H2 & Hs)
         (g1 & g2 & G0 & _ & G1 & Gp & G2 & Gs).
  assert (w' = w) by congruence. assert (g1 = f1) by congruence.
  assert (g2 = f2) by congruence. subst. split_and!; congruence.
Qed.

Lemma load_lines_app f1 f2 self :
  load_lines pyfloat (f1 ++ f2) self =
  load_lines pyfloat f1 self ≫= load_lines pyfloat f2.
Proof.
  revert self. induction f1 as [| l f1 IH]; intros self; simpl; [done |].
  destruct (load_line pyfloat l self); simpl; [apply IH | done].
Qed.

Lemma gt0_lt0 p : SFltb fzero p = true -> SFltb p fzero = false.
Proof. destruct p as [[]|[]| |[] m e]; simpl; done. Qed.

Lemma store_short w p s self : (length w <= 1)%nat -> store w p s self = self.
Proof.
  intros H. unfold store.
  destruct (1 <? length w)%nat eqn:E; [| done].
  apply Nat.ltb_lt in E. lia.
Qed.

Lemma store_pos w p s self w' :
  _posdict (store w p s self) !! w' =
  if decide (w' = w /\ (1 < length w)%nat /\ SFltb fzero p = true)
  then Some 1 else _posdict self !! w'.
Proof.
  unfold store. destruct (1 <? length w)%nat eqn:E; simpl.
  - apply Nat.ltb_lt in E. destruct (SFltb fzero p) eqn:Ep.
    + destruct (decide (w' = w)) as [-> | Hne].
      * rewrite lookup_insert_eq. rewrite decide_True; done.
      * rewrite lookup_insert_ne by done. rewrite decide_False; [done | tauto].
    + rewrite decide_False; [done | ]. intros (_ & _ & ?). done.
  - apply Nat.ltb_ge in E. rewrite decide_False; [done | lia].
Qed.

Lemma store_neg w p s self w' :
  _negdict (store w p s self) !! w' =
  if decide (w' = w /\ (1 < length w)%nat /\ SFltb p fzero = true)
  then Some (-1) else _negdict self !! w'.
Proof.
  unfold store. destruct (1 <? length w)%nat eqn:E; simpl.
  - apply Nat.ltb_lt in E. destruct (SFltb fzero p) eqn:Ep.
    + rewrite (gt0_lt0 _ Ep). rewrite decide_False; [done |].
      intros (_ & _ & ?). done.
    + destruct (SFltb p fzero) eqn:En.
      * destruct (decide (w' = w)) as [-> | Hne].
        -- rewrite lookup_insert_eq. rewrite decide_True; done.
        -- rewrite lookup_insert_ne by done. rewrite decide_False; [done | tauto].
      * rewrite decide_False; [done | ]. intros (_ & _ & ?). done.
  - apply Nat.ltb_ge in E. rewrite decide_False; [done | lia].
Qed.

Lemma store_pol w p s self w' :
  _poldict (store w p s self) !! w' =
  if decide (w' = w /\ (1 < length w)%nat)
  then Some s else _poldict self !! w'.
Proof.
  unfold store. destruct (1 <? length w)%nat eqn:E; simpl.
  - apply Nat.ltb_lt in E. destruct (decide (w' = w)) as [-> | Hne].
    + rewrite lookup_insert_eq. rewrite decide_True; done.
    + rewrite lookup_insert_ne by done. rewrite decide_False; [done | tauto].
  - apply Nat.ltb_ge in E. rewrite decide_False; [done | lia].
Qed.

(** The positive table after a load: a word with a retained record of
    positive class maps to [1]; any other word is as before. *)
Lemma load_lines_pos f : forall self self' w,
  load_lines pyfloat f self = Ok self' ->
  ((exists line p s, line ∈ f /\ retained pyfloat line w p s /\
                    SFltb fzero p = true) /\
   _posdict self' !! w = Some 1) \/
  ((forall line p s, line ∈ f -> retained pyfloat line w p s ->
                    SFltb fzero p = false) /\
   _posdict self' !! w = _posdict self !! w).
Proof.
  induction f as [| line f IH]; intros self self' w H; simpl in H.
  - right. split; [intros ??? Hin; inversion Hin | congruence].
  - apply bind_Ok in H as (self1 & H1 & H).
    destruct (IH _ _ w H) as [[(l & p & s & Hin & Hr & Hp) Hl] | [Hno Hl]].
    { left. split; [| done]. exists l, p, s. split; [by right | done]. }
    apply load_line_Ok in H1 as [[Hh ->] | (w0 & p & s & Hr & ->)].
    { right. split; [| done]. intros l p s Hin [Hr Hlen].
      apply elem_of_cons in Hin as [-> | Hin]; [| by eapply Hno].
      destruct Hr as (? & ? & H0 & Hw & _). congruence. }
    rewrite store_pos in Hl. case_decide as Hd.
    + destruct Hd as (-> & Hlen & Hp). left. split; [| done].
      exists line, p, s. split; [by left | done].
    + right. split; [| done]. intros l p' s' Hin Hr'.
      apply elem_of_cons in Hin as [-> | Hin]; [| by eapply Hno].
      destruct Hr' as [Hr' Hlen].
      destruct (record_fun _ _ _ _ _ _ _ Hr Hr') as (-> & -> & ->).
      destruct (SFltb fzero p) eqn:E; [| done]. exfalso. apply Hd. done.
Qed.

Lemma load_lines_neg f : forall self self' w,
  load_lines pyfloat f self = Ok self' ->
  ((exists line p s, line ∈ f /\ retained pyfloat line w p s /\
                    SFltb p fzero = true) /\
   _negdict self' !! w = Some (-1)) \/
  ((forall line p s, line ∈ f -> retained pyfloat line w p s ->
                    SFltb p fzero = false) /\
   _negdict self' !! w = _negdict self !! w).
Proof.
  induction f as [| line f IH]; intros self self' w H; simpl in H.
  - right. split; [intros ??? Hin; inversion Hin | congruence].
  - apply bind_Ok in H as (self1 & H1 & H).
    destruct (IH _ _ w H) as [[(l & p & s & Hin & Hr & Hp) Hl] | [Hno Hl]].
    { left. split; [| done]. exists l, p, s. split; [by right | done]. }
    apply load_line_Ok in H1 as [[Hh ->] | (w0 & p & s & Hr & ->)].
    { right. split; [| done]. intros l p s Hin [Hr Hlen].
      apply elem_of_cons in Hin as [-> | Hin]; [| by eapply Hno].
      destruct Hr as (? & ? & H0 & Hw & _). congruence. }
    rewrite store_neg in Hl. case_decide as Hd.
    + destruct Hd as (-> & Hlen & Hp). left. split; [| done].
      exists line, p, s. split; [by left | done].
    + right. split; [| done]. intros l p' s' Hin Hr'.
      apply elem_of_cons in Hin as [-> | Hin]; [| by eapply Hno].
      destruct Hr' as [Hr' Hlen].
      destruct (record_fun _ _ _ _ _ _ _ Hr Hr') as (-> & -> & ->).
      destruct (SFltb p fzero) eqn:E; [| done]. exfalso. apply Hd. done.
Qed.

(** The polarity table after a load: a word maps to the score of its last
    retained record; a word without one is as before. *)
Lemma load_lines_pol f : forall self self' w,
  load_lines pyfloat f self = Ok self' ->
  (exists f1 line f2 p s, f = f1 ++ line :: f2 /\
      retained pyfloat line w p s /\
      (forall line' p' s', line' ∈ f2 -> ~ retained pyfloat line' w p' s') /\
      _poldict self' !! w = Some s) \/
  ((forall line p s, line ∈ f -> ~ retained pyfloat line w p s) /\
   _poldict self' !! w = _poldict self !! w).
Proof.
  induction f as [| line f IH]; intros self self' w H; simpl in H.
  - right. split; [intros ??? Hin; inversion Hin | congruence].
  - apply bind_Ok in H as (self1 & H1 & H).
    destruct (IH _ _ w H) as [(f1 & l & f2 & p & s & -> & Hr & Hlast & Hl) | [Hno Hl]].
    { left. exists (line :: f1), l, f2, p, s. done. }
    apply load_line_Ok in H1 as [[Hh ->] | (w0 & p & s & Hr & ->)].
    { right. split; [| done]. intros l p s Hin [Hr Hlen].
      apply elem_of_cons in Hin as [-> | Hin]; [| by eapply Hno].
      destruct Hr as (? & ? & H0 & Hw & _). congruence. }
    rewrite store_pol in Hl. case_decide as Hd.
    + destruct Hd as (-> & Hlen). left.
      exists [], line, f, p, s. done.
    + right. split; [| done]. intros l p' s' Hin Hr'.
      apply elem_of_cons in Hin as [-> | Hin]; [| by eapply Hno].
      destruct Hr' as [Hr' Hlen].
      destruct (record_fun _ _ _ _ _ _ _ Hr Hr') as (-> & -> & ->).
      apply Hd. done.
Qed.

End LoaderFacts.

(** * The score aggregation *)

(** ** Filters *)

Lemma gt0_lt0_excl s : py_gt0 s = true -> py_lt0 s = false.
Proof.
  destruct s as [z | f]; simpl.
  - intros H. apply Z.ltb_lt in H. apply Z.ltb_ge. lia.
  - apply gt0_lt0.
Qed.

Lemma filter_lengths (l : list num) :
  (length (filter (fun s => py_gt0 s = true) l) +
   length (filter (fun s => py_lt0 s = true) l) =
   length (filter (fun s => py_gt0 s || py_lt0 s = true) l))%nat.
Proof.
  induction l as [| s l IH]; [done |].
  rewrite !filter_cons. pose proof (gt0_lt0_excl s) as Hx.
  destruct (py_gt0 s), (py_lt0 s); try (specialize (Hx eq_refl); discriminate);
    repeat case_decide; simpl in *; try done; lia.
Qed.

Lemma filter_length_le {A} (P : A -> Prop) `{forall x, Decision (P x)} (l : list A) :
  (length (filter P l) <= length l)%nat.
Proof. apply length_filter. Qed.

(** ** Evaluation of the arithmetic of [get_score] *)

Lemma b63_ok : valid b63 /\ is_finite b63 = true /\ SF2R b63 = IZR (2 ^ 63).
Proof.
  split_and!; [done | done |]. unfold b63. rewrite SF2R_finite. simpl cond_Zopp.
  change 11 with (0 + 11). rewrite <- F2R_shift, F2R_0 by lia. done.
Qed.

Lemma b64_ok : valid b64 /\ is_finite b64 = true /\ SF2R b64 = IZR (2 ^ 64).
Proof.
  split_and!; [done | done |]. unfold b64. rewrite SF2R_finite. simpl cond_Zopp.
  change 12 with (0 + 12). rewrite <- F2R_shift, F2R_0 by lia. done.
Qed.

Lemma fzero_ok : valid fzero /\ is_finite fzero = true /\ SF2R fzero = 0%R.
Proof. done. Qed.

Lemma fone_ok : valid fone /\ is_finite fone = true /\ SF2R fone = 1%R.
Proof.
  split_and!; [done | done |]. unfold fone. rewrite SF2R_finite. simpl cond_Zopp.
  unfold F2R. change 4503599627370496 with (2 ^ 52).
  rewrite <- bpow_IZR, <- bpow_add by lia. done.
Qed.

Lemma fneg_one_ok :
  valid fneg_one /\ is_finite fneg_one = true /\ SF2R fneg_one = (-1)%R.
Proof.
  split_and!; [done | done |]. unfold fneg_one. rewrite SF2R_finite, F2R_cond_Zopp.
  destruct fone_ok as (_ & _ & E). unfold fone in E. rewrite SF2R_finite in E.
  simpl in E. rewrite E. done.
Qed.

Lemma EPSILON_ok :
  valid EPSILON /\ is_finite EPSILON = true /\ (0 < SF2R EPSILON <= 1)%R.
Proof.
  split_and!; [done | done | |].
  - apply F2R_pos. done.
  - destruct fone_ok as (V1 & F1 & E1). rewrite <- E1.
    apply SFleb_inv; done.
Qed.

(** [float(z)] for an integer of magnitude at most [2 ^ 63]. *)
Lemma fl_ok z :
  Z.abs z <= 2 ^ 63 ->
  float_of_int z = Ok (fl z) /\ valid (fl z) /\ is_finite (fl z) = true /\
  (0 <= z -> (0 <= SF2R (fl z))%R) /\
  (Z.abs z <= 2 ^ 53 -> SF2R (fl z) = IZR z).
Proof.
  intros Hz. destruct (float_of_int_srounds z) as [V S]. fold (fl z) in V, S.
  destruct b63_ok as (Vb & Fb & Eb).
  assert (Vn : valid (SFopp b63)) by done.
  assert (En : SF2R (SFopp b63) = IZR (- 2 ^ 63)).
  { rewrite opp_IZR, <- Eb. unfold b63, SFopp. rewrite !SF2R_finite.
    simpl. apply F2R_opp. }
  assert (Hr : (IZR (- 2 ^ 63) <= IZR z <= IZR (2 ^ 63))%R)
    by (split; apply IZR_le; lia).
  destruct (S (SFopp b63) b63 Vn Vb eq_refl Fb ltac:(lra)) as [F _].
  split_and!; [by apply float_of_int_finite | done | done | |].
  - intros H0. destruct fzero_ok as (V0 & F0 & E0).
    destruct (S fzero b63 V0 Vb F0 Fb) as [_ ?]; [| lra].
    rewrite E0, Eb. split; apply IZR_le; lia.
  - intros Hs. destruct (small_int_ok z Hs) as (Vs & Fs & Es).
    destruct (S (small_int z) (small_int z) Vs Vs Fs Fs ltac:(lra)). lra.
Qed.

(** The denominators [n + EPSILON]. *)
Lemma den_ok n :
  0 <= n <= 2 ^ 63 ->
  let den := fadd (fl n) EPSILON in
  py_add (PyInt n) (PyFloat EPSILON) = Ok (PyFloat den) /\
  valid den /\ is_finite den = true /\ is_zero den = false /\
  (0 < SF2R den)%R /\ (n < 2 ^ 53 -> (IZR n <= SF2R den)%R).
Proof.
  intros Hn den.
  destruct (fl_ok n ltac:(lia)) as (E & V & F & H0 & Hs).
  destruct EPSILON_ok as (Ve & Fe & He).
  destruct (fadd_srounds (fl n) EPSILON V Ve F Fe) as [Vd S]. fold den in Vd, S.
  destruct b64_ok as (Vb & Fb & Eb).
  assert (Hfl : (SF2R (fl n) <= IZR (2 ^ 63))%R).
  { destruct (float_of_int_srounds n) as [_ S']. fold (fl n) in S'.
    destruct b63_ok as (Vb3 & Fb3 & Eb3). destruct fzero_ok as (V0 & F0 & E0).
    destruct (S' fzero b63 V0 Vb3 F0 Fb3) as [_ ?]; [| lra].
    rewrite E0, Eb3. split; apply IZR_le; lia. }
  assert (H64 : (IZR (2 ^ 63) + 1 <= IZR (2 ^ 64))%R).
  { rewrite <- plus_IZR. apply IZR_le. lia. }
  specialize (H0 ltac:(lia)).
  assert (Hb1 : (SF2R EPSILON <= SF2R (fl n) + SF2R EPSILON <= SF2R b64)%R) by lra.
  destruct (S EPSILON b64 Ve Vb Fe Fb Hb1) as [Fd Bd].
  assert (Hpos : (0 < SF2R den)%R) by lra.
  split_and!; try done.
  - simpl. rewrite E. done.
  - clear - Hpos. clearbody den. destruct den; simpl in *; try done. lra.
  - intros Hlt. specialize (Hs ltac:(lia)).
    assert (Hb2 : (SF2R (fl n) <= SF2R (fl n) + SF2R EPSILON <= SF2R b64)%R) by lra.
    destruct (S (fl n) b64 V Vb F Fb Hb2). lra.
Qed.

Lemma py_mul_one a f :
  to_float a = Ok f -> valid f -> py_mul a (PyFloat fone) = Ok (PyFloat f).
Proof.
  intros E V. unfold py_mul.
  assert (to_float a ≫= (fun x => to_float (PyFloat fone) ≫= fun y => Ok (PyFloat (fmul x y)))
          = Ok (PyFloat f)) as H.
  { rewrite E. simpl. by rewrite fmul_one. }
  by destruct a.
Qed.

Lemma py_truediv_float a f den :
  to_float a = Ok f -> is_zero den = false ->
  py_truediv a (PyFloat den) = Ok (PyFloat (fdiv f den)).
Proof.
  intros E Z. unfold py_truediv.
  assert (to_float a ≫= (fun x => to_float (PyFloat den) ≫= fun y =>
            if is_zero y then Raise ZeroDivisionError else Ok (PyFloat (fdiv x y)))
          = Ok (PyFloat (fdiv f den))) as H.
  { rewrite E. simpl. by rewrite Z. }
  by destruct a.
Qed.

Section Eval.
Variables (self : tables) (terms : list pystr) (by_count : bool).

Local Abbreviation l := (scores self terms by_count).
Local Abbreviation pos := (filter (fun s => py_gt0 s = true) l).
Local Abbreviation neg := (filter (fun s => py_lt0 s = true) l).
Local Abbreviation n := (Z.of_nat (length terms)).
Local Abbreviation c := (Z.of_nat (length pos) + Z.of_nat (length neg)).

Lemma count_le : 0 <= c <= n.
Proof.
  rewrite <- Nat2Z.inj_add.
  rewrite filter_lengths.
  pose proof (length_filter (fun s => py_gt0 s || py_lt0 s = true) l) as H.
  assert (E : length l = length terms) by (unfold scores; apply length_fmap).
  lia.
Qed.

Variables (P N PN : num) (nf : float) (dz : Z).
Hypothesis Hlen : n <= 2 ^ 63.
Hypothesis HP : sum pos = Ok P.
Hypothesis HN : sum neg = Ok N.
Hypothesis HPN : py_add P N = Ok PN.
Hypothesis Hnf : to_float PN = Ok nf.
Hypothesis Vnf : valid nf.
Hypothesis HD : (if by_count then py_sub P N else Ok (PyInt n)) = Ok (PyInt dz).
Hypothesis Hdz : 0 <= dz <= 2 ^ 63.

Lemma get_score_eval :
  get_score self terms by_count = Ok (evaluated self terms by_count P N nf dz).
Proof.
  pose proof count_le as Hc.
  destruct (den_ok dz Hdz) as (Ed & _ & _ & Zd & _).
  destruct (den_ok n ltac:(lia)) as (En & _ & _ & Zn & _).
  assert (Hc' : Z.abs c <= 2 ^ 63) by lia.
  destruct (fl_ok c Hc') as (Ec & Vc & _).
  unfold get_score. cbv zeta.
  change ((fun t => _get_score self t by_count) <$> terms) with l.
  rewrite HP. cbn [mbind result_bind]. rewrite HN. cbn [mbind result_bind].
  rewrite HPN. cbn [mbind result_bind].
  rewrite (py_mul_one PN nf Hnf Vnf). cbn [mbind result_bind].
  replace (len l) with (PyInt n)
    by (unfold len, scores; by rewrite length_fmap).
  rewrite HD. cbn [mbind result_bind]. rewrite Ed. cbn [mbind result_bind].
  rewrite (py_truediv_float (PyFloat nf) nf _ eq_refl Zd). cbn [mbind result_bind].
  change (py_add (len pos) (len neg)) with (Ok (PyInt c)).
  cbn [mbind result_bind].
  rewrite (py_mul_one (PyInt c) (fl c) Ec Vc). cbn [mbind result_bind].
  rewrite En. cbn [mbind result_bind].
  rewrite (py_truediv_float (PyFloat (fl c)) (fl c) _ eq_refl Zn). done.
Qed.

Lemma formula_eval (count : list num -> Z) :
  count l = c ->
  formula count self terms by_count = Ok (evaluated self terms by_count P N nf dz).
Proof.
  intros Hcnt. pose proof count_le as Hc.
  destruct (den_ok dz Hdz) as (Ed & _ & _ & Zd & _).
  destruct (den_ok n ltac:(lia)) as (En & _ & _ & Zn & _).
  assert (Hc' : Z.abs c <= 2 ^ 63) by lia.
  destruct (fl_ok c Hc') as (Ec & Vc & _).
  unfold formula. cbv zeta.
  rewrite HP. cbn [mbind result_bind]. rewrite HN. cbn [mbind result_bind].
  change (len terms) with (PyInt n).
  rewrite HD. cbn [mbind result_bind]. rewrite HPN. cbn [mbind result_bind].
  rewrite Ed. cbn [mbind result_bind].
  rewrite (py_truediv_float _ _ _ Hnf Zd). cbn [mbind result_bind].
  rewrite En. cbn [mbind result_bind]. rewrite Hcnt.
  rewrite (py_truediv_float (PyInt c) _ _ Ec Zn). done.
Qed.

End Eval.

(** ** Sums of scores *)

Lemma sum_from_ints c0 l : forall a,
  (forall s, s ∈ l -> s = PyInt c0) ->
  sum_from (PyInt a) l = Ok (PyInt (a + c0 * Z.of_nat (length l))).
Proof.
  induction l as [| s l IH]; intros a H.
  - simpl. do 2 f_equal. lia.
  - rewrite (H s) by apply list_elem_of_here. simpl.
    rewrite IH by (intros; apply H; by apply list_elem_of_further).
    do 2 f_equal. lia.
Qed.

Lemma to_float_okp a : okp a -> exists f, to_float a = Ok f /\ valid f.
Proof.
  intros [-> | (f & -> & V)]; [by exists (S754_zero false) | by exists f].
Qed.

Lemma py_add_floats a b :
  (forall x y, a = PyInt x -> b = PyInt y -> False) ->
  py_add a b = x ← to_float a; y ← to_float b; Ok (PyFloat (fadd x y)).
Proof. destruct a, b; try done. intros H. by destruct (H z z0). Qed.

Lemma py_add_okp a b : okp a -> okp b -> exists c, py_add a b = Ok c /\ okp c.
Proof.
  intros [-> | (f & -> & V)] [-> | (g & -> & W)].
  - exists (PyInt 0). split; [done | by left].
  - exists (PyFloat (fadd (S754_zero false) g)). split; [done |].
    right. eexists. split; [done |]. by apply fadd_valid.
  - exists (PyFloat (fadd f (S754_zero false))). split; [done |].
    right. eexists. split; [done |]. by apply fadd_valid.
  - exists (PyFloat (fadd f g)). split; [done |].
    right. eexists. split; [done |]. by apply fadd_valid.
Qed.

Lemma sum_from_okp l : forall a,
  okp a -> Forall okp l -> exists r, sum_from a l = Ok r /\ okp r.
Proof.
  induction l as [| s l IH]; intros a Ha Hl.
  - by exists a.
  - apply Forall_cons in Hl as [Hs Hl].
    destruct (py_add_okp a s Ha Hs) as (c & E & Hc).
    simpl. rewrite E. simpl. by apply IH.
Qed.

(** ** Scores under well-formed tables *)

Lemma count_score self t :
  wf_tables self ->
  _get_score self t true = PyInt 1 \/ _get_score self t true = PyInt (-1) \/
  _get_score self t true = PyInt 0.
Proof.
  intros (Hp & Hn & _). unfold _get_score.
  destruct (_posdict self !! t) as [v |] eqn:Ep.
  - left. by rewrite (Hp t v Ep).
  - destruct (_negdict self !! t) as [v |] eqn:En.
    + right. left. by rewrite (Hn t v En).
    + by right; right.
Qed.

Lemma polarity_score self t : wf_tables self -> okp (_get_score self t false).
Proof.
  intros (_ & _ & Hv). unfold _get_score.
  destruct (_poldict self !! t) as [v |] eqn:E.
  - right. exists v. split; [done |]. by apply (Hv t v).
  - by left.
Qed.

Lemma count_sums self terms :
  wf_tables self ->
  let l := scores self terms true in
  sum (filter (fun s => py_gt0 s = true) l) =
    Ok (PyInt (Z.of_nat (length (filter (fun s => py_gt0 s = true) l)))) /\
  sum (filter (fun s => py_lt0 s = true) l) =
    Ok (PyInt (- Z.of_nat (length (filter (fun s => py_lt0 s = true) l)))).
Proof.
  intros W l.
  assert (H : forall s, s ∈ l -> s = PyInt 1 \/ s = PyInt (-1) \/ s = PyInt 0).
  { intros s Hs. unfold l, scores in Hs. apply list_elem_of_fmap in Hs as (t & -> & _).
    by apply count_score. }
  split.
  - unfold sum. rewrite (sum_from_ints 1); [do 2 f_equal; lia |].
    intros s Hs. apply list_elem_of_filter in Hs as [Hg Hs].
    destruct (H s Hs) as [-> | [-> | ->]]; done.
  - unfold sum. rewrite (sum_from_ints (-1)); [do 2 f_equal; lia |].
    intros s Hs. apply list_elem_of_filter in Hs as [Hg Hs].
    destruct (H s Hs) as [-> | [-> | ->]]; done.
Qed.

Lemma polarity_sums self terms (Q : num -> Prop) `{forall s, Decision (Q s)} :
  wf_tables self ->
  exists r, sum (filter Q (scores self terms false)) = Ok r /\ okp r.
Proof.
  intros W. apply sum_from_okp; [by left |].
  apply Forall_forall. intros s Hs.
  apply list_elem_of_filter in Hs as [_ Hs].
  unfold scores in Hs. apply list_elem_of_fmap in Hs as (t & -> & _).
  by apply polarity_score.
Qed.

(** ** Nonzero scores and signed scores *)

Lemma ne0_signed s :
  s <> PyFloat S754_nan -> py_ne0 s = py_gt0 s || py_lt0 s.
Proof.
  destruct s as [z | f]; simpl.
  - intros _. destruct (Z.eqb_spec z 0), (Z.ltb_spec 0 z), (Z.ltb_spec z 0); simpl; lia.
  - intros H. destruct f as [[] | [] | | [] m e]; try done.
Qed.

Lemma count_nonzero_signed l :
  (forall s, s ∈ l -> s <> PyFloat S754_nan) -> count_nonzero l = count_signed l.
Proof.
  intros H. unfold count_nonzero, count_signed. do 2 f_equal.
  induction l as [| s l IH]; [done |].
  rewrite !filter_cons. rewrite (ne0_signed s) by (apply H; apply list_elem_of_here).
  rewrite IH by (intros; apply H; by apply list_elem_of_further).
  done.
Qed.

(** ** Evaluation in the two modes *)

Lemma by_count_eval self terms (count : list num -> Z) :
  wf_tables self -> Z.of_nat (length terms) < 2 ^ 63 ->
  let l := scores self terms true in
  let p := Z.of_nat (length (filter (fun s => py_gt0 s = true) l)) in
  let q := Z.of_nat (length (filter (fun s => py_lt0 s = true) l)) in
  let r := evaluated self terms true (PyInt p) (PyInt (- q)) (fl (p - q)) (p + q) in
  0 <= p + q <= Z.of_nat (length terms) /\
  get_score self terms true = Ok r /\
  (count l = p + q -> formula count self terms true = Ok r).
Proof.
  intros W Hlen l p q r.
  pose proof (count_le self terms true) as Hc. fold l p q in Hc.
  destruct (count_sums self terms W) as [HP HN]. fold l p q in HP, HN.
  destruct (fl_ok (p - q) ltac:(lia)) as (Ef & Vf & _).
  assert (HPN : py_add (PyInt p) (PyInt (- q)) = Ok (PyInt (p - q)))
    by (simpl; do 2 f_equal; lia).
  assert (HD : (if true then py_sub (PyInt p) (PyInt (- q))
                else Ok (PyInt (Z.of_nat (length terms)))) = Ok (PyInt (p + q)))
    by (simpl; do 2 f_equal; lia).
  split; [done |]. split.
  - apply (get_score_eval self terms true (PyInt p) (PyInt (- q)) (PyInt (p - q)));
      try done; lia.
  - intros Hcnt.
    apply (formula_eval self terms true (PyInt p) (PyInt (- q)) (PyInt (p - q)));
      try done; lia.
Qed.

Lemma by_polarity_eval self terms (count : list num -> Z) :
  wf_tables self -> Z.of_nat (length terms) < 2 ^ 63 ->
  let l := scores self terms false in
  let p := Z.of_nat (length (filter (fun s => py_gt0 s = true) l)) in
  let q := Z.of_nat (length (filter (fun s => py_lt0 s = true) l)) in
  exists P N PN nf,
    sum (filter (fun s => py_gt0 s = true) l) = Ok P /\ okp P /\
    sum (filter (fun s => py_lt0 s = true) l) = Ok N /\ okp N /\
    py_add P N = Ok PN /\ to_float PN = Ok nf /\ valid nf /\
    let r := evaluated self terms false P N nf (Z.of_nat (length terms)) in
    get_score self terms false = Ok r /\
    (count l = p + q -> formula count self terms false = Ok r).
Proof.
  intros W Hlen l p q.
  destruct (polarity_sums self terms (fun s => py_gt0 s = true) W) as (P & HP & OP).
  destruct (polarity_sums self terms (fun s => py_lt0 s = true) W) as (N & HN & ON).
  destruct (py_add_okp P N OP ON) as (PN & HPN & OPN).
  destruct (to_float_okp PN OPN) as (nf & Hnf & Vnf).
  exists P, N, PN, nf. do 7 (split; [done |]). intros r. split.
  - apply (get_score_eval self terms false P N PN); try done; lia.
  - intros Hcnt. apply (formula_eval self terms false P N PN); try done; lia.
Qed.

Lemma count_signed_eq l :
  count_signed l =
  Z.of_nat (length (filter (fun s => py_gt0 s = true) l)) +
  Z.of_nat (length (filter (fun s => py_lt0 s = true) l)).
Proof. unfold count_signed. rewrite <- filter_lengths. lia. Qed.

Lemma scores_not_nan self terms by_count :
  (by_count = true \/
   forall t, t ∈ terms -> _poldict self !! t <> Some S754_nan) ->
  forall s, s ∈ scores self terms by_count -> s <> PyFloat S754_nan.
Proof.
  intros H s Hs. unfold scores in Hs.
  apply list_elem_of_fmap in Hs as (t & -> & Ht).
  unfold _get_score. destruct H as [-> | H].
  - simpl. destruct (_posdict self !! t); [done |]. by destruct (_negdict self !! t).
  - specialize (H t Ht). destruct by_count; simpl.
    + destruct (_posdict self !! t); [done |]. by destruct (_negdict self !! t).
    + destruct (_poldict self !! t); [| done]. congruence.
Qed.

(** C1 (as amended). With tables as the loader builds them and fewer than
    [2 ^ 63] tokens, [get_score] returns, in either mode and without raising,
    the record of the formula whose Subjectivity counts the tokens of
    strictly positive or strictly negative score. This is the record of the
    formula that counts the tokens of nonzero score in by_count mode, and in
    by_polarity mode when no token has the polarity NaN. *)
Theorem get_score_formula self terms by_count :
  wf_tables self -> Z.of_nat (length terms) < 2 ^ 63 ->
  exists r,
    get_score self terms by_count = Ok r /\
    signed_score self terms by_count = Ok r /\
    ((by_count = true \/
      forall t, t ∈ terms -> _poldict self !! t <> Some S754_nan) ->
     claimed_score self terms by_count = Ok r).
Proof.
  intros W Hlen. destruct by_count.
  - destruct (by_count_eval self terms count_signed W Hlen) as (_ & E & Es).
    destruct (by_count_eval self terms count_nonzero W Hlen) as (_ & _ & Ec).
    eexists. split_and!; [apply E | |].
    + apply Es. apply count_signed_eq.
    + intros H. apply Ec. rewrite count_nonzero_signed; [apply count_signed_eq |].
      by apply scores_not_nan.
  - destruct (by_polarity_eval self terms count_signed W Hlen)
      as (P & N & PN & nf & HP & _ & HN & _ & HPN & Hnf & Vnf & E & Es).
    destruct (by_polarity_eval self terms count_nonzero W Hlen)
      as (P' & N' & PN' & nf' & HP' & _ & HN' & _ & HPN' & Hnf' & _ & _ & Ec).
    assert (P' = P) by congruence. assert (N' = N) by congruence. subst.
    assert (PN' = PN) by congruence. subst. assert (nf' = nf) by congruence. subst.
    eexists. split_and!; [apply E | |].
    + apply Es. apply count_signed_eq.
    + intros H. apply Ec. rewrite count_nonzero_signed; [apply count_signed_eq |].
      by apply scores_not_nan.
Qed.

(** ** Bounds *)

(** A quotient of doubles between two representable bounds. *)
Lemma fdiv_between x den lo hi :
  is_finite x = true -> valid den -> is_finite den = true ->
  (0 < SF2R den)%R ->
  valid lo -> valid hi -> is_finite lo = true -> is_finite hi = true ->
  (SF2R lo * SF2R den <= SF2R x <= SF2R hi * SF2R den)%R ->
  SFleb lo (fdiv x den) = true /\ SFleb (fdiv x den) hi = true.
Proof.
  intros Fx Vd Fd Hd Vlo Vhi Flo Fhi [H1 H2].
  destruct den as [| | | sy my ey]; try done; [simpl in Hd; lra |].
  destruct (fdiv_srounds x sy my ey Fx) as [V S].
  set (d := SF2R (S754_finite sy my ey)) in *.
  assert (Hq : (SF2R lo <= SF2R x / d <= SF2R hi)%R).
  { split.
    - apply Rmult_le_reg_r with d; [done |].
      unfold Rdiv. rewrite Rmult_assoc, Rinv_l by lra. lra.
    - apply Rmult_le_reg_r with d; [done |].
      unfold Rdiv. rewrite Rmult_assoc, Rinv_l by lra. lra. }
  destruct (S lo hi Vlo Vhi Flo Fhi Hq) as [F [B1 B2]].
  split; apply SFleb_true; done.
Qed.

Lemma okp_valid a f : okp a -> to_float a = Ok f -> valid f.
Proof.
  intros [-> | (g & -> & V)] E; simpl in E.
  - unfold float_of_int in E. simpl in E. by simplify_eq.
  - by simplify_eq.
Qed.

Lemma py_add_between a b lo1 hi1 lo2 hi2 :
  between a lo1 hi1 -> between b lo2 hi2 ->
  Z.abs (lo1 + lo2) <= 2 ^ 53 -> Z.abs (hi1 + hi2) <= 2 ^ 53 ->
  exists c, py_add a b = Ok c /\ between c (lo1 + lo2) (hi1 + hi2).
Proof.
  intros [Oa (fa & Ea & Fa & Ba)] [Ob (fb & Eb & Fb & Bb)] Hlo Hhi.
  pose proof (okp_valid a fa Oa Ea) as Va.
  pose proof (okp_valid b fb Ob Eb) as Vb.
  destruct (py_add_okp a b Oa Ob) as (c & Ec & Oc).
  exists c. split; [done |]. split; [done |].
  destruct (small_int_ok _ Hlo) as (V1 & F1 & E1).
  destruct (small_int_ok _ Hhi) as (V2 & F2 & E2).
  rewrite plus_IZR in E1, E2.
  destruct (fadd_srounds fa fb Va Vb Fa Fb) as [_ S].
  destruct (S _ _ V1 V2 F1 F2 ltac:(lra)) as [F B].
  rewrite E1, E2, <- !plus_IZR in B.
  assert (Hc : c = PyInt 0 /\ fa = S754_zero false /\ fb = S754_zero false \/
               c = PyFloat (fadd fa fb)).
  { destruct a as [za | ga], b as [zb | gb]; simpl in *.
    - left. destruct Oa as [Ha | (? & ? & _)]; [| done].
      destruct Ob as [Hb | (? & ? & _)]; [| done].
      simplify_eq. simpl in *. unfold float_of_int in *. simpl in *. by simplify_eq.
    - right. rewrite Ea in Ec. simpl in Ec. by simplify_eq.
    - right. rewrite Eb in Ec. simpl in Ec. by simplify_eq.
    - right. by simplify_eq. }
  destruct Hc as [(-> & -> & ->) | ->].
  - exists (S754_zero false). split; [done |]. split; [done |]. simpl in *.
    rewrite plus_IZR. lra.
  - exists (fadd fa fb). done.
Qed.

Lemma sum_from_between el eh l : forall a lo hi,
  el <= 0 <= eh -> lo <= 0 <= hi ->
  - 2 ^ 53 <= lo + el * Z.of_nat (length l) ->
  hi + eh * Z.of_nat (length l) <= 2 ^ 53 ->
  between a lo hi -> Forall (fun s => between s el eh) l ->
  exists r, sum_from a l = Ok r /\
            between r (lo + el * Z.of_nat (length l)) (hi + eh * Z.of_nat (length l)).
Proof.
  induction l as [| s l IH]; intros a lo hi He Hlh H1 H2 Ha Hl.
  - exists a. split; [done |]. simpl. by rewrite !Z.mul_0_r, !Z.add_0_r.
  - apply Forall_cons in Hl as [Hs Hl].
    rewrite length_cons, Nat2Z.inj_succ in *.
    destruct (py_add_between a s lo hi el eh Ha Hs) as (c & Ec & Hc); [nia | nia |].
    destruct (IH c (lo + el) (hi + eh)) as (r & Er & Hr); try done; try nia.
    exists r. split; [simpl; rewrite Ec; done |].
    replace (lo + el * Z.succ (Z.of_nat (length l)))
      with (lo + el + el * Z.of_nat (length l)) by lia.
    replace (hi + eh * Z.succ (Z.of_nat (length l)))
      with (hi + eh + eh * Z.of_nat (length l)) by lia.
    done.
Qed.

Lemma signed_elem self terms s :
  wf_tables self -> bounded_values self terms ->
  s ∈ scores self terms false ->
  (py_gt0 s = true -> between s 0 1) /\ (py_lt0 s = true -> between s (-1) 0).
Proof.
  intros W Hb Hs. unfold scores in Hs.
  apply list_elem_of_fmap in Hs as (t & -> & Ht).
  pose proof (polarity_score self t W) as Ok.
  unfold _get_score in *. destruct (_poldict self !! t) as [v |] eqn:E; [| done].
  destruct (Hb t v Ht E) as [Hl Hu].
  destruct W as (_ & _ & Wv). pose proof (Wv t v E) as V. simpl in V.
  destruct fone_ok as (V1 & F1 & E1). destruct fneg_one_ok as (Vn & Fn & En).
  destruct fzero_ok as (V0 & F0 & E0).
  destruct v as [sv | [] | | sv m e]; try done.
  pose proof (SFleb_inv _ _ V V1 eq_refl F1 Hu) as H1.
  pose proof (SFleb_inv _ _ Vn V eq_refl eq_refl Hl) as H2.
  split; intros Hg; (split; [done |]); eexists; (split; [done |]); (split; [done |]).
  - pose proof (SFltb_inv _ _ V0 V F0 eq_refl Hg). lra.
  - pose proof (SFltb_inv _ _ V V0 eq_refl F0 Hg). lra.
Qed.

Lemma between_zero lo hi : lo <= 0 <= hi -> between (PyInt 0) lo hi.
Proof.
  intros [H1 H2]. split; [by left |]. exists (S754_zero false).
  split; [done |]. split; [done |]. simpl. split; apply IZR_le; lia.
Qed.

(** C5 (as amended). With tables as the loader builds them and fewer than
    [2 ^ 53] tokens, [get_score] returns a record whose Subjectivity lies in
    [[0, 1]] and whose Polarity lies in [[-1, 1]] in by_count mode, and in
    by_polarity mode when the polarity of every token lies in [[-1, 1]]. *)
Theorem get_score_bounds self terms by_count :
  wf_tables self -> Z.of_nat (length terms) < 2 ^ 53 ->
  exists r pol sub,
    get_score self terms by_count = Ok r /\
    Polarity r = PyFloat pol /\ Subjectivity r = PyFloat sub /\
    SFleb fzero sub = true /\ SFleb sub fone = true /\
    (by_count = true \/ bounded_values self terms ->
     SFleb fneg_one pol = true /\ SFleb pol fone = true).
Proof.
  intros W Hlen.
  assert (Hlen' : Z.of_nat (length terms) < 2 ^ 63) by lia.
  set (n := Z.of_nat (length terms)) in *.
  destruct fone_ok as (V1 & F1 & E1). destruct fneg_one_ok as (Vn & Fn & En).
  destruct fzero_ok as (V0 & F0 & E0).
  pose proof (count_le self terms by_count) as Hc. fold n in Hc.
  set (c := Z.of_nat (length (filter (fun s => py_gt0 s = true) (scores self terms by_count))) +
            Z.of_nat (length (filter (fun s => py_lt0 s = true) (scores self terms by_count)))) in *.
  destruct (den_ok n ltac:(lia)) as (_ & Vd & Fd & _ & Pd & Bd).
  specialize (Bd Hlen).
  destruct (fl_ok c ltac:(lia)) as (_ & Vc & Fc & _ & Ec).
  specialize (Ec ltac:(lia)).
  assert (Hsub : SFleb fzero (fdiv (fl c) (fadd (fl n) EPSILON)) = true /\
                 SFleb (fdiv (fl c) (fadd (fl n) EPSILON)) fone = true).
  { apply fdiv_between; try done. rewrite E0, E1, Ec.
    assert (0 <= IZR c <= IZR n)%R by (split; apply IZR_le; lia). lra. }
  destruct by_count.
  - destruct (by_count_eval self terms count_signed W Hlen') as (Hpq & E & _).
    set (p := Z.of_nat (length (filter (fun s => py_gt0 s = true) (scores self terms true)))) in *.
    set (q := Z.of_nat (length (filter (fun s => py_lt0 s = true) (scores self terms true)))) in *.
    eexists _, _, _. split; [apply E |]. split; [done |]. split; [done |].
    split; [apply Hsub |]. split; [apply Hsub |]. intros _.
    destruct (den_ok (p + q) ltac:(lia)) as (_ & Vd' & Fd' & _ & Pd' & Bd').
    specialize (Bd' ltac:(lia)).
    destruct (fl_ok (p - q) ltac:(lia)) as (_ & Vf & Ff & _ & Ef).
    specialize (Ef ltac:(lia)).
    apply fdiv_between; try done. rewrite En, E1, Ef.
    rewrite plus_IZR in Bd'. rewrite minus_IZR.
    assert (0 <= IZR p)%R by (apply IZR_le; lia).
    assert (0 <= IZR q)%R by (apply IZR_le; lia). lra.
  - destruct (by_polarity_eval self terms count_signed W Hlen')
      as (P & N & PN & nf & HP & OP & HN & ON & HPN & Hnf & Vnf & E & _).
    eexists _, _, _. split; [apply E |]. split; [done |]. split; [done |].
    split; [apply Hsub |]. split; [apply Hsub |]. intros [? | Hb]; [done |].
    set (l := scores self terms false) in *.
    set (p := Z.of_nat (length (filter (fun s => py_gt0 s = true) l))) in *.
    set (q := Z.of_nat (length (filter (fun s => py_lt0 s = true) l))) in *.
    pose proof (count_le self terms false) as Hpq. fold l p q n in Hpq.
    assert (0 <= p /\ 0 <= q) as [Hp0 Hq0] by (unfold p, q; lia).
    assert (FP : Forall (fun s => between s 0 1) (filter (fun s => py_gt0 s = true) l)).
    { apply Forall_forall. intros s Hs. apply list_elem_of_filter in Hs as [Hg Hs].
      by apply (signed_elem self terms s W Hb Hs). }
    assert (FN : Forall (fun s => between s (-1) 0) (filter (fun s => py_lt0 s = true) l)).
    { apply Forall_forall. intros s Hs. apply list_elem_of_filter in Hs as [Hg Hs].
      by apply (signed_elem self terms s W Hb Hs). }
    pose proof (between_zero 0 0 ltac:(lia)) as B0.
    assert (H53 : 0 < 2 ^ 53) by done.
    assert (A1 : - 2 ^ 53 <= 0 + 0 * p) by lia.
    assert (A2 : 0 + 1 * p <= 2 ^ 53) by lia.
    assert (A3 : - 2 ^ 53 <= 0 + -1 * q) by lia.
    assert (A4 : 0 + 0 * q <= 2 ^ 53) by lia.
    destruct (sum_from_between 0 1 (filter (fun s => py_gt0 s = true) l) (PyInt 0) 0 0
                ltac:(lia) ltac:(lia) A1 A2 B0 FP) as (P' & HP' & BP).
    destruct (sum_from_between (-1) 0 (filter (fun s => py_lt0 s = true) l) (PyInt 0) 0 0
                ltac:(lia) ltac:(lia) A3 A4 B0 FN) as (N' & HN' & BN).
    fold p in BP. fold q in BN. unfold sum in HP, HN.
    assert (P' = P) by congruence. assert (N' = N) by congruence. subst P' N'.
    destruct (py_add_between P N _ _ _ _ BP BN) as (PN' & HPN' & BPN); [lia | lia |].
    assert (PN' = PN) by congruence. subst PN'.
    destruct BPN as (_ & nf' & Hnf' & Fnf & Bnf).
    assert (nf' = nf) by congruence. subst nf'.
    apply fdiv_between; try done. rewrite En, E1.
    replace (0 + 0 * p + (0 + -1 * q)) with (- q) in Bnf by lia.
    replace (0 + 1 * p + (0 + 0 * q)) with p in Bnf by lia.
    rewrite opp_IZR in Bnf.
    assert (0 <= IZR p <= IZR n)%R by (split; apply IZR_le; lia).
    assert (0 <= IZR q <= IZR n)%R by (split; apply IZR_le; lia).
    subst n. lra.
Qed.

(** * Construction *)

Section LoaderOutcome.
Variable installpath : pystr.
Variable pyfloat : pystr -> option float.
Variable fs : pystr -> result text_file.
Variable kind : option Z.

Lemma kind_file :
  exists name,
    KINDS !! match kind with
             | Some k => if decide (is_Some (KINDS !! k)) then k else 0
             | None => 0
             end = Some name /\
    LEXICON_PATH installpath ++ str "/mpko/" ++ name =
    lexicon_path installpath kind.
Proof.
  assert (Hp : forall name,
            LEXICON_PATH installpath ++ str "/mpko/" ++ name =
            installpath ++ str "/data/lexicon/mpko/" ++ name).
  { intros name. unfold LEXICON_PATH. rewrite <- app_assoc. reflexivity. }
  unfold lexicon_path. destruct kind as [k |].
  - destruct (decide (k = 0)) as [-> | H0]; [eexists; split; [done | apply Hp] |].
    destruct (decide (k = 1)) as [-> | H1]; [eexists; split; [done | apply Hp] |].
    destruct (decide (k = 3)) as [-> | H3]; [eexists; split; [done | apply Hp] |].
    assert (Hk : KINDS !! k = None).
    { unfold KINDS. by rewrite !lookup_insert_ne, lookup_empty by done. }
    rewrite Hk. rewrite decide_False by (by intros [? ?]).
    eexists. split; [done |]. rewrite Hp.
    destruct k as [| [[| |] | [| |] |] |]; done.
  - eexists. split; [done | apply Hp].
Qed.

Lemma init_dict_path self :
  init_dict installpath pyfloat fs kind self =
  f ← fs (lexicon_path installpath kind);
  self' ← load_lines pyfloat (file_lines f) self;
  match file_error f with
  | None => Ok self'
  | Some e => Raise e
  end.
Proof.
  destruct kind_file as (name & E1 & E2). unfold init_dict. cbv zeta.
  rewrite E1. cbn [of_option mbind result_bind]. by rewrite E2.
Qed.

Lemma init_dict_lexicon self f :
  lexicon installpath fs kind = Some f ->
  init_dict installpath pyfloat fs kind self = load_lines pyfloat f self.
Proof.
  rewrite init_dict_path. unfold lexicon.
  destruct (fs _) as [[f' [e |]] | e]; try done.
  intros ?. simplify_eq. simpl. by destruct (load_lines pyfloat f self).
Qed.

Lemma init_dict_Ok self self' :
  init_dict installpath pyfloat fs kind self = Ok self' ->
  exists f, lexicon installpath fs kind = Some f /\
            load_lines pyfloat f self = Ok self'.
Proof.
  rewrite init_dict_path. unfold lexicon.
  destruct (fs _) as [[f [e |]] | e]; simpl; try done.
  - by destruct (load_lines pyfloat f self).
  - destruct (load_lines pyfloat f self) eqn:E; [| done].
    simpl. intros H. exists f. split; [done | congruence].
Qed.

Lemma load_line_malformed line self :
  load_line pyfloat line self = Raise ValueError <-> malformed pyfloat line.
Proof.
  unfold load_line, malformed, index.
  destruct (split comma line !! 0%nat) as [w |] eqn:E0; simpl.
  2: { split; [done | by intros (? & ? & ? & _)]. }
  case_decide as Hw.
  { split; [done |]. intros (w' & ? & ? & ? & _). congruence. }
  destruct (split comma line !! 1%nat) as [x1 |] eqn:E1; simpl.
  2: { split; [done | by intros (? & ? & _ & _ & ? & _)]. }
  destruct (pyfloat (strip x1)) as [p |] eqn:Ep; simpl.
  2: { split; [| done]. intros _. exists w, x1. split_and!; try done. by left. }
  destruct (split comma line !! 2%nat) as [x2 |] eqn:E2; simpl.
  2: { split; [done |]. intros (? & ? & _ & _ & ? & [? | (? & ? & ? & ? & _)]).
       - congruence.
       - congruence. }
  destruct (pyfloat (strip x2)) as [s |] eqn:Es; simpl.
  - split.
    + destruct (1 <? length w)%nat; [| done].
      destruct (SFltb fzero p); [done |]. by destruct (SFltb p fzero).
    + intros (? & ? & _ & _ & ? & [? | (? & ? & ? & ? & ?)]); congruence.
  - split; [| done]. intros _. exists w, x1. split_and!; try done.
    right. by exists p, x2.
Qed.

Lemma load_lines_ValueError f : forall self,
  load_lines pyfloat f self = Raise ValueError <->
  exists f1 line f2 self1,
    f = f1 ++ line :: f2 /\ load_lines pyfloat f1 self = Ok self1 /\
    malformed pyfloat line.
Proof.
  induction f as [| line f IH]; intros self; simpl.
  - split; [done |]. intros ([| ??] & ? & ? & ? & ? & _); done.
  - destruct (load_line pyfloat line self) as [self' | e] eqn:E; simpl.
    + rewrite IH. split.
      * intros (f1 & l & f2 & s1 & -> & H1 & Hm).
        exists (line :: f1), l, f2, s1. split_and!; try done.
        simpl. by rewrite E.
      * intros ([| l0 f1] & l & f2 & s1 & Hf & H1 & Hm); simpl in *.
        -- simplify_eq. apply (proj2 (load_line_malformed l s1)) in Hm.
           congruence.
        -- simplify_eq. rewrite E in H1. simpl in H1.
           by exists f1, l, f2, s1.
    + split.
      * intros He. simplify_eq. exists [], line, f, self.
        split_and!; try done. by apply (proj1 (load_line_malformed line self)).
      * intros ([| l0 f1] & l & f2 & s1 & Hf & H1 & Hm); simpl in *.
        -- simplify_eq. apply (proj2 (load_line_malformed l s1)) in Hm.
           congruence.
        -- simplify_eq. rewrite E in H1. done.
Qed.

(** After construction, the keys of the three tables. *)
Lemma loaded_tables self f w :
  load_lines pyfloat f empty_tables = Ok self ->
  (forall v, _posdict self !! w = Some v ->
     v = 1 /\ exists line p s, line ∈ f /\ retained pyfloat line w p s /\
                             SFltb fzero p = true) /\
  (forall v, _negdict self !! w = Some v ->
     v = -1 /\ exists line p s, line ∈ f /\ retained pyfloat line w p s /\
                              SFltb p fzero = true) /\
  (forall v, _poldict self !! w = Some v ->
     exists f1 line f2 p, f = f1 ++ line :: f2 /\ retained pyfloat line w p v /\
       forall line' p' s', line' ∈ f2 -> ~ retained pyfloat line' w p' s').
Proof.
  intros H. split_and!; intros v Hv.
  - destruct (load_lines_pos pyfloat f _ _ w H) as [[Hr E] | [_ E]];
      rewrite E in Hv; [| done]. by simplify_eq.
  - destruct (load_lines_neg pyfloat f _ _ w H) as [[Hr E] | [_ E]];
      rewrite E in Hv; [| done]. by simplify_eq.
  - destruct (load_lines_pol pyfloat f _ _ w H)
      as [(f1 & line & f2 & p & s & -> & Hr & Hl & E) | [_ E]];
      rewrite E in Hv; [| done]. simplify_eq. by exists f1, line, f2, p.
Qed.

Lemma init_dict_wf self :
  (forall x v, pyfloat x = Some v -> valid v) ->
  init_dict installpath pyfloat fs kind empty_tables = Ok self ->
  wf_tables self.
Proof.
  intros Hv H. apply init_dict_Ok in H as (f & _ & H).
  split_and!; intros w v E.
  - by destruct (proj1 (loaded_tables self f w H) v E).
  - by destruct (proj1 (proj2 (loaded_tables self f w H)) v E).
  - destruct (proj2 (proj2 (loaded_tables self f w H)) v E)
      as (f1 & line & f2 & p & _ & [(x1 & x2 & _ & _ & _ & _ & _ & Hs) _] & _).
    by apply (Hv _ _ Hs).
Qed.

End LoaderOutcome.

(** ** The decimal reader yields doubles *)

Lemma digits_acc_nonneg s : forall acc n,
  0 <= acc -> 0 <= (digits_acc acc n s).1.1.
Proof.
  induction s as [| c s IH]; intros acc n H; simpl; [done |].
  unfold digit. destruct ((48 <=? c)%N && (c <=? 57)%N) eqn:E; [| done].
  apply IH. apply andb_prop in E as [E1 E2].
  apply N.leb_le in E1. lia.
Qed.

Lemma float_of_decimal_valid neg m e : 0 <= m -> valid (float_of_decimal neg m e).
Proof.
  intros Hm. unfold float_of_decimal.
  destruct (Z.eqb_spec m 0); [done |].
  destruct (Z.leb_spec 0 e).
  - eapply srounds_valid. apply binary_normalize_srounds.
  - assert (H10 : 0 < 10 ^ (- e)) by (apply Z.pow_pos_nonneg; lia).
    pose proof (div_core_ok m 0 (10 ^ (- e)) 0 ltac:(lia) H10) as Hd.
    destruct (SFdiv_core_binary prec emax m 0 (10 ^ (- e)) 0) as [[q e'] l].
    destruct Hd as (Hq & He & Hl). by eapply bra_valid.
Qed.

Lemma float_of_ascii_valid x v : float_of_ascii x = Some v -> valid v.
Proof.
  unfold float_of_ascii. destruct (read_sign x) as [neg s].
  case_decide; [intros; by simplify_eq |].
  case_decide; [intros; by simplify_eq |].
  pose proof (digits_acc_nonneg s 0 0 ltac:(lia)) as H1.
  destruct (digits_acc 0 0 s) as [[m ni] s1]. simpl in H1.
  assert (H2 : 0 <= (match s1 with
                     | 46%N :: s1' => digits_acc m 0 s1'
                     | _ => (m, 0, s1)
                     end).1.1).
  { destruct s1 as [| c s1']; [done |].
    destruct c as [| p]; [done |].
    repeat (destruct p as [p | p |]; try done).
    by apply digits_acc_nonneg. }
  destruct (match s1 with
            | 46%N :: s1' => digits_acc m 0 s1'
            | _ => (m, 0, s1)
            end) as [[m' nf] s2]. simpl in H2.
  destruct (0 <? ni + nf); [| done].
  destruct (read_exponent s2) as [e |]; [| done]. simpl.
  intros ?. simplify_eq. by apply float_of_decimal_valid.
Qed.

Lemma float_of_str_valid x v : float_of_str x = Some v -> valid v.
Proof.
  unfold float_of_str.
  destruct (remove_underscores 0 (strip_ascii (map to_ascii x))) as [s |];
    [| done]. apply float_of_ascii_valid.
Qed.

(** ** The constructor's tables are well formed *)

Lemma construct_wf installpath fs kind self :
  init_dict installpath float_of_str fs kind empty_tables = Ok self ->
  wf_tables self.
Proof. apply init_dict_wf. apply float_of_str_valid. Qed.

(** ** Properties of the loader *)

Section LoaderProperties.
Variable installpath : pystr.
Variable pyfloat : pystr -> option float.
Variable fs : pystr -> result text_file.
Variable kind : option Z.

(** C3 (as amended). An exception of [open] is that of the load:
    [FileNotFoundError] for a missing lexicon file. A header line never
    causes a parsing error, whatever its other fields. A malformed
    numeric field in any other line raises [ValueError] whether or not
    the length filter would retain the word, and aborts the load when the
    iteration reaches the line without error, whatever follows. For a
    file that opens and is read to its end without an I/O or decoding
    error, the load aborts with [ValueError] exactly when some line,
    reached without error, is malformed in this sense. *)
Theorem load_errors self :
  (forall e, fs (lexicon_path installpath kind) = Raise e ->
             init_dict installpath pyfloat fs kind self = Raise e) /\
  (forall line t, split comma line !! 0%nat = Some (str "word") ->
                  load_line pyfloat line t = Ok t) /\
  (forall line t, malformed pyfloat line ->
                  load_line pyfloat line t = Raise ValueError) /\
  (forall file f1 line f2 self1,
     fs (lexicon_path installpath kind) = Ok file ->
     file_lines file = f1 ++ line :: f2 ->
     load_lines pyfloat f1 self = Ok self1 -> malformed pyfloat line ->
     init_dict installpath pyfloat fs kind self = Raise ValueError) /\
  (forall f,
     lexicon installpath fs kind = Some f ->
     (init_dict installpath pyfloat fs kind self = Raise ValueError <->
      exists f1 line f2 self1,
        f = f1 ++ line :: f2 /\
        load_lines pyfloat f1 self = Ok self1 /\ malformed pyfloat line)).
Proof.
  split_and!.
  - intros e H. rewrite init_dict_path, H. done.
  - intros line t H. by apply load_line_header.
  - intros line t H. by apply load_line_malformed.
  - intros file f1 line f2 self1 Hf Hl H1 Hm.
    rewrite init_dict_path, Hf. simpl.
    assert (E : load_lines pyfloat (file_lines file) self = Raise ValueError).
    { apply load_lines_ValueError. by exists f1, line, f2, self1. }
    by rewrite E.
  - intros f Hf. rewrite (init_dict_lexicon installpath pyfloat fs kind _ _ Hf).
    apply load_lines_ValueError.
Qed.

(** C4 (as amended). After construction a term is a key of both
    PositiveSet and NegativeSet exactly when the lexicon file has a
    retained record of positive class and a retained record of negative
    class for it; the two tables are disjoint when no word has both. *)
Theorem pos_neg_overlap self f :
  lexicon installpath fs kind = Some f ->
  init_dict installpath pyfloat fs kind empty_tables = Ok self ->
  (forall w,
     is_Some (_posdict self !! w) /\ is_Some (_negdict self !! w) <->
     (exists line p s, line ∈ f /\ retained pyfloat line w p s /\
                       SFltb fzero p = true) /\
     (exists line p s, line ∈ f /\ retained pyfloat line w p s /\
                       SFltb p fzero = true)) /\
  ((forall w l1 p1 s1 l2 p2 s2,
      l1 ∈ f -> retained pyfloat l1 w p1 s1 -> SFltb fzero p1 = true ->
      l2 ∈ f -> retained pyfloat l2 w p2 s2 -> SFltb p2 fzero = true -> False) ->
   _posdict self ##ₘ _negdict self).
Proof.
  intros Hf H. rewrite (init_dict_lexicon installpath pyfloat fs kind _ _ Hf) in H.
  assert (Hw : forall w,
     is_Some (_posdict self !! w) /\ is_Some (_negdict self !! w) <->
     (exists line p s, line ∈ f /\ retained pyfloat line w p s /\
                       SFltb fzero p = true) /\
     (exists line p s, line ∈ f /\ retained pyfloat line w p s /\
                       SFltb p fzero = true)).
  { intros w. split.
    - intros [[v1 H1] [v2 H2]].
      destruct (loaded_tables pyfloat self f w H) as (Hp & Hn & _).
      split; [by destruct (Hp v1 H1) | by destruct (Hn v2 H2)].
    - intros [(l1 & p1 & s1 & Hi1 & Hr1 & Hs1) (l2 & p2 & s2 & Hi2 & Hr2 & Hs2)].
      split.
      + destruct (load_lines_pos pyfloat f _ _ w H) as [[_ E] | [Hno _]];
          [by rewrite E |]. rewrite (Hno _ _ _ Hi1 Hr1) in Hs1. done.
      + destruct (load_lines_neg pyfloat f _ _ w H) as [[_ E] | [Hno _]];
          [by rewrite E |]. rewrite (Hno _ _ _ Hi2 Hr2) in Hs2. done. }
  split; [done |].
  intros Hno. apply map_disjoint_spec. intros w v1 v2 H1 H2.
  destruct (proj1 (Hw w)) as [(l1 & p1 & s1 & ? & ? & ?) (l2 & p2 & s2 & ? & ? & ?)];
    [split; by eexists |].
  eapply Hno; eauto.
Qed.

(** C6. Round trip: after construction, the polarity table maps a word to
    the float parsed from the third field of its lexicon record (the last
    retained one, should the word occur more than once), and
    [_get_score(word, by_count=False)] returns exactly that float. *)
Theorem polarity_round_trip self f :
  lexicon installpath fs kind = Some f ->
  init_dict installpath pyfloat fs kind empty_tables = Ok self ->
  forall w s,
    (_poldict self !! w = Some s <->
     exists f1 line f2 p,
       f = f1 ++ line :: f2 /\ retained pyfloat line w p s /\
       forall line' p' s', line' ∈ f2 -> ~ retained pyfloat line' w p' s') /\
    (_poldict self !! w = Some s -> _get_score self w false = PyFloat s).
Proof.
  intros Hf H w s. rewrite (init_dict_lexicon installpath pyfloat fs kind _ _ Hf) in H. split.
  - split.
    + intros E. by apply (loaded_tables pyfloat self f w H).
    + intros (f1 & line & f2 & p & E & Hr & Hlast).
      destruct (load_lines_pol pyfloat f _ _ w H)
        as [(g1 & l & g2 & p' & s' & E' & Hr' & Hlast' & Hs) | [Hno _]].
      * rewrite Hs. f_equal. subst f.
        assert (Hl : (g1, l, g2) = (f1, line, f2)); [| by simplify_eq;
          destruct (record_fun pyfloat _ _ _ _ _ _ _ (proj1 Hr) (proj1 Hr')) as (_ & _ & ->)].
        clear - E' Hr Hr' Hlast Hlast'.
        revert g1 E'. induction f1 as [| a f1 IH]; intros [| b g1] E'; simpl in E'.
        -- by simplify_eq.
        -- simplify_eq. exfalso. eapply Hlast; [| apply Hr'].
           apply elem_of_app. right. apply list_elem_of_here.
        -- simplify_eq. exfalso. eapply Hlast'; [| apply Hr].
           apply elem_of_app. right. apply list_elem_of_here.
        -- simplify_eq. assert ((g1, l, g2) = (f1, line, f2)) by by apply IH.
           by simplify_eq.
      * exfalso. eapply (Hno line); [| apply Hr]. subst f.
        apply elem_of_app. right. apply list_elem_of_here.
  - intros E. unfold _get_score. by rewrite E.
Qed.

(** C7. A record whose word has at most one character leaves the three
    tables as they are, and after construction no word of at most one
    character is a key of PositiveSet, NegativeSet or PolarityMap. *)
Theorem short_word_discarded self :
  (forall line t w p s,
     record pyfloat line w p s -> (length w <= 1)%nat ->
     load_line pyfloat line t = Ok t) /\
  (init_dict installpath pyfloat fs kind empty_tables = Ok self ->
   forall w, (length w <= 1)%nat ->
     _posdict self !! w = None /\ _negdict self !! w = None /\
     _poldict self !! w = None).
Proof.
  split.
  - intros line t w p s Hr Hl.
    rewrite (load_line_record pyfloat line t w p s Hr). f_equal.
    by apply store_short.
  - intros H w Hl. apply init_dict_Ok in H as (f & _ & H).
    destruct (loaded_tables pyfloat self f w H) as (Hp & Hn & Hv).
    split_and!.
    + destruct (_posdict self !! w) as [v |] eqn:E; [| done].
      destruct (Hp v eq_refl) as (_ & ? & ? & ? & _ & [_ ?] & _). lia.
    + destruct (_negdict self !! w) as [v |] eqn:E; [| done].
      destruct (Hn v eq_refl) as (_ & ? & ? & ? & _ & [_ ?] & _). lia.
    + destruct (_poldict self !! w) as [v |] eqn:E; [| done].
      destruct (Hv v eq_refl) as (? & ? & ? & ? & _ & [_ ?] & _). lia.
Qed.


End LoaderProperties.

(** ** Properties of the lookup *)

(** C2 (as amended). With the tables of a constructed dictionary, a term in
    no table scores [0] in both modes; a term of PositiveSet scores [+1] by
    count; a term of NegativeSet that is not also in PositiveSet scores [-1]
    by count; and a term of PolarityMap scores its PolarityMap value by
    polarity. *)
Theorem lookup_scores self term :
  wf_tables self ->
  (_posdict self !! term = None -> _negdict self !! term = None ->
   _poldict self !! term = None ->
   forall by_count, _get_score self term by_count = PyInt 0) /\
  (is_Some (_posdict self !! term) -> _get_score self term true = PyInt 1) /\
  (is_Some (_negdict self !! term) -> _posdict self !! term = None ->
   _get_score self term true = PyInt (-1)) /\
  (forall v, _poldict self !! term = Some v ->
             _get_score self term false = PyFloat v).
Proof.
  intros (Hp & Hn & _). unfold _get_score. split_and!.
  - intros -> -> -> []; done.
  - intros [v E]. rewrite E. by rewrite (Hp term v E).
  - intros [v E] ->. rewrite E. by rewrite (Hn term v E).
  - intros v ->. done.
Qed.

(** C10. For a term that is in both the positive and the negative table,
    [_get_score(term, by_count=True)] returns the value of the positive
    table, which is [+1] in a constructed dictionary. *)
Theorem positive_precedence self term v :
  _posdict self !! term = Some v -> is_Some (_negdict self !! term) ->
  _get_score self term true = PyInt v /\ (wf_tables self -> v = 1).
Proof.
  intros E _. split.
  - unfold _get_score. by rewrite E.
  - intros (Hp & _). by apply (Hp term v).
Qed.

(** C9. On the empty token list, in either mode, [get_score] returns
    Positive [0], Negative [0], Polarity [0.0] and Subjectivity [0.0]. *)
Theorem get_score_empty self by_count :
  get_score self [] by_count =
  Ok {| Positive := PyInt 0; Negative := PyInt 0;
        Polarity := PyFloat fzero; Subjectivity := PyFloat fzero |}.
Proof. by destruct by_count. Qed.

(** * Examples *)

Lemma load_sample : load sample_lexicon = Ok (tables_of sample_lexicon).
Proof. vm_compute. reflexivity. Qed.

Lemma load_overlap : load overlap_lexicon = Ok (tables_of overlap_lexicon).
Proof. vm_compute. reflexivity. Qed.

Lemma load_nan : load nan_lexicon = Ok (tables_of nan_lexicon).
Proof. vm_compute. reflexivity. Qed.

Lemma load_large : load large_lexicon = Ok (tables_of large_lexicon).
Proof. vm_compute. reflexivity. Qed.


Lemma lexicon_one_file f :
  lexicon sample_installpath (one_file f) None = Some f.
Proof. vm_compute. reflexivity. Qed.

Lemma sample_wf : wf_tables (tables_of sample_lexicon).
Proof.
  exact (construct_wf sample_installpath (one_file sample_lexicon) None _ load_sample).
Qed.

Lemma overlap_wf : wf_tables (tables_of overlap_lexicon).
Proof.
  exact (construct_wf sample_installpath (one_file overlap_lexicon) None _ load_overlap).
Qed.

(** The literal [1e-6] is read as [EPSILON]. *)
Example EPSILON_literal : float_of_str (str "1e-6") = Some EPSILON.
Proof. vm_compute. reflexivity. Qed.

(** The example of the specification: hike is positive, cut is negative and
    the third token is unknown. *)
Example get_score_sample :
  get_score (tables_of sample_lexicon) [hike; str "neutral_word"; cut] true =
  Ok {| Positive := PyInt 1; Negative := PyInt (-1);
        Polarity := PyFloat fzero;
        Subjectivity := PyFloat (S754_finite false 6004797501561494 (-53)) |}.
Proof. vm_compute. reflexivity. Qed.

(** ** Counterexamples *)

(** C1 fails as stated: a lexicon record may carry the score [nan]; such a
    token is nonzero, but it is neither positive nor negative, so [get_score]
    leaves it out of Subjectivity. *)
Lemma nan_score_not_counted :
  load nan_lexicon = Ok (tables_of nan_lexicon) /\
  _get_score (tables_of nan_lexicon) ab false = PyFloat S754_nan /\
  py_ne0 (PyFloat S754_nan) = true /\
  get_score (tables_of nan_lexicon) [ab] false =
    Ok {| Positive := PyInt 0; Negative := PyInt 0;
          Polarity := PyFloat fzero; Subjectivity := PyFloat fzero |} /\
  claimed_score (tables_of nan_lexicon) [ab] false =
    Ok {| Positive := PyInt 0; Negative := PyInt 0;
          Polarity := PyFloat fzero;
          Subjectivity := PyFloat (S754_finite false 9007190247550745 (-53)) |}.
Proof. vm_compute. repeat split; reflexivity. Qed.

(** C2 fails as stated: a word with a record of each class is a key of
    NegativeSet, and scores [+1] by count. *)
Lemma negative_entry_scores_plus_one :
  load overlap_lexicon = Ok (tables_of overlap_lexicon) /\
  _negdict (tables_of overlap_lexicon) !! ab = Some (-1) /\
  _get_score (tables_of overlap_lexicon) ab true = PyInt 1.
Proof. vm_compute. repeat split; reflexivity. Qed.

(** C3 fails as stated: the word [x] has one character, so the length
    filter discards its record, and the malformed class field of that
    record still aborts the load with a parsing error. *)
Lemma parse_error_in_discarded_record :
  split comma (str "x,abc,0.5") !! 0%nat = Some (str "x") /\
  (length (str "x") <= 1)%nat /\
  float_of_str (str "abc") = None /\
  load short_lexicon = Raise ValueError.
Proof. vm_compute. repeat split; reflexivity || lia. Qed.

(** C4 fails as stated: after loading a file with a positive and a negative
    record for the same word, the word is a key of both tables. *)
Lemma pos_neg_not_disjoint :
  load overlap_lexicon = Ok (tables_of overlap_lexicon) /\
  _posdict (tables_of overlap_lexicon) !! ab = Some 1 /\
  _negdict (tables_of overlap_lexicon) !! ab = Some (-1).
Proof. vm_compute. repeat split; reflexivity. Qed.

(** C5 fails as stated: the loader does not bound the scores of the
    lexicon; with the score [5.0] for its only token the Polarity by
    polarity is [5.0 / (1 + 1e-6)], above [4]. *)
Lemma polarity_above_one :
  load large_lexicon = Ok (tables_of large_lexicon) /\
  py_ne0 (_get_score (tables_of large_lexicon) hike false) = true /\
  get_score (tables_of large_lexicon) [hike] false =
    Ok {| Positive := PyFloat (S754_finite false 5629499534213120 (-50));
          Negative := PyInt 0;
          Polarity := PyFloat (S754_finite false 5629493904719216 (-50));
          Subjectivity := PyFloat (S754_finite false 9007190247550745 (-53)) |} /\
  SFleb (S754_finite false 5629493904719216 (-50)) fone = false /\
  SFltb (S754_finite false 4503599627370496 (-50))
        (S754_finite false 5629493904719216 (-50)) = true.
Proof. vm_compute. repeat split; reflexivity. Qed.


(** ** The theorems on the sample lexicons *)

(** The sample tables are well formed and three tokens are fewer than [2 ^
    63]: the scoring formula holds of them by polarity. *)
Lemma get_score_formula_witness :
  exists r,
    get_score (tables_of sample_lexicon) [hike; str "neutral_word"; cut] false = Ok r /\
    signed_score (tables_of sample_lexicon) [hike; str "neutral_word"; cut] false = Ok r /\
    ((false = true \/
      forall t, t ∈ [hike; str "neutral_word"; cut] ->
                _poldict (tables_of sample_lexicon) !! t <> Some S754_nan) ->
     claimed_score (tables_of sample_lexicon) [hike; str "neutral_word"; cut] false = Ok r).
Proof.
  apply (get_score_formula (tables_of sample_lexicon)
           [hike; str "neutral_word"; cut] false sample_wf).
  reflexivity.
Defined.

(** The bounds on the sample tables and three tokens, by count. *)
Lemma get_score_bounds_witness :
  exists r pol sub,
    get_score (tables_of sample_lexicon) [hike; str "neutral_word"; cut] true = Ok r /\
    Polarity r = PyFloat pol /\ Subjectivity r = PyFloat sub /\
    SFleb fzero sub = true /\ SFleb sub fone = true /\
    (true = true \/
     bounded_values (tables_of sample_lexicon) [hike; str "neutral_word"; cut] ->
     SFleb fneg_one pol = true /\ SFleb pol fone = true).
Proof.
  apply (get_score_bounds (tables_of sample_lexicon)
           [hike; str "neutral_word"; cut] true sample_wf).
  reflexivity.
Defined.

(** The lookup of [cut] in the sample tables. *)
Lemma lookup_scores_witness :
  (_posdict (tables_of sample_lexicon) !! cut = None ->
   _negdict (tables_of sample_lexicon) !! cut = None ->
   _poldict (tables_of sample_lexicon) !! cut = None ->
   forall by_count, _get_score (tables_of sample_lexicon) cut by_count = PyInt 0) /\
  (is_Some (_posdict (tables_of sample_lexicon) !! cut) ->
   _get_score (tables_of sample_lexicon) cut true = PyInt 1) /\
  (is_Some (_negdict (tables_of sample_lexicon) !! cut) ->
   _posdict (tables_of sample_lexicon) !! cut = None ->
   _get_score (tables_of sample_lexicon) cut true = PyInt (-1)) /\
  (forall v, _poldict (tables_of sample_lexicon) !! cut = Some v ->
             _get_score (tables_of sample_lexicon) cut false = PyFloat v).
Proof. apply (lookup_scores (tables_of sample_lexicon) cut sample_wf). Defined.

(** Without a lexicon file the load raises [FileNotFoundError]; the file
    with the record [x,abc,0.5] is read to its end, and its load raises
    [ValueError] as that line is malformed. *)
Lemma load_errors_witness :
  init_dict sample_installpath float_of_str no_file None empty_tables =
    Raise FileNotFoundError /\
  (init_dict sample_installpath float_of_str (one_file short_lexicon) None
     empty_tables = Raise ValueError <->
   exists f1 line f2 self1,
     short_lexicon = f1 ++ line :: f2 /\
     load_lines float_of_str f1 empty_tables = Ok self1 /\
     malformed float_of_str line).
Proof.
  split.
  - apply (proj1 (load_errors sample_installpath float_of_str no_file None
                    empty_tables)).
    reflexivity.
  - apply (proj2 (proj2 (proj2 (proj2
             (load_errors sample_installpath float_of_str
                (one_file short_lexicon) None empty_tables))))).
    apply lexicon_one_file.
Defined.

(** The word [ab] of the overlapping lexicon, which has a record of each
    class. *)
Lemma pos_neg_overlap_witness :
  is_Some (_posdict (tables_of overlap_lexicon) !! ab) /\
  is_Some (_negdict (tables_of overlap_lexicon) !! ab) <->
  (exists line p s, line ∈ overlap_lexicon /\ retained float_of_str line ab p s /\
                    SFltb fzero p = true) /\
  (exists line p s, line ∈ overlap_lexicon /\ retained float_of_str line ab p s /\
                    SFltb p fzero = true).
Proof.
  apply (proj1 (pos_neg_overlap sample_installpath float_of_str
                  (one_file overlap_lexicon) None (tables_of overlap_lexicon)
                  overlap_lexicon (lexicon_one_file overlap_lexicon) load_overlap)).
Defined.

(** The score [0.8] of [hike] in the sample lexicon. *)
Lemma polarity_round_trip_witness :
  (_poldict (tables_of sample_lexicon) !! hike =
     Some (S754_finite false 7205759403792794 (-53)) <->
   exists f1 line f2 p,
     sample_lexicon = f1 ++ line :: f2 /\
     retained float_of_str line hike p (S754_finite false 7205759403792794 (-53)) /\
     forall line' p' s', line' ∈ f2 -> ~ retained float_of_str line' hike p' s') /\
  (_poldict (tables_of sample_lexicon) !! hike =
     Some (S754_finite false 7205759403792794 (-53)) ->
   _get_score (tables_of sample_lexicon) hike false =
     PyFloat (S754_finite false 7205759403792794 (-53))).
Proof.
  apply (polarity_round_trip sample_installpath float_of_str
           (one_file sample_lexicon) None (tables_of sample_lexicon)
           sample_lexicon (lexicon_one_file sample_lexicon) load_sample).
Defined.

(** The record [x,1,0.5] of the sample lexicon leaves [x] out of the three
    tables. *)
Lemma short_word_discarded_witness :
  _posdict (tables_of sample_lexicon) !! str "x" = None /\
  _negdict (tables_of sample_lexicon) !! str "x" = None /\
  _poldict (tables_of sample_lexicon) !! str "x" = None.
Proof.
  apply (proj2 (short_word_discarded sample_installpath float_of_str
                  (one_file sample_lexicon) None (tables_of sample_lexicon))
           load_sample (str "x")).
  vm_compute. lia.
Defined.


(** The word [ab] of the overlapping lexicon is in both tables and scores
    [+1]. *)
Lemma positive_precedence_witness :
  _get_score (tables_of overlap_lexicon) ab true = PyInt 1 /\
  (wf_tables (tables_of overlap_lexicon) -> 1 = 1).
Proof.
  apply (positive_precedence (tables_of overlap_lexicon) ab 1).
  - vm_compute. reflexivity.
  - exists (-1). vm_compute. reflexivity.
Defined.

(** ** Further properties *)

(** X1. With tables as the loader builds them and fewer than [2 ^ 63]
    tokens, [get_score] returns a record in either mode: the divisions are
    never by zero and no conversion of an integer to a double overflows. *)
Theorem get_score_total self terms by_count :
  wf_tables self -> Z.of_nat (length terms) < 2 ^ 63 ->
  exists r, get_score self terms by_count = Ok r.
Proof.
  intros W Hlen. destruct by_count.
  - destruct (by_count_eval self terms count_signed W Hlen) as (_ & E & _).
    eexists. apply E.
  - destruct (by_polarity_eval self terms count_signed W Hlen)
      as (P & N & PN & nf & _ & _ & _ & _ & _ & _ & _ & E & _).
    eexists. apply E.
Qed.

(** X2. By count, Positive is the number of tokens of positive score and
    Negative is minus the number of tokens of negative score. *)
Theorem by_count_counts self terms :
  wf_tables self -> Z.of_nat (length terms) < 2 ^ 63 ->
  exists r,
    get_score self terms true = Ok r /\
    Positive r =
      PyInt (Z.of_nat (length (filter (fun s => py_gt0 s = true)
                                 (scores self terms true)))) /\
    Negative r =
      PyInt (- Z.of_nat (length (filter (fun s => py_lt0 s = true)
                                   (scores self terms true)))).
Proof.
  intros W Hlen.
  destruct (by_count_eval self terms count_signed W Hlen) as (_ & E & _).
  eexists. split; [apply E |]. done.
Qed.

Section LoaderFurther.
Variable installpath : pystr.
Variable pyfloat : pystr -> option float.
Variable fs : pystr -> result text_file.

(** X3. After a load, every value of the positive table is [+1], every
    value of the negative table is [-1], and every key of either is a key
    of the polarity table. *)
Theorem loaded_values kind self :
  init_dict installpath pyfloat fs kind empty_tables = Ok self ->
  forall w,
    (forall v, _posdict self !! w = Some v -> v = 1) /\
    (forall v, _negdict self !! w = Some v -> v = -1) /\
    (is_Some (_posdict self !! w) \/ is_Some (_negdict self !! w) ->
     is_Some (_poldict self !! w)).
Proof.
  intros H w. apply init_dict_Ok in H as (f & _ & H).
  destruct (loaded_tables pyfloat self f w H) as (Hp & Hn & _).
  split_and!.
  - intros v E. by destruct (Hp v E).
  - intros v E. by destruct (Hn v E).
  - intros Hk.
    assert (exists line p s, line ∈ f /\ retained pyfloat line w p s)
      as (line & p & s & Hi & Hr).
    { destruct Hk as [[v E] | [v E]].
      - destruct (Hp v E) as (_ & line & p & s & ? & ? & _). by exists line, p, s.
      - destruct (Hn v E) as (_ & line & p & s & ? & ? & _). by exists line, p, s. }
    destruct (load_lines_pol pyfloat f _ _ w H)
      as [(f1 & l & f2 & p' & s' & _ & _ & _ & E) | [Hno _]].
    + rewrite E. by eexists.
    + exfalso. by eapply Hno.
Qed.


(** X5. A [kind] that is not a key of [KINDS] selects the lexicon of kind
    [0], as does no [kind] at all: either load is the load of kind [0],
    and it depends on the file system through the one file
    [mp_polarity_lexicon_mkt.csv] of the lexicon directory. *)
Theorem kind_default k self :
  KINDS !! k = None ->
  init_dict installpath pyfloat fs (Some k) self =
    init_dict installpath pyfloat fs (Some 0) self /\
  init_dict installpath pyfloat fs None self =
    init_dict installpath pyfloat fs (Some 0) self /\
  forall fs' : pystr -> result text_file,
    fs' (installpath ++ str "/data/lexicon/mpko/mp_polarity_lexicon_mkt.csv") =
    fs (installpath ++ str "/data/lexicon/mpko/mp_polarity_lexicon_mkt.csv") ->
    init_dict installpath pyfloat fs' (Some k) self =
    init_dict installpath pyfloat fs (Some k) self.
Proof.
  intros Hk. split_and!.
  - unfold init_dict. rewrite decide_False; [done |].
    rewrite Hk. by intros [? ?].
  - done.
  - intros fs' Hfs. rewrite !init_dict_path.
    assert (Hp : lexicon_path installpath (Some k) =
                 installpath ++ str "/data/lexicon/mpko/mp_polarity_lexicon_mkt.csv").
    { unfold lexicon_path.
      destruct k as [| [[q | q |] | q |] | q]; try reflexivity;
        exfalso; vm_compute in Hk; discriminate. }
    by rewrite Hp, Hfs.
Qed.

End LoaderFurther.

(** Three tokens on the sample tables, by polarity. *)
Lemma get_score_total_witness :
  exists r,
    get_score (tables_of sample_lexicon) [hike; str "neutral_word"; cut] false = Ok r.
Proof.
  apply (get_score_total (tables_of sample_lexicon)
           [hike; str "neutral_word"; cut] false sample_wf).
  reflexivity.
Defined.

(** Two positive tokens and one negative token of the sample tables. *)
Lemma by_count_counts_witness :
  exists r,
    get_score (tables_of sample_lexicon) [hike; hike; cut] true = Ok r /\
    Positive r =
      PyInt (Z.of_nat (length (filter (fun s => py_gt0 s = true)
                                 (scores (tables_of sample_lexicon)
                                    [hike; hike; cut] true)))) /\
    Negative r =
      PyInt (- Z.of_nat (length (filter (fun s => py_lt0 s = true)
                                   (scores (tables_of sample_lexicon)
                                      [hike; hike; cut] true)))).
Proof.
  apply (by_count_counts (tables_of sample_lexicon) [hike; hike; cut] sample_wf).
  reflexivity.
Defined.

(** The word [hike] after the load of the sample lexicon. *)
Lemma loaded_values_witness :
  (forall v, _posdict (tables_of sample_lexicon) !! hike = Some v -> v = 1) /\
  (forall v, _negdict (tables_of sample_lexicon) !! hike = Some v -> v = -1) /\
  (is_Some (_posdict (tables_of sample_lexicon) !! hike) \/
   is_Some (_negdict (tables_of sample_lexicon) !! hike) ->
   is_Some (_poldict (tables_of sample_lexicon) !! hike)).
Proof.
  apply (loaded_values sample_installpath float_of_str
           (one_file sample_lexicon) None (tables_of sample_lexicon)
           load_sample hike).
Defined.


(** The kind [2] is not a key of [KINDS]. *)
Lemma kind_default_witness :
  init_dict sample_installpath float_of_str (one_file sample_lexicon) (Some 2)
    empty_tables =
    init_dict sample_installpath float_of_str (one_file sample_lexicon) (Some 0)
      empty_tables /\
  init_dict sample_installpath float_of_str (one_file sample_lexicon) None
    empty_tables =
    init_dict sample_installpath float_of_str (one_file sample_lexicon) (Some 0)
      empty_tables /\
  forall fs' : pystr -> result text_file,
    fs' (sample_installpath ++
         str "/data/lexicon/mpko/mp_polarity_lexicon_mkt.csv") =
    one_file sample_lexicon
      (sample_installpath ++
       str "/data/lexicon/mpko/mp_polarity_lexicon_mkt.csv") ->
    init_dict sample_installpath float_of_str fs' (Some 2) empty_tables =
    init_dict sample_installpath float_of_str (one_file sample_lexicon) (Some 2)
      empty_tables.
Proof.
  apply (kind_default sample_installpath float_of_str (one_file sample_lexicon) 2).
  reflexivity.
Defined.

(** A lexicon line with a missing field, loaded. *)
Example load_missing_field :
  load (lines ["hike,1"]%string) = Raise IndexError.
Proof. vm_compute. reflexivity. Qed.

(** * Further properties of the loader, the constructor and the scores *)

(** ** The loop of the loader *)

(** *** Fields of a line *)

Lemma split_nonempty sep s : split sep s <> [].
Proof.
  destruct s as [| c s]; simpl; [done |].
  destruct (N.eqb c sep); [done |]. by destruct (split sep s).
Qed.

Lemma split_no_sep sep s : forall x, x ∈ split sep s -> sep ∉ x.
Proof.
  induction s as [| c s IH]; simpl; intros x Hx.
  - apply list_elem_of_singleton in Hx as ->. apply not_elem_of_nil.
  - destruct (N.eqb_spec c sep) as [-> | Hc].
    + apply elem_of_cons in Hx as [-> | Hx]; [apply not_elem_of_nil | by apply IH].
    + destruct (split sep s) as [| w ws] eqn:E.
      * apply list_elem_of_singleton in Hx as ->.
        intros Hin. apply elem_of_cons in Hin as [-> | Hin]; [done |].
        by apply not_elem_of_nil in Hin.
      * apply elem_of_cons in Hx as [-> | Hx].
        -- intros Hin. apply elem_of_cons in Hin as [-> | Hin]; [done |].
           revert Hin. apply IH. apply list_elem_of_here.
        -- apply IH. by apply list_elem_of_further.
Qed.

Lemma split_app sep s t :
  split sep (s ++ sep :: t) = split sep s ++ split sep t.
Proof.
  induction s as [| c s IH]; simpl.
  - by rewrite N.eqb_refl.
  - destruct (N.eqb c sep); [by rewrite IH |].
    rewrite IH. pose proof (split_nonempty sep s) as Hne.
    by destruct (split sep s).
Qed.

Lemma split_snoc sep s c :
  c <> sep ->
  exists ws w, split sep s = ws ++ [w] /\ split sep (s ++ [c]) = ws ++ [w ++ [c]].
Proof.
  intros Hc. induction s as [| a s (ws & w & E & E')]; simpl.
  - exists [], []. split; [done |].
    destruct (N.eqb_spec c sep); [done | done].
  - rewrite E, E'. destruct (N.eqb a sep).
    + by exists ([] :: ws), w.
    + destruct ws as [| x ws]; simpl.
      * by exists [], (a :: w).
      * by exists ((a :: x) :: ws), w.
Qed.

Lemma lstrip_snoc s c :
  isspace c = true ->
  lstrip (s ++ [c]) = match lstrip s with
                      | [] => []
                      | _ => lstrip s ++ [c]
                      end.
Proof.
  intros Hc. induction s as [| a s IH]; simpl.
  - by rewrite Hc.
  - by destruct (isspace a).
Qed.

Lemma strip_snoc s c : isspace c = true -> strip (s ++ [c]) = strip s.
Proof.
  intros Hc. unfold strip. rewrite (lstrip_snoc s c Hc).
  destruct (lstrip s) as [| x t]; [done |].
  rewrite rev_app_distr. simpl rev at 1. simpl app at 1.
  cbn [lstrip]. by rewrite Hc.
Qed.

Section LoaderLoop.
Variable installpath : pystr.
Variable pyfloat : pystr -> option float.

Lemma load_lines_succeeds f : forall self,
  (exists self', load_lines pyfloat f self = Ok self') <->
  Forall (well_formed pyfloat) f.
Proof.
  induction f as [| line f IH]; intros self; simpl.
  - split; [by intros _ | intros _; by eexists].
  - split.
    + intros [self' H]. apply bind_Ok in H as (self1 & H1 & H).
      constructor; [| apply (IH self1); by eexists].
      destruct (load_line_Ok pyfloat _ _ _ H1) as [[Hh _] | (w & p & s & Hr & _)];
        [by left | right; by exists w, p, s].
    + intros H. apply Forall_cons in H as [Hl Hf].
      destruct Hl as [Hh | (w & p & s & Hr)].
      * rewrite (load_line_header pyfloat _ _ Hh). simpl. by apply IH.
      * rewrite (load_line_record pyfloat _ _ _ _ _ Hr). simpl. by apply IH.
Qed.

Lemma load_lines_no_header f : forall self,
  load_lines pyfloat (filter (fun line => ~ header line) f) self =
  load_lines pyfloat f self.
Proof.
  induction f as [| line f IH]; intros self; [done |].
  destruct (decide (header line)) as [Hh | Hh].
  - rewrite filter_cons_False by (intros H; by apply H).
    simpl. rewrite (load_line_header pyfloat _ _ Hh). simpl. apply IH.
  - rewrite filter_cons_True by done. simpl.
    destruct (load_line pyfloat line self); simpl; [apply IH | done].
Qed.

Lemma load_line_more_fields line extra self :
  (3 <= length (split comma line))%nat ->
  load_line pyfloat (line ++ comma :: extra) self = load_line pyfloat line self.
Proof.
  intros H. unfold load_line, index. rewrite split_app.
  rewrite !lookup_app_l by lia. done.
Qed.

Lemma load_line_fields l1 l2 self :
  split comma l1 !! 0%nat = split comma l2 !! 0%nat ->
  split comma l1 !! 1%nat = split comma l2 !! 1%nat ->
  strip <$> split comma l1 !! 2%nat = strip <$> split comma l2 !! 2%nat ->
  load_line pyfloat l1 self = load_line pyfloat l2 self.
Proof.
  intros H0 H1 H2. unfold load_line, index. rewrite H0, H1.
  destruct (split comma l2 !! 0%nat) as [w |]; [| done]. simpl.
  case_decide; [done |].
  destruct (split comma l2 !! 1%nat) as [x1 |]; [| done]. simpl.
  destruct (pyfloat (strip x1)) as [p |]; [| done]. simpl.
  destruct (split comma l1 !! 2%nat) as [x2 |], (split comma l2 !! 2%nat) as [y2 |];
    simpl in H2; try done.
  injection H2 as H2. simpl. by rewrite H2.
Qed.

Lemma load_line_more_fields_eol body eol extra self :
  (3 <= length (split comma body))%nat ->
  eol = [] \/ eol = [10%N] ->
  load_line pyfloat (body ++ comma :: extra ++ eol) self =
  load_line pyfloat (body ++ eol) self.
Proof.
  intros H3 [-> | ->].
  - rewrite !app_nil_r. by apply load_line_more_fields.
  - destruct (split_snoc comma body 10%N) as (ws & w & E & E'); [done |].
    rewrite E, length_app in H3. simpl in H3.
    apply load_line_fields; rewrite split_app, E, E'.
    + rewrite <- !app_assoc, !lookup_app_l by lia. done.
    + rewrite <- !app_assoc, !lookup_app_l by lia. done.
    + destruct (decide (length ws = 2%nat)) as [E2 | N2].
      * rewrite <- app_assoc. rewrite !(lookup_app_r ws) by lia.
        rewrite E2. simpl. by rewrite strip_snoc.
      * rewrite <- !app_assoc, !lookup_app_l by lia. done.
Qed.

Variable fs : pystr -> result text_file.
Variable kind : option Z.

(** X6. After a load, a word is a key of the positive table exactly when
    some retained record of the file has it with a class above zero, a key
    of the negative table exactly when some retained record has it with a
    class below zero, and a key of the polarity table exactly when some
    retained record has it. *)
Theorem table_domains self f :
  lexicon installpath fs kind = Some f ->
  init_dict installpath pyfloat fs kind empty_tables = Ok self ->
  forall w,
    (is_Some (_posdict self !! w) <->
     exists line p s, line ∈ f /\ retained pyfloat line w p s /\
                      SFltb fzero p = true) /\
    (is_Some (_negdict self !! w) <->
     exists line p s, line ∈ f /\ retained pyfloat line w p s /\
                      SFltb p fzero = true) /\
    (is_Some (_poldict self !! w) <->
     exists line p s, line ∈ f /\ retained pyfloat line w p s).
Proof.
  intros Hf H w. rewrite (init_dict_lexicon installpath pyfloat fs kind _ _ Hf) in H.
  split_and!.
  - destruct (load_lines_pos pyfloat f _ _ w H) as [[Hr E] | [Hno E]]; rewrite E.
    + split; [done | by eexists].
    + split; [by intros [? ?] |].
      intros (line & p & s & Hi & Hr & Hp). by rewrite (Hno _ _ _ Hi Hr) in Hp.
  - destruct (load_lines_neg pyfloat f _ _ w H) as [[Hr E] | [Hno E]]; rewrite E.
    + split; [done | by eexists].
    + split; [by intros [? ?] |].
      intros (line & p & s & Hi & Hr & Hp). by rewrite (Hno _ _ _ Hi Hr) in Hp.
  - destruct (load_lines_pol pyfloat f _ _ w H)
      as [(f1 & line & f2 & p & s & -> & Hr & _ & E) | [Hno E]]; rewrite E.
    + split; [| by eexists]. intros _. exists line, p, s.
      split; [| done]. apply elem_of_app. right. apply list_elem_of_here.
    + split; [by intros [? ?] |].
      intros (line & p & s & Hi & Hr). by destruct (Hno _ _ _ Hi Hr).
Qed.

(** X7. After a load, no key of the three tables is the string [word],
    and no key contains a comma. *)
Theorem key_shape self w :
  init_dict installpath pyfloat fs kind empty_tables = Ok self ->
  is_Some (_posdict self !! w) \/ is_Some (_negdict self !! w) \/
  is_Some (_poldict self !! w) ->
  w <> str "word" /\ comma ∉ w.
Proof.
  intros H Hk. apply init_dict_Ok in H as (f & _ & H).
  destruct (loaded_tables pyfloat self f w H) as (Hp & Hn & Hv).
  assert (exists line p s, record pyfloat line w p s) as (line & p & s & Hr).
  { destruct Hk as [[v E] | [[v E] | [v E]]].
    - destruct (Hp v E) as (_ & line & p & s & _ & [Hr _] & _). by exists line, p, s.
    - destruct (Hn v E) as (_ & line & p & s & _ & [Hr _] & _). by exists line, p, s.
    - destruct (Hv v E) as (_ & line & _ & p & _ & [Hr _] & _). by exists line, p, v. }
  destruct Hr as (f1 & f2 & H0 & Hw & _). split; [done |].
  apply (split_no_sep comma line). by eapply list_elem_of_lookup_2.
Qed.

(** X8. The load returns exactly when the lexicon file opens, the
    iteration over it reaches its end without an exception of the file (a
    decoding or an I/O error), and each of its lines is a header line or
    has a word and two numeric fields. *)
Theorem load_succeeds self :
  (exists self', init_dict installpath pyfloat fs kind self = Ok self') <->
  exists file,
    fs (lexicon_path installpath kind) = Ok file /\
    file_error file = None /\
    Forall (well_formed pyfloat) (file_lines file).
Proof.
  rewrite init_dict_path. split.
  - intros [self' H]. destruct (fs _) as [file | e]; [| done]. simpl in H.
    exists file. split; [done |].
    destruct (load_lines pyfloat (file_lines file) self) as [s |] eqn:E; [| done].
    simpl in H. split; [by destruct (file_error file) |].
    apply (load_lines_succeeds (file_lines file) self). by eexists.
  - intros (file & -> & He & Hw). simpl.
    apply (load_lines_succeeds (file_lines file) self) in Hw as [s ->].
    simpl. rewrite He. by eexists.
Qed.

(** X9. A header line is skipped wherever it stands in the file: a file
    and the same file without its header lines load to the same outcome,
    tables or exception. *)
Theorem header_lines_skipped fs' self f :
  lexicon installpath fs kind = Some f ->
  lexicon installpath fs' kind = Some (filter (fun line => ~ header line) f) ->
  init_dict installpath pyfloat fs' kind self =
  init_dict installpath pyfloat fs kind self.
Proof.
  intros Hf Hf'.
  rewrite (init_dict_lexicon installpath pyfloat fs' kind _ _ Hf').
  rewrite (init_dict_lexicon installpath pyfloat fs kind _ _ Hf).
  apply load_lines_no_header.
Qed.

(** X10. Fields after the third are ignored: a file loads to the same
    outcome when a comma and any text are put at the end of one of its
    lines that has three fields or more, before the newline of the line if
    it has one. *)
Theorem more_fields_ignored fs' self f1 body eol f2 extra :
  (3 <= length (split comma body))%nat ->
  eol = [] \/ eol = [10%N] ->
  lexicon installpath fs kind = Some (f1 ++ (body ++ eol) :: f2) ->
  lexicon installpath fs' kind =
    Some (f1 ++ (body ++ comma :: extra ++ eol) :: f2) ->
  init_dict installpath pyfloat fs' kind self =
  init_dict installpath pyfloat fs kind self.
Proof.
  intros H3 He Hf Hf'.
  rewrite (init_dict_lexicon installpath pyfloat fs' kind _ _ Hf').
  rewrite (init_dict_lexicon installpath pyfloat fs kind _ _ Hf).
  rewrite !load_lines_app. destruct (load_lines pyfloat f1 self); [| done].
  simpl. by rewrite load_line_more_fields_eol.
Qed.


End LoaderLoop.

(** ** The constructor *)

Section Constructor.
Variable installpath : pystr.
Variable pyfloat : pystr -> option float.
Variable tokenizer : Type.
Variable MPTokenizer : option Z -> gmap pystr float -> result tokenizer.
Variable tokenizer_tokenize : tokenizer -> pystr -> result (list pystr).
Variable fs : pystr -> result text_file.

Local Abbreviation construct debug :=
  (__init__ installpath pyfloat tokenizer MPTokenizer debug fs).
Local Abbreviation load := (init_dict installpath pyfloat fs).

Lemma size_pos {A} (m : gmap pystr A) : (0 <? size m)%nat = true <-> m <> ∅.
Proof.
  rewrite Nat.ltb_lt. split.
  - intros H ->. rewrite map_size_empty in H. lia.
  - intros H. destruct (size m) eqn:E; [| lia]. by apply map_size_empty_iff in E.
Qed.

Lemma py_assert_Ok debug cond :
  py_assert debug cond = Ok tt <-> (debug = true -> cond = true).
Proof.
  unfold py_assert. destruct debug, cond; simpl; split; try done.
  - intros H. by specialize (H eq_refl).
Qed.

Lemma construct_Ok debug tok kind d :
  construct debug tok kind = Ok d ->
  exists self tk,
    load kind empty_tables = Ok self /\
    match tok with
    | Some t => tk = t
    | None => MPTokenizer kind (_poldict self) = Ok tk
    end /\
    (debug = true -> _posdict self <> ∅ /\ _negdict self <> ∅) /\
    d = {| _tables := self; _tokenizer := tk |}.
Proof.
  unfold __init__, init_tokenizer. intros H.
  apply bind_Ok in H as (self & Hl & H).
  apply bind_Ok in H as (tk & Ht & H).
  apply bind_Ok in H as ([] & Ha & H).
  simplify_eq. exists self, tk. split_and!; try done.
  - destruct tok; by simplify_eq.
  - intros Hd. pose proof (proj1 (py_assert_Ok _ _) Ha Hd) as Hc.
    apply andb_prop in Hc as [H1 H2]. by apply size_pos in H1, H2.
Qed.

(** X12. Construction returns a dictionary exactly when the load returns,
    the tokenizer, if none is supplied, is built without error from the
    [kind] as given and the polarity table as loaded, and, when assertions
    are enabled, neither count table is empty. The dictionary then holds
    the loaded tables and the supplied or built tokenizer, to which
    [tokenize] hands the text. *)
Theorem construct_returns debug tok kind d :
  construct debug tok kind = Ok d <->
  exists self tk,
    load kind empty_tables = Ok self /\
    match tok with
    | Some t => tk = t
    | None => MPTokenizer kind (_poldict self) = Ok tk
    end /\
    (debug = true -> _posdict self <> ∅ /\ _negdict self <> ∅) /\
    d = {| _tables := self; _tokenizer := tk |} /\
    forall text, tokenize tokenizer tokenizer_tokenize d text =
                 tokenizer_tokenize tk text.
Proof.
  split.
  - intros H. apply construct_Ok in H as (self & tk & Hl & Ht & Hp & ->).
    by exists self, tk.
  - unfold __init__, init_tokenizer.
    intros (self & tk & Hl & Ht & Hp & -> & _). rewrite Hl. simpl.
    assert (E : match tok with
                | Some tk => Ok tk
                | None => MPTokenizer kind (_poldict self)
                end = Ok tk) by (destruct tok; by subst).
    rewrite E. simpl.
    assert (Ea : py_assert debug ((0 <? size (_posdict self))%nat &&
                                  (0 <? size (_negdict self))%nat) = Ok tt).
    { apply py_assert_Ok. intros Hd. destruct (Hp Hd) as [H1 H2].
      apply size_pos in H1, H2. by rewrite H1, H2. }
    by rewrite Ea.
Qed.

(** X13. The failures of construction, in their order: construction
    raises [e] exactly when the load raises [e], whatever the tokenizer;
    or the load returns, no tokenizer is supplied and building one raises
    [e], whatever the tables hold; or the load returns, the tokenizer is
    there, assertions are enabled, a count table is empty and [e] is
    [AssertionError]. *)
Theorem construct_raises debug tok kind e :
  construct debug tok kind = Raise e <->
  load kind empty_tables = Raise e \/
  (exists self,
     load kind empty_tables = Ok self /\ tok = None /\
     MPTokenizer kind (_poldict self) = Raise e) \/
  (exists self,
     load kind empty_tables = Ok self /\
     (tok = None -> exists tk, MPTokenizer kind (_poldict self) = Ok tk) /\
     debug = true /\ (_posdict self = ∅ \/ _negdict self = ∅) /\
     e = AssertionError).
Proof.
  unfold __init__, init_tokenizer, py_assert.
  destruct (load kind empty_tables) as [self | e0]; simpl.
  2: { split; [intros ?; left; congruence |].
       intros [? | [(? & ? & _) | (? & ? & _)]]; congruence. }
  destruct tok as [t |]; simpl.
  - destruct debug; simpl.
    + destruct (0 <? size (_posdict self))%nat eqn:E1;
        [destruct (0 <? size (_negdict self))%nat eqn:E2 |]; simpl.
      * split; [done |]. apply size_pos in E1, E2.
        intros [? | [(? & ? & ? & _) | (s & Hs & _ & _ & He & _)]]; try done.
        simplify_eq. by destruct He.
      * split.
        -- intros ?. simplify_eq. right. right. exists self.
           split_and!; try done. right.
           destruct (size (_negdict self)) eqn:Es; [| done].
           by apply map_size_empty_iff in Es.
        -- intros [? | [(? & ? & ? & _) | (s & Hs & _ & _ & _ & ->)]]; done.
      * split.
        -- intros ?. simplify_eq. right. right. exists self.
           split_and!; try done. left.
           destruct (size (_posdict self)) eqn:Es; [| done].
           by apply map_size_empty_iff in Es.
        -- intros [? | [(? & ? & ? & _) | (s & Hs & _ & _ & _ & ->)]]; done.
    + split; [done |].
      intros [? | [(? & ? & ? & _) | (s & _ & _ & ? & _)]]; done.
  - destruct (MPTokenizer kind (_poldict self)) as [tk | e1] eqn:Et; simpl.
    + destruct debug; simpl.
      * destruct (0 <? size (_posdict self))%nat eqn:E1;
          [destruct (0 <? size (_negdict self))%nat eqn:E2 |]; simpl.
        -- split; [done |]. apply size_pos in E1, E2.
           intros [? | [(s & Hs & _ & Hr) | (s & Hs & _ & _ & He & _)]];
             try done; simplify_eq; [congruence | by destruct He].
        -- split.
           ++ intros ?. simplify_eq. right. right. exists self.
              split_and!; try done; [by eexists |]. right.
              destruct (size (_negdict self)) eqn:Es; [| done].
              by apply map_size_empty_iff in Es.
           ++ intros [? | [(s & Hs & _ & Hr) | (s & Hs & _ & _ & _ & ->)]];
                try done. simplify_eq. congruence.
        -- split.
           ++ intros ?. simplify_eq. right. right. exists self.
              split_and!; try done; [by eexists |]. left.
              destruct (size (_posdict self)) eqn:Es; [| done].
              by apply map_size_empty_iff in Es.
           ++ intros [? | [(s & Hs & _ & Hr) | (s & Hs & _ & _ & _ & ->)]];
                try done. simplify_eq. congruence.
      * split; [done |].
        intros [? | [(s & Hs & _ & Hr) | (s & _ & _ & ? & _)]]; try done.
        simplify_eq. congruence.
    + split.
      * intros ?. simplify_eq. right. left. by exists self.
      * intros [? | [(s & Hs & _ & Hr) | (s & Hs & Htk & _)]]; try done.
        -- simplify_eq. congruence.
        -- simplify_eq. destruct (Htk eq_refl) as [tk ?]. congruence.
Qed.

(** X14. When [float] yields doubles, a constructed dictionary scores
    every list of fewer than [2 ^ 63] tokens without an exception, in
    either mode, with assertions enabled or not. *)
Theorem constructed_scores debug tok kind d terms by_count :
  (forall x v, pyfloat x = Some v -> valid v) ->
  construct debug tok kind = Ok d ->
  Z.of_nat (length terms) < 2 ^ 63 ->
  exists r, get_score (_tables d) terms by_count = Ok r.
Proof.
  intros Hv Hc Hlen.
  apply construct_Ok in Hc as (self & tk & Hl & _ & _ & ->).
  simpl. apply (init_dict_wf installpath pyfloat fs kind self Hv) in Hl.
  destruct by_count.
  - destruct (by_count_eval self terms count_signed Hl Hlen) as (_ & E & _).
    eexists. apply E.
  - destruct (by_polarity_eval self terms count_signed Hl Hlen)
      as (P & N & PN & nf & _ & _ & _ & _ & _ & _ & _ & E & _).
    eexists. apply E.
Qed.

End Constructor.

(** ** Scores by count *)

Lemma sum_from_int l : forall a,
  Forall is_int l -> sum_from (PyInt a) l = Ok (PyInt (a + zsum l)).
Proof.
  induction l as [| s l IH]; intros a H; simpl.
  - f_equal. f_equal. lia.
  - apply Forall_cons in H as [Hs Hl]. destruct s as [z |]; [| done].
    simpl. rewrite IH by done. f_equal. f_equal. lia.
Qed.

Lemma zsum_perm l l' : l ≡ₚ l' -> zsum l = zsum l'.
Proof.
  induction 1 as [| s l l' _ IH | s1 s2 l | l1 l2 l3 _ IH1 _ IH2]; simpl.
  - done.
  - destruct s; lia.
  - destruct s1, s2; lia.
  - lia.
Qed.

Lemma scores_count_int self terms : Forall is_int (scores self terms true).
Proof.
  apply Forall_forall. intros s Hs. unfold scores in Hs.
  apply list_elem_of_fmap in Hs as (t & -> & _). unfold _get_score.
  destruct (_posdict self !! t); [done |]. by destruct (_negdict self !! t).
Qed.

Lemma sum_count_filter self terms (Q : num -> Prop) `{forall s, Decision (Q s)} :
  sum (filter Q (scores self terms true)) =
  Ok (PyInt (zsum (filter Q (scores self terms true)))).
Proof.
  unfold sum. rewrite sum_from_int; [done |].
  apply Forall_forall. intros s Hs. apply list_elem_of_filter in Hs as [_ Hs].
  revert s Hs. apply Forall_forall. apply scores_count_int.
Qed.

(** X15. By count, the score of a list of tokens does not depend on their
    order: two lists that are permutations of each other have the same
    outcome, whatever the tables. *)
Theorem by_count_permutation self terms terms' :
  terms ≡ₚ terms' ->
  get_score self terms true = get_score self terms' true.
Proof.
  intros Hp. unfold get_score. cbv zeta.
  change ((fun t => _get_score self t true) <$> terms) with (scores self terms true).
  change ((fun t => _get_score self t true) <$> terms') with (scores self terms' true).
  assert (Hl : scores self terms true ≡ₚ scores self terms' true)
    by (unfold scores; by apply fmap_Permutation).
  rewrite !sum_count_filter.
  assert (E1 : zsum (filter (fun s => py_gt0 s = true) (scores self terms true)) =
               zsum (filter (fun s => py_gt0 s = true) (scores self terms' true)))
    by (apply zsum_perm; by rewrite Hl).
  assert (E2 : zsum (filter (fun s => py_lt0 s = true) (scores self terms true)) =
               zsum (filter (fun s => py_lt0 s = true) (scores self terms' true)))
    by (apply zsum_perm; by rewrite Hl).
  assert (E3 : length (filter (fun s => py_gt0 s = true) (scores self terms true)) =
               length (filter (fun s => py_gt0 s = true) (scores self terms' true)))
    by (apply Permutation_length; by rewrite Hl).
  assert (E4 : length (filter (fun s => py_lt0 s = true) (scores self terms true)) =
               length (filter (fun s => py_lt0 s = true) (scores self terms' true)))
    by (apply Permutation_length; by rewrite Hl).
  assert (E5 : length (scores self terms true) = length (scores self terms' true))
    by (by apply Permutation_length).
  unfold len. rewrite E1, E2, E3, E4, E5. done.
Qed.

(** *** Division of zero, and quotients away from zero *)

Lemma fdiv_zero den :
  is_finite den = true -> (0 < SF2R den)%R -> fdiv fzero den = fzero.
Proof.
  intros F H. destruct den as [s | s | | s m e]; try done.
  - simpl in H. lra.
  - destruct s; [| done]. exfalso.
    rewrite SF2R_finite in H. simpl cond_Zopp in H.
    assert (0 < F2R (Z.pos m) e)%R by (by apply F2R_pos).
    unfold F2R in *. change (Z.neg m) with (- Z.pos m) in H.
    rewrite opp_IZR in H. lra.
Qed.

Lemma fl_0 : fl 0 = fzero.
Proof. reflexivity. Qed.

Lemma ftiny_ok :
  valid ftiny /\ is_finite ftiny = true /\ SF2R ftiny = (/ IZR (2 ^ 54))%R.
Proof.
  split_and!; [done | done |]. unfold ftiny. rewrite SF2R_finite. simpl cond_Zopp.
  change 4503599627370496 with (2 ^ 52). rewrite F2R_bpow by lia.
  change (52 + -106) with (Z.opp 54). rewrite (bpow_opp 54), (bpow_IZR 54) by lia. done.
Qed.

Lemma fneg_tiny_ok :
  valid fneg_tiny /\ is_finite fneg_tiny = true /\
  SF2R fneg_tiny = (- / IZR (2 ^ 54))%R.
Proof.
  split_and!; [done | done |]. destruct ftiny_ok as (_ & _ & E). rewrite <- E.
  unfold fneg_tiny, ftiny. rewrite !SF2R_finite. simpl cond_Zopp.
  unfold F2R. change (Z.neg 4503599627370496) with (- Z.pos 4503599627370496).
  rewrite opp_IZR. ring.
Qed.

Lemma above_tiny f : SFleb ftiny f = true -> SFltb fzero f = true.
Proof. destruct f as [[] | [] | | [] m e]; done. Qed.

Lemma below_neg_tiny f : SFleb f fneg_tiny = true -> SFltb f fzero = true.
Proof. destruct f as [[] | [] | | [] m e]; done. Qed.

Lemma den_upper n :
  0 <= n < 2 ^ 53 ->
  (IZR n <= SF2R (fadd (fl n) EPSILON) <= IZR n + 1)%R.
Proof.
  intros Hn.
  destruct (den_ok n ltac:(lia)) as (_ & _ & _ & _ & _ & Hlo).
  split; [apply Hlo; lia |].
  destruct (fl_ok n ltac:(lia)) as (_ & V & F & _ & E).
  destruct (fl_ok (n + 1) ltac:(lia)) as (_ & V1 & F1 & _ & E1).
  specialize (E ltac:(lia)). specialize (E1 ltac:(lia)).
  destruct EPSILON_ok as (Ve & Fe & He).
  destruct (fadd_srounds (fl n) EPSILON V Ve F Fe) as [_ S].
  rewrite plus_IZR in E1.
  destruct (S (fl n) (fl (n + 1)) V V1 F F1) as [_ ?]; lra.
Qed.

(** A quotient of an integer by a denominator [fadd (fl d) EPSILON]: zero,
    positive or negative as the integer is. *)
Lemma quotient_sign x d :
  0 <= d < 2 ^ 53 -> Z.abs x <= d ->
  let r := fdiv (fl x) (fadd (fl d) EPSILON) in
  (x = 0 -> r = fzero) /\
  (0 < x -> SFltb fzero r = true) /\
  (x < 0 -> SFltb r fzero = true).
Proof.
  intros Hd Hx r.
  destruct (den_ok d ltac:(lia)) as (_ & Vd & Fd & _ & Pd & _).
  destruct (den_upper d Hd) as [Dl Du].
  assert (H53 : 2 ^ 53 = 9007199254740992) by reflexivity.
  assert (Dd : (IZR d + 1 <= 9007199254740992)%R).
  { rewrite <- plus_IZR. apply IZR_le. lia. }
  destruct (fl_ok x ltac:(lia)) as (_ & Vx & Fx & _ & Ex).
  specialize (Ex ltac:(lia)).
  destruct fone_ok as (V1 & F1 & E1). destruct fneg_one_ok as (Vn & Fn & En).
  destruct ftiny_ok as (Vt & Ft & Et). destruct fneg_tiny_ok as (Vm & Fm & Em).
  change (2 ^ 54) with 18014398509481984 in Et, Em.
  assert (Xd : (- IZR d <= IZR x <= IZR d)%R).
  { rewrite <- opp_IZR. split; apply IZR_le; lia. }
  split_and!.
  - intros ->. subst r. rewrite fl_0. by apply fdiv_zero.
  - intros Hpos. apply above_tiny.
    assert (1 <= IZR x)%R by (apply IZR_le; lia).
    apply (fdiv_between (fl x) _ ftiny fone); try done.
    rewrite Et, E1, Ex. lra.
  - intros Hneg. apply below_neg_tiny.
    assert (IZR x <= -1)%R by (apply IZR_le; lia).
    apply (fdiv_between (fl x) _ fneg_one fneg_tiny); try done.
    rewrite Em, En, Ex. lra.
Qed.

Lemma filter_fmap_length {A B} (f : A -> B) (Q : B -> Prop)
    `{forall y, Decision (Q y)} (l : list A) :
  length (filter Q (f <$> l)) = length (filter (fun x => Q (f x)) l).
Proof.
  induction l as [| a l IH]; [done |].
  rewrite fmap_cons, !filter_cons.
  destruct (decide (Q (f a))); cbn [length]; by rewrite IH.
Qed.

(** X16. By count, with tables as the loader builds them and fewer than
    [2 ^ 53] tokens, of which [p] have a positive and [q] a negative score: Positive
    is [p], Negative is [-q], Polarity is [0.0] when [p = q], above zero
    when [p > q] and below zero when [p < q]; Subjectivity is [0.0] when no
    token has a score and above zero otherwise. *)
Theorem by_count_signs self terms :
  wf_tables self -> Z.of_nat (length terms) < 2 ^ 53 ->
  exists p q pol sub,
    get_score self terms true =
      Ok {| Positive := PyInt p; Negative := PyInt (- q);
            Polarity := PyFloat pol; Subjectivity := PyFloat sub |} /\
    p = Z.of_nat (length (filter (fun t => py_gt0 (_get_score self t true) = true) terms)) /\
    q = Z.of_nat (length (filter (fun t => py_lt0 (_get_score self t true) = true) terms)) /\
    (p = q -> pol = fzero) /\
    (q < p -> SFltb fzero pol = true) /\
    (p < q -> SFltb pol fzero = true) /\
    (p + q = 0 -> sub = fzero) /\
    (0 < p + q -> SFltb fzero sub = true).
Proof.
  intros W Hlen.
  destruct (by_count_eval self terms count_signed W ltac:(lia)) as (Hpq & E & _).
  set (l := scores self terms true) in *.
  assert (Hp : length (filter (fun s => py_gt0 s = true) l) =
               length (filter (fun t => py_gt0 (_get_score self t true) = true) terms)).
  { unfold l, scores. apply filter_fmap_length. }
  assert (Hq : length (filter (fun s => py_lt0 s = true) l) =
               length (filter (fun t => py_lt0 (_get_score self t true) = true) terms)).
  { unfold l, scores. apply filter_fmap_length. }
  set (p := Z.of_nat (length (filter (fun s => py_gt0 s = true) l))) in *.
  set (q := Z.of_nat (length (filter (fun s => py_lt0 s = true) l))) in *.
  assert (0 <= p /\ 0 <= q) as [Hp0 Hq0] by (unfold p, q; lia).
  exists p, q. eexists _, _. split; [apply E |].
  split; [unfold p; by rewrite Hp |]. split; [unfold q; by rewrite Hq |].
  destruct (quotient_sign (p - q) (p + q) ltac:(lia) ltac:(lia)) as (Z1 & P1 & N1).
  destruct (quotient_sign (p + q) (Z.of_nat (length terms)) ltac:(lia) ltac:(lia))
    as (Z2 & P2 & _).
  split_and!.
  - intros Epq. apply Z1. lia.
  - intros Hlt. apply P1. lia.
  - intros Hlt. apply N1. lia.
  - intros E0. by apply Z2.
  - intros Hlt. by apply P2.
Qed.

(** ** Tokens without a score *)

Lemma no_signed_scores l :
  (forall s, s ∈ l -> s = PyInt 0) ->
  filter (fun s => py_gt0 s = true) l = [] /\
  filter (fun s => py_lt0 s = true) l = [].
Proof.
  intros H. induction l as [| s l IH]; [done |].
  assert (s = PyInt 0) as -> by (apply H; apply list_elem_of_here).
  rewrite !filter_cons. simpl.
  apply IH. intros s Hs. apply H. by apply list_elem_of_further.
Qed.

(** X17. Unknown tokens: when no token of a list of fewer than [2 ^ 63]
    is a key of the tables that the mode consults (the positive and the
    negative table by count, the polarity table by polarity), Positive and
    Negative are [0] and Polarity and Subjectivity are [0.0], whatever the
    tables hold. *)
Theorem unknown_tokens (self : tables) (terms : list pystr) (by_count : bool) :
  Z.of_nat (length terms) < 2 ^ 63 ->
  (forall t, t ∈ terms ->
     if by_count then _posdict self !! t = None /\ _negdict self !! t = None
     else _poldict self !! t = None) ->
  get_score self terms by_count =
  Ok {| Positive := PyInt 0; Negative := PyInt 0;
        Polarity := PyFloat fzero; Subjectivity := PyFloat fzero |}.
Proof.
  intros Hlen Hu.
  assert (H0 : forall s, s ∈ scores self terms by_count -> s = PyInt 0).
  { intros s Hs. unfold scores in Hs.
    apply list_elem_of_fmap in Hs as (t & -> & Ht). specialize (Hu t Ht).
    unfold _get_score. destruct by_count.
    - destruct Hu as [-> ->]. done.
    - by rewrite Hu. }
  destruct (no_signed_scores _ H0) as [Ep En].
  set (dz := if by_count then 0 else Z.of_nat (length terms)).
  assert (Hdz : 0 <= dz <= 2 ^ 63) by (unfold dz; destruct by_count; lia).
  rewrite (get_score_eval self terms by_count (PyInt 0) (PyInt 0) (PyInt 0)
             fzero dz); try done.
  - unfold evaluated. rewrite Ep, En. simpl length. simpl Z.add.
    destruct (den_ok dz Hdz) as (_ & _ & F1 & _ & P1 & _).
    destruct (den_ok (Z.of_nat (length terms)) ltac:(lia)) as (_ & _ & F2 & _ & P2 & _).
    change (Z.of_nat 0 + Z.of_nat 0) with 0. rewrite fl_0, !fdiv_zero by done. done.
  - lia.
  - by rewrite Ep.
  - by rewrite En.
  - unfold dz. by destruct by_count.
Qed.

(** X18. A token without a score by count changes neither Positive, nor
    Negative, nor Polarity by count: with tables as the loader builds them,
    a list and the list with such a token added have these three in
    common. *)
Theorem by_count_neutral_token self t terms :
  wf_tables self -> Z.of_nat (length (t :: terms)) < 2 ^ 63 ->
  _posdict self !! t = None -> _negdict self !! t = None ->
  exists r r',
    get_score self terms true = Ok r /\
    get_score self (t :: terms) true = Ok r' /\
    Positive r' = Positive r /\ Negative r' = Negative r /\
    Polarity r' = Polarity r.
Proof.
  intros W Hlen Hp Hn.
  assert (Hlen' : Z.of_nat (length terms) < 2 ^ 63) by (simpl length in Hlen; lia).
  destruct (by_count_eval self terms count_signed W Hlen') as (_ & E & _).
  destruct (by_count_eval self (t :: terms) count_signed W Hlen) as (_ & E' & _).
  eexists _, _. split; [apply E |]. split; [apply E' |].
  assert (Es : scores self (t :: terms) true = PyInt 0 :: scores self terms true).
  { unfold scores. rewrite fmap_cons. unfold _get_score at 1. by rewrite Hp, Hn. }
  rewrite Es. rewrite !filter_cons. simpl. done.
Qed.

(** X19. By count, Positive and Negative add up over concatenation: with
    tables as the loader builds them, those of [a ++ b] are the sums of
    those of [a] and of [b]. *)
Theorem by_count_append self a b :
  wf_tables self -> Z.of_nat (length (a ++ b)) < 2 ^ 63 ->
  exists pa na pb nb ra rb r,
    get_score self a true = Ok ra /\ get_score self b true = Ok rb /\
    get_score self (a ++ b) true = Ok r /\
    Positive ra = PyInt pa /\ Negative ra = PyInt na /\
    Positive rb = PyInt pb /\ Negative rb = PyInt nb /\
    Positive r = PyInt (pa + pb) /\ Negative r = PyInt (na + nb).
Proof.
  intros W Hlen. rewrite length_app in Hlen.
  destruct (by_count_eval self a count_signed W ltac:(lia)) as (_ & Ea & _).
  destruct (by_count_eval self b count_signed W ltac:(lia)) as (_ & Eb & _).
  destruct (by_count_eval self (a ++ b) count_signed W
              ltac:(rewrite length_app; lia)) as (_ & E & _).
  eexists _, _, _, _, _, _, _. split; [apply Ea |]. split; [apply Eb |].
  split; [apply E |]. split; [done |]. split; [done |].
  split; [done |]. split; [done |].
  unfold scores. rewrite fmap_app, !filter_app, !length_app. simpl.
  split; f_equal; lia.
Qed.

(** ** Sums of polarities *)

Lemma binary_round_shape sx mx ex b :
  valid b -> is_finite b = true -> (mag b <= F2R (Zpos mx) ex)%R ->
  binary_round prec emax sx mx ex = S754_infinity sx \/
  (is_finite (binary_round prec emax sx mx ex) = true /\
   sign (binary_round prec emax sx mx ex) = sx /\
   (mag b <= mag (binary_round prec emax sx mx ex))%R).
Proof.
  intros Vb Fb Hb. unfold binary_round.
  change (Z.pos (digits2_pos mx)) with (Zdigits2 (Zpos mx)).
  set (et := SpecFloat.fexp prec emax (Zdigits2 (Z.pos mx) + ex)).
  assert (H : exists mz ez, shl_align mx ex et = (mz, ez) /\
            F2R (Zpos mz) ez = F2R (Zpos mx) ex /\
            ez <= fexp (Zdigits2 (Zpos mz) + ez)).
  { unfold shl_align. destruct (et - ex) as [| p | p] eqn:E.
    - exists mx, ex. split_and!; [done | done | fold et; lia].
    - exists mx, ex. split_and!; [done | done | fold et; lia].
    - exists (Pos.iter xO mx p), et.
      assert (Es : Zpos (Pos.iter xO mx p) = Zpos mx * 2 ^ (ex - et))
        by (rewrite pos_iter_xO; f_equal; f_equal; lia).
      split_and!; [done | |].
      + rewrite Es, F2R_shift by lia. f_equal. lia.
      + rewrite Es, Zdigits2_shift by lia.
        replace (Zdigits2 (Z.pos mx) + (ex - et) + et) with (Zdigits2 (Z.pos mx) + ex) by lia.
        fold et. lia. }
  destruct H as (mz & ez & -> & Ev & Hp). rewrite <- Ev in Hb.
  assert (Hl : loc_ok (Zpos mz) loc_Exact (F2R (Zpos mz) ez * bpow (- ez))).
  { simpl. unfold F2R. rewrite Rmult_assoc, <- bpow_add, Z.add_opp_diag_r, bpow_0. ring. }
  assert (Hm : 0 <= Zpos mz) by lia.
  destruct (bra_cases sx _ _ _ _ Hm Hp Hl) as [Hc | [Hf Hs]]; [by left | right].
  split; [done |]. split; [done |].
  by apply (bra_lo sx _ _ _ _ Hm Hp Hl b).
Qed.

Lemma fadd_same_sign s mx ex my ey :
  valid (S754_finite s my ey) ->
  let r := fadd (S754_finite s mx ex) (S754_finite s my ey) in
  r = S754_infinity s \/ exists m e, r = S754_finite s m e.
Proof.
  intros Vy r.
  assert (Hr : r = binary_round prec emax s
                 (fst (shl_align mx ex (Z.min ex ey)) + fst (shl_align my ey (Z.min ex ey)))
                 (Z.min ex ey)).
  { unfold r. cbn [SFadd]. by destruct s. }
  assert (Hb : (mag (S754_finite s my ey) <=
                F2R (Zpos (fst (shl_align mx ex (Z.min ex ey)) +
                           fst (shl_align my ey (Z.min ex ey)))) (Z.min ex ey))%R).
  { rewrite Pos2Z.inj_add, F2R_add, !shl_align_le by lia. simpl.
    pose proof (F2R_pos (Zpos mx) ex ltac:(lia)). lra. }
  destruct (binary_round_shape s _ _ _ Vy eq_refl Hb) as [E | (Hf & Hs & Hm)];
    rewrite <- Hr in *; [by left | right].
  assert (0 < mag r)%R.
  { eapply Rlt_le_trans; [| apply Hm]. simpl. apply F2R_pos. lia. }
  clearbody r. destruct r as [| | | s' m e]; simpl in *; try done; try lra.
  subst s'. by exists m, e.
Qed.

Lemma fadd_pos x y : valid y -> fpos x -> fpos y -> fpos (fadd x y).
Proof.
  unfold fpos. intros Vy Hx Hy.
  destruct x as [[] | [] | | [] mx ex]; try done;
    destruct y as [[] | [] | | [] my ey]; try done.
  destruct (fadd_same_sign false mx ex my ey Vy) as [-> | (m & e & ->)]; done.
Qed.

Lemma fadd_neg x y : valid y -> fneg x -> fneg y -> fneg (fadd x y).
Proof.
  unfold fneg. intros Vy Hx Hy.
  destruct x as [[] | [] | | [] mx ex]; try done;
    destruct y as [[] | [] | | [] my ey]; try done.
  destruct (fadd_same_sign true mx ex my ey Vy) as [-> | (m & e & ->)]; done.
Qed.

(** A sum of doubles that all satisfy [Q], a property addition keeps. *)
Lemma sum_from_signed (Q : float -> Prop) l :
  (forall x y, valid y -> Q x -> Q y -> Q (fadd x y)) ->
  (forall y, Q y -> fadd fzero y = y) ->
  Forall (fun s => exists f, s = PyFloat f /\ valid f /\ Q f) l ->
  forall a, a = PyInt 0 \/ (exists f, a = PyFloat f /\ Q f) ->
  exists r, sum_from a l = Ok r /\
            (a = PyInt 0 /\ l = [] /\ r = PyInt 0 \/ exists f, r = PyFloat f /\ Q f).
Proof.
  intros Hadd Hz. induction 1 as [| s l (f & -> & Vf & Qf) _ IH]; intros a Ha; simpl.
  - exists a. split; [done |]. destruct Ha as [-> | ?]; [by left | by right].
  - assert (exists g, py_add a (PyFloat f) = Ok (PyFloat g) /\ Q g) as (g & -> & Qg).
    { destruct Ha as [-> | (x & -> & Qx)].
      - exists f. split; [| done].
        change (py_add (PyInt 0) (PyFloat f)) with (Ok (PyFloat (fadd fzero f))).
        by rewrite Hz.
      - exists (fadd x f). split; [done |]. by apply Hadd. }
    simpl. destruct (IH (PyFloat g)) as (r & -> & Hr); [right; by exists g |].
    exists r. split; [done |]. right.
    destruct Hr as [(? & _) | ?]; [done | done].
Qed.

(** X20. By polarity, with tables as the loader builds them and fewer than
    [2 ^ 63] tokens: Positive is the integer [0] when no token has a
    polarity above zero, and otherwise a double above zero; Negative is the
    integer [0] when no token has a polarity below zero, and otherwise a
    double below zero. Neither is a NaN. *)
Theorem by_polarity_signs self terms :
  wf_tables self -> Z.of_nat (length terms) < 2 ^ 63 ->
  exists r,
    get_score self terms false = Ok r /\
    ((forall t, t ∈ terms -> py_gt0 (_get_score self t false) = false) ->
     Positive r = PyInt 0) /\
    ((exists t, t ∈ terms /\ py_gt0 (_get_score self t false) = true) ->
     exists f, Positive r = PyFloat f /\ SFltb fzero f = true) /\
    ((forall t, t ∈ terms -> py_lt0 (_get_score self t false) = false) ->
     Negative r = PyInt 0) /\
    ((exists t, t ∈ terms /\ py_lt0 (_get_score self t false) = true) ->
     exists f, Negative r = PyFloat f /\ SFltb f fzero = true).
Proof.
  intros W Hlen.
  destruct (by_polarity_eval self terms count_signed W Hlen)
    as (P & N & PN & nf & HP & _ & HN & _ & _ & _ & _ & E & _).
  set (l := scores self terms false) in *.
  assert (Hel : forall (Q : num -> Prop) `{forall s, Decision (Q s)} (R : float -> Prop),
            (forall f, Q (PyFloat f) -> R f) -> (Q (PyInt 0) -> False) ->
            Forall (fun s => exists f, s = PyFloat f /\ valid f /\ R f) (filter Q l)).
  { intros Q ? R HQ H0. apply Forall_forall. intros s Hs.
    apply list_elem_of_filter in Hs as [Hq Hs]. unfold l, scores in Hs.
    apply list_elem_of_fmap in Hs as (t & -> & _).
    destruct (polarity_score self t W) as [E0 | (f & Ef & Vf)].
    - rewrite E0 in Hq. by destruct H0.
    - rewrite Ef in *. exists f. split; [done |]. split; [done |]. by apply HQ. }
  assert (Hemp : forall (Q : num -> Prop) `{forall s, Decision (Q s)},
            filter Q l = [] <-> forall t, t ∈ terms -> ~ Q (_get_score self t false)).
  { intros Q ?. split.
    - intros Ef t Ht Hq.
      assert (Hin : _get_score self t false ∈ filter Q l).
      { apply list_elem_of_filter. split; [done |]. unfold l, scores.
        apply list_elem_of_fmap. by exists t. }
      rewrite Ef in Hin. by apply not_elem_of_nil in Hin.
    - intros Hno. destruct (filter Q l) as [| s l'] eqn:Ef; [done |]. exfalso.
      assert (Hin : s ∈ filter Q l) by (rewrite Ef; apply list_elem_of_here).
      apply list_elem_of_filter in Hin as [Hq Hs]. unfold l, scores in Hs.
      apply list_elem_of_fmap in Hs as (t & -> & Ht). by apply (Hno t Ht). }
  destruct (sum_from_signed fpos (filter (fun s => py_gt0 s = true) l) fadd_pos)
    with (a := PyInt 0) as (P' & HP' & HPs).
  { intros [[] | [] | | [] m e]; done. }
  { by apply Hel. }
  { by left. }
  destruct (sum_from_signed fneg (filter (fun s => py_lt0 s = true) l) fadd_neg)
    with (a := PyInt 0) as (N' & HN' & HNs).
  { intros [[] | [] | | [] m e]; done. }
  { by apply Hel. }
  { by left. }
  unfold sum in HP, HN.
  assert (P' = P) by congruence. assert (N' = N) by congruence. subst P' N'.
  eexists. split; [apply E |]. unfold evaluated. cbn [Positive Negative]. split_and!.
  - intros Hno. destruct HPs as [(_ & _ & ->) | (f & -> & Hf)]; [done |]. exfalso.
    assert (Ee : filter (fun s => py_gt0 s = true) l = []).
    { apply Hemp. intros t Ht Hg. cbv beta in Hg. rewrite (Hno t Ht) in Hg. done. }
    rewrite Ee in HP'. simpl in HP'. congruence.
  - intros (t & Ht & Hg).
    destruct HPs as [(_ & Ee & _) | (f & -> & Hf)]; [| by exists f]. exfalso.
    apply (proj1 (Hemp _ _) Ee t Ht Hg).
  - intros Hno. destruct HNs as [(_ & _ & ->) | (f & -> & Hf)]; [done |]. exfalso.
    assert (Ee : filter (fun s => py_lt0 s = true) l = []).
    { apply Hemp. intros t Ht Hg. cbv beta in Hg. rewrite (Hno t Ht) in Hg. done. }
    rewrite Ee in HN'. simpl in HN'. congruence.
  - intros (t & Ht & Hg).
    destruct HNs as [(_ & Ee & _) | (f & -> & Hf)]; [| by exists f]. exfalso.
    apply (proj1 (Hemp _ _) Ee t Ht Hg).
Qed.

(** ** The further properties on the sample lexicons *)

(** Construction from the sample lexicon with a tokenizer supplied. *)
Lemma construct_sample :
  __init__ sample_installpath float_of_str unit (fun _ _ => Ok tt) true
    (one_file sample_lexicon) (Some tt) None =
  Ok {| _tables := tables_of sample_lexicon; _tokenizer := tt |}.
Proof. vm_compute. reflexivity. Qed.

(** The keys [hike] of the tables of the sample lexicon. *)
Lemma table_domains_witness :
  (is_Some (_posdict (tables_of sample_lexicon) !! hike) <->
   exists line p s, line ∈ sample_lexicon /\ retained float_of_str line hike p s /\
                    SFltb fzero p = true) /\
  (is_Some (_negdict (tables_of sample_lexicon) !! hike) <->
   exists line p s, line ∈ sample_lexicon /\ retained float_of_str line hike p s /\
                    SFltb p fzero = true) /\
  (is_Some (_poldict (tables_of sample_lexicon) !! hike) <->
   exists line p s, line ∈ sample_lexicon /\ retained float_of_str line hike p s).
Proof.
  apply (table_domains sample_installpath float_of_str (one_file sample_lexicon)
           None (tables_of sample_lexicon) sample_lexicon
           (lexicon_one_file sample_lexicon) load_sample hike).
Defined.

Lemma key_shape_witness : hike <> str "word" /\ comma ∉ hike.
Proof.
  apply (key_shape sample_installpath float_of_str (one_file sample_lexicon)
           None (tables_of sample_lexicon) hike load_sample).
  left. exists 1. vm_compute. reflexivity.
Defined.

(** The sample lexicon without its header line. *)
Lemma header_lines_skipped_witness :
  init_dict sample_installpath float_of_str
    (one_file (filter (fun line => ~ header line) sample_lexicon)) None
    empty_tables =
  init_dict sample_installpath float_of_str (one_file sample_lexicon) None
    empty_tables.
Proof.
  apply (header_lines_skipped sample_installpath float_of_str
           (one_file sample_lexicon) None
           (one_file (filter (fun line => ~ header line) sample_lexicon))
           empty_tables sample_lexicon).
  - apply lexicon_one_file.
  - apply lexicon_one_file.
Defined.

(** A fourth field on a line of three, before its newline. *)
Lemma more_fields_ignored_witness :
  init_dict sample_installpath float_of_str
    (one_file ([] ++ (str "hike,1,0.8" ++ comma :: str "note" ++ [10%N]) :: []))
    None empty_tables =
  init_dict sample_installpath float_of_str
    (one_file ([] ++ (str "hike,1,0.8" ++ [10%N]) :: [])) None empty_tables.
Proof.
  apply (more_fields_ignored sample_installpath float_of_str
           (one_file ([] ++ (str "hike,1,0.8" ++ [10%N]) :: [])) None
           (one_file ([] ++ (str "hike,1,0.8" ++ comma :: str "note" ++ [10%N]) :: []))
           empty_tables [] (str "hike,1,0.8") [10%N] [] (str "note")).
  - vm_compute. lia.
  - by right.
  - apply lexicon_one_file.
  - apply lexicon_one_file.
Defined.


(** The dictionary of the sample lexicon scores three tokens. *)
Lemma constructed_scores_witness :
  exists r,
    get_score (tables_of sample_lexicon) [hike; str "neutral_word"; cut] false =
    Ok r.
Proof.
  apply (constructed_scores sample_installpath float_of_str unit
           (fun _ _ => Ok tt) (one_file sample_lexicon) true (Some tt) None
           {| _tables := tables_of sample_lexicon; _tokenizer := tt |}
           [hike; str "neutral_word"; cut] false).
  - apply float_of_str_valid.
  - exact construct_sample.
  - reflexivity.
Defined.

(** Two tokens in either order. *)
Lemma by_count_permutation_witness :
  get_score (tables_of sample_lexicon) [hike; cut] true =
  get_score (tables_of sample_lexicon) [cut; hike] true.
Proof.
  apply (by_count_permutation (tables_of sample_lexicon) [hike; cut] [cut; hike]).
  apply perm_swap.
Defined.

(** Three tokens of the sample tables, by count. *)
Lemma by_count_signs_witness :
  exists p q pol sub,
    get_score (tables_of sample_lexicon) [hike; hike; cut] true =
      Ok {| Positive := PyInt p; Negative := PyInt (- q);
            Polarity := PyFloat pol; Subjectivity := PyFloat sub |} /\
    p = Z.of_nat (length (filter
          (fun t => py_gt0 (_get_score (tables_of sample_lexicon) t true) = true)
          [hike; hike; cut])) /\
    q = Z.of_nat (length (filter
          (fun t => py_lt0 (_get_score (tables_of sample_lexicon) t true) = true)
          [hike; hike; cut])) /\
    (p = q -> pol = fzero) /\
    (q < p -> SFltb fzero pol = true) /\
    (p < q -> SFltb pol fzero = true) /\
    (p + q = 0 -> sub = fzero) /\
    (0 < p + q -> SFltb fzero sub = true).
Proof.
  apply (by_count_signs (tables_of sample_lexicon) [hike; hike; cut] sample_wf).
  reflexivity.
Defined.

(** A token that is in no table, in the mode by polarity. *)
Lemma unknown_tokens_witness :
  get_score (tables_of sample_lexicon) [str "neutral_word"] false =
  Ok {| Positive := PyInt 0; Negative := PyInt 0;
        Polarity := PyFloat fzero; Subjectivity := PyFloat fzero |}.
Proof.
  apply (unknown_tokens (tables_of sample_lexicon) [str "neutral_word"] false).
  - reflexivity.
  - intros t Ht. apply list_elem_of_singleton in Ht. subst t.
    vm_compute. reflexivity.
Defined.

(** An unknown token before two tokens of the sample tables. *)
Lemma by_count_neutral_token_witness :
  exists r r',
    get_score (tables_of sample_lexicon) [hike; cut] true = Ok r /\
    get_score (tables_of sample_lexicon) [str "neutral_word"; hike; cut] true =
      Ok r' /\
    Positive r' = Positive r /\ Negative r' = Negative r /\
    Polarity r' = Polarity r.
Proof.
  apply (by_count_neutral_token (tables_of sample_lexicon) (str "neutral_word")
           [hike; cut] sample_wf).
  - reflexivity.
  - vm_compute. reflexivity.
  - vm_compute. reflexivity.
Defined.

(** Two lists of tokens of the sample tables. *)
Lemma by_count_append_witness :
  exists pa na pb nb ra rb r,
    get_score (tables_of sample_lexicon) [hike; cut] true = Ok ra /\
    get_score (tables_of sample_lexicon) [hike] true = Ok rb /\
    get_score (tables_of sample_lexicon) ([hike; cut] ++ [hike]) true = Ok r /\
    Positive ra = PyInt pa /\ Negative ra = PyInt na /\
    Positive rb = PyInt pb /\ Negative rb = PyInt nb /\
    Positive r = PyInt (pa + pb) /\ Negative r = PyInt (na + nb).
Proof.
  apply (by_count_append (tables_of sample_lexicon) [hike; cut] [hike] sample_wf).
  reflexivity.
Defined.

(** Three tokens of the sample tables, by polarity. *)
Lemma by_polarity_signs_witness :
  exists r,
    get_score (tables_of sample_lexicon) [hike; str "neutral_word"; cut] false =
      Ok r /\
    ((forall t, t ∈ [hike; str "neutral_word"; cut] ->
        py_gt0 (_get_score (tables_of sample_lexicon) t false) = false) ->
     Positive r = PyInt 0) /\
    ((exists t, t ∈ [hike; str "neutral_word"; cut] /\
        py_gt0 (_get_score (tables_of sample_lexicon) t false) = true) ->
     exists f, Positive r = PyFloat f /\ SFltb fzero f = true) /\
    ((forall t, t ∈ [hike; str "neutral_word"; cut] ->
        py_lt0 (_get_score (tables_of sample_lexicon) t false) = false) ->
     Negative r = PyInt 0) /\
    ((exists t, t ∈ [hike; str "neutral_word"; cut] /\
        py_lt0 (_get_score (tables_of sample_lexicon) t false) = true) ->
     exists f, Negative r = PyFloat f /\ SFltb f fzero = true).
Proof.
  apply (by_polarity_signs (tables_of sample_lexicon)
           [hike; str "neutral_word"; cut] sample_wf).
  reflexivity.
Defined.

(** The scores of the example, by polarity: [0.8] and [-0.6]. *)
Example get_score_sample_polarity :
  exists pol sub,
    get_score (tables_of sample_lexicon) [hike; str "neutral_word"; cut] false =
    Ok {| Positive := PyFloat (S754_finite false 7205759403792794 (-53));
          Negative := PyFloat (S754_finite true 5404319552844595 (-53));
          Polarity := PyFloat pol; Subjectivity := PyFloat sub |}.
Proof. eexists _, _. vm_compute. reflexivity. Qed.
